(** * EduParent roleplay engine: a shallow embedding and its properties

    This development embeds the roleplay part of the EduParent backend:

    - [app/roleplay/scenarios/loader.py]   scenario documents and their store
    - [app/roleplay/models/evaluation.py]  evaluation and completion records
    - [app/roleplay/models/game_state.py]  the per-session game state
    - [app/roleplay/agents/evaluator.py]   the evaluation agent
    - [app/roleplay/agents/teen_responder.py] the teen-response agent
    - [app/roleplay/services/game_engine.py]  the game engine
    - [app/api/roleplay.py]                the session map and its endpoints

    Python [int] is [Z], [str] is [string] (the UTF-8 bytes of the text),
    [Optional[T]] is [option T], a [dict] keyed by strings is a
    [gmap string _], a [list] is a [list].  Code that can raise returns a
    sum whose left side is the exception; a method that works on the
    session's state object in place returns the object as the call leaves
    it together with the exception, if it raised.  The one [float] of the
    models, the mean score of a completion, is a double, kept as the
    rational number it denotes.  The two generative-model calls, the
    directory of scenario documents and the wall clock are inputs of every
    submission. *)

From stdpp Require Import gmap strings list fin_maps sorting.
From Stdlib Require Import Ascii ZArith QArith Qabs Lqa DecimalString DecimalNat.

#[local] Set Warnings "-register-all".
#[local] Open Scope string_scope.
#[local] Open Scope Z_scope.

(* ===================================================================== *)
(** ** Python strings *)
(* ===================================================================== *)

Module PyStr.

(** [s.endswith(suffix)] *)
Definition endswith (s suffix : string) : bool :=
  let n := String.length s in
  let k := String.length suffix in
  (k <=? n)%nat && String.eqb (String.substring (n - k) k s) suffix.

(** [needle in s] *)
Fixpoint contains (needle s : string) : bool :=
  String.prefix needle s ||
  match s with
  | EmptyString => false
  | String _ s' => contains needle s'
  end.

(** [s.replace(a, b)] for one-character [a] and [b]. *)
Fixpoint replace (a b : ascii) (s : string) : string :=
  match s with
  | EmptyString => EmptyString
  | String c s' => String (if Ascii.eqb c a then b else c) (replace a b s')
  end.

Definition lower_ascii (c : ascii) : ascii :=
  let n := nat_of_ascii c in
  if ((65 <=? n) && (n <=? 90))%nat then ascii_of_nat (n + 32) else c.

(** [s.lower()] on the UTF-8 bytes of a text whose cased letters are
    ASCII: [A-Z] are lowered and every other byte is kept.  That is
    [str.lower()] for the titles of the scenario documents, which are
    ASCII or CJK text (CJK has no case); a title with a cased letter
    outside ASCII (É, Ω, ...) is lowered further by Python and is outside
    this model.  No character outside ASCII lowers to a letter of
    ["school drop"] or ["messy"], so the two substring tests of the engine
    are exact for every title. *)
Fixpoint lower (s : string) : string :=
  match s with
  | EmptyString => EmptyString
  | String c s' => String (lower_ascii c) (lower s')
  end.

(** [s.rfind(c)], [None] for Python's [-1]. *)
Fixpoint rfind (c : ascii) (s : string) : option nat :=
  match s with
  | EmptyString => None
  | String a s' =>
      match rfind c s' with
      | Some i => Some (S i)
      | None => if Ascii.eqb a c then Some 0%nat else None
      end
  end.

Fixpoint all_dots (s : string) : bool :=
  match s with
  | EmptyString => true
  | String a s' => Ascii.eqb a "." && all_dots s'
  end.

(** [os.path.splitext(name)[0]] for a directory entry (one path
    component, as [os.listdir] returns): the extension starts at the last
    dot, unless only dots come before it. *)
Definition splitext_root (p : string) : string :=
  match rfind "." p with
  | Some dotIndex =>
      if all_dots (String.substring 0 dotIndex p) then p
      else String.substring 0 dotIndex p
  | None => p
  end.

(** [str(n)] for a [len] result. *)
Definition of_nat (n : nat) : string := NilZero.string_of_uint (Nat.to_uint n).

(** [bool(s)]: a string is true when it is not empty. *)
Definition truthy (s : string) : bool := negb (String.eqb s EmptyString).

(** [s.startswith(prefix)] *)
Definition startswith (s prefix : string) : bool := String.prefix prefix s.

(** [s[n:]] *)
Definition slice_from (n : nat) (s : string) : string :=
  String.substring n (String.length s - n) s.

(** [s[:-k]] for a positive [k] *)
Definition slice_until_last (k : nat) (s : string) : string :=
  String.substring 0 (String.length s - k) s.

End PyStr.

(* ===================================================================== *)
(** ** [scenarios/loader.py] *)
(* ===================================================================== *)

Record RoundData := {
  round : Z;
  child_state : string;
  child_prompt : string;
  child_prompt_zh : option string;
  evaluation_criteria : list string;
  pass_threshold : Z
}.

(** [zh if language == "zh-HK" and zh else en]: a bilingual field falls
    back to its primary value when the Cantonese one is absent or empty. *)
Definition localized (language : string) (zh : option string) (en : string) : string :=
  match zh with
  | Some s => if String.eqb language "zh-HK" && PyStr.truthy s then s else en
  | None => en
  end.

Definition get_child_prompt (r : RoundData) (language : string) : string :=
  localized language (child_prompt_zh r) (child_prompt r).

Record Scenario := {
  case_name : string;
  case_name_zh : option string;
  background_and_instructions : string;
  background_and_instructions_zh : option string;
  child_prompts : list string;
  multi_round : bool;
  rounds : option (list RoundData)
}.

Module Scenario.

Definition get_title (sc : Scenario) (language : string) : string :=
  localized language (case_name_zh sc) (case_name sc).

Definition get_background (sc : Scenario) (language : string) : string :=
  localized language (background_and_instructions_zh sc)
            (background_and_instructions sc).

Definition title (sc : Scenario) : string := case_name sc.

(** [bool(self.rounds)]: the list is there and is not empty. *)
Definition rounds_truthy (sc : Scenario) : bool :=
  match rounds sc with
  | Some (_ :: _) => true
  | _ => false
  end.

Definition get_teen_opening (sc : Scenario) (language : string) : string :=
  match (if multi_round sc then rounds sc else None) with
  | Some (r0 :: _) => get_child_prompt r0 language
  | _ =>
      (* For single-round scenarios, pick the appropriate language prompt *)
      match child_prompts sc with
      | [] => EmptyString
      | [p0] => p0
      | p0 :: p1 :: _ => if String.eqb language "zh-HK" then p1 else p0
      end
  end.

Definition teen_opening (sc : Scenario) : string := get_teen_opening sc "en".

Definition is_multi_round (sc : Scenario) : bool :=
  multi_round sc && bool_decide (rounds sc ≠ None).

Definition max_rounds (sc : Scenario) : Z :=
  if is_multi_round sc
  then match rounds sc with Some rs => Z.of_nat (length rs) | None => 1 end
  else 1.

(** Get data for a specific round (1-indexed) *)
Definition get_round_data (sc : Scenario) (round_number : Z) : option RoundData :=
  if negb (is_multi_round sc) || negb (rounds_truthy sc) then None
  else
    let round_index := round_number - 1 in
    match rounds sc with
    | Some rs =>
        if (0 <=? round_index) && (round_index <? Z.of_nat (length rs))
        then rs !! Z.to_nat round_index
        else None
    | None => None
    end.

(** Get evaluation criteria for a specific round *)
Definition get_evaluation_criteria (sc : Scenario) (round_number : Z) : list string :=
  match get_round_data sc round_number with
  | Some round_data => evaluation_criteria round_data
  | None => ["tone_score"; "approach_score"; "respect_score"]  (* Default criteria *)
  end.

(** Get pass threshold for a specific round *)
Definition get_pass_threshold (sc : Scenario) (round_number : Z) : Z :=
  match get_round_data sc round_number with
  | Some round_data => pass_threshold round_data
  | None => 7  (* Default threshold *)
  end.

End Scenario.

(** The scenarios directory as the loader sees it: the result of
    [os.listdir] ([None] when the directory does not exist, entries in the
    order the operating system gives them; the path, when it exists, is a
    directory) and, for a file name relative to the directory, whether the
    path exists and whether its content loads as a [Scenario]. *)
Record ScenarioDir := {
  listdir : option (list string);
  read_yaml : string → option (option Scenario)
}.

Module ScenarioLoader.

Definition load_scenario (d : ScenarioDir) (scenario_name : string) : option Scenario :=
  match read_yaml d (scenario_name ++ ".yaml") with
  | Some (Some sc) => Some sc
  | Some None => None          (* open, parse or validation failed *)
  | None => None               (* the path does not exist *)
  end.

Definition hidden : string := "school_dropoff_anxiety".

Definition is_yaml (filename : string) : bool :=
  PyStr.endswith filename ".yaml" || PyStr.endswith filename ".yml".

(** One iteration of the loop over the directory entries. *)
Definition collect (scenarios : list string) (filename : string) : list string :=
  if is_yaml filename then
    let scenario_name := PyStr.splitext_root filename in
    if negb (String.eqb scenario_name hidden)
    then (scenarios ++ [scenario_name])%list
    else scenarios
  else scenarios.

(** [sorted] on strings: Python compares code points, which is the order
    of the UTF-8 bytes. *)
Definition sorted (l : list string) : list string := merge_sort String.le l.

Definition list_scenarios (d : ScenarioDir) : list string :=
  match listdir d with
  | None => []
  | Some files => sorted (foldl collect [] files)
  end.

Definition get_default_scenario (d : ScenarioDir) : option Scenario :=
  match list_scenarios d with
  | first :: _ => load_scenario d first
  | [] => None
  end.

(** Load all available scenarios *)
Definition load_all_scenarios (d : ScenarioDir) : list Scenario :=
  foldl (fun scenarios scenario_name =>
           match load_scenario d scenario_name with
           | Some scenario => (scenarios ++ [scenario])%list
           | None => scenarios
           end)
        [] (list_scenarios d).

End ScenarioLoader.

(* ===================================================================== *)
(** ** Decoded model output, exceptions and validation *)
(* ===================================================================== *)

(** What [json.loads] returns.  JSON numbers are integers here: every
    numeric field of the result models is an [int], for which the validator
    takes an integral float as that integer and refuses any other float. *)
Inductive json :=
| JNull
| JBool (b : bool)
| JInt (z : Z)
| JStr (s : string)
| JList (l : list json)
| JDict (d : gmap string json).

(** The exceptions the roleplay code can meet.  [AgentError] stands for
    whatever the model call, the clean-up of its output or [json.loads]
    raised; the last two are what [int / int] raises. *)
Inductive exn :=
| AgentError (msg : string)
| KeyError (key : string)
| TypeError
| AttributeError
| ValidationError
| HTTPError (status_code : Z) (detail : string)
| ZeroDivisionError
| OverflowError.

(** What the deployment fixes and the repository does not define: the text
    of an exception ([str(e)]), pydantic's lax coercion of a string to an
    [int] or a [bool], and the [MAX_ATTEMPTS] setting read from the process
    environment. *)
Class Runtime := {
  exn_str : exn → string;
  lax_int_of_str : string → option Z;
  lax_bool_of_str : string → option bool;
  MAX_ATTEMPTS : Z
}.

Definition bind {A B : Type} (m : exn + A) (k : A → exn + B) : exn + B :=
  match m with
  | inl e => inl e
  | inr a => k a
  end.

Notation "x <- m ;; k" := (bind m (fun x => k))
  (at level 100, m at next level, right associativity).

Module Py.

(** [data[key]] *)
Definition getitem (data : json) (key : string) : exn + json :=
  match data with
  | JDict d => match d !! key with Some v => inr v | None => inl (KeyError key) end
  | _ => inl TypeError
  end.

(** [data.get(key, default)] *)
Definition get (data : json) (key : string) (default : json) : exn + json :=
  match data with
  | JDict d => inr (match d !! key with Some v => v | None => default end)
  | _ => inl AttributeError
  end.

(** [data[key] = v]; a list refuses a string index. *)
Definition setitem (data : json) (key : string) (v : json) : exn + json :=
  match data with
  | JDict d => inr (JDict (<[key := v]> d))
  | _ => inl TypeError
  end.

(** [v >= n] for an [int] [n]; [bool] is a subclass of [int]. *)
Definition ge_int (v : json) (n : Z) : exn + bool :=
  match v with
  | JInt z => inr (n <=? z)
  | JBool b => inr (n <=? Z.b2z b)
  | _ => inl TypeError
  end.

(** [sum(l)] *)
Definition sum (l : list Z) : Z := foldl Z.add 0 l.

(** [{k: v for k in keys}] *)
Definition dict_of_keys {V : Type} (keys : list string) (v : V) : gmap string V :=
  foldl (fun d k => <[k := v]> d) ∅ keys.

(** [d.values()] *)
Definition values {V : Type} (d : gmap string V) : list V := (map_to_list d).*2.

End Py.

(** Python's [float] is the IEEE 754 binary64 format.  A finite double is
    kept as the rational number it denotes (so [0.0] and [-0.0] are one
    value; the engine only compares a float and truncates it).  The
    division [a / b] of two [int]s is the double nearest to the exact
    quotient, ties going to the even significand, and raises
    [OverflowError] when that is beyond the largest double: CPython
    divides the integers themselves, it does not convert them first. *)
Module PyFloat.

(** The integer nearest to [N / D] for a positive [D], ties to even. *)
Definition div_rne (N D : Z) : Z :=
  let f := N / D in
  match 2 * (N mod D) ?= D with
  | Lt => f
  | Gt => f + 1
  | Eq => if Z.even f then f else f + 1
  end.

(** [2 ^ e <= n / d], for positive [n] and [d] and any [e]. *)
Definition ge_pow2 (n d e : Z) : bool :=
  if 0 <=? e then d * 2 ^ e <=? n else d <=? n * 2 ^ (- e).

(** [floor (log2 (n / d))] *)
Definition ilog2 (n d : Z) : Z :=
  let e := Z.log2 n - Z.log2 d in
  if ge_pow2 n d e then e else e - 1.

(** [2 ^ k] for any [k] *)
Definition pow2 (k : Z) : Q :=
  if 0 <=? k then inject_Z (2 ^ k) else (/ inject_Z (2 ^ (- k)))%Q.

(** The double with significand [m] and exponent [k], in lowest terms. *)
Definition scale (m k : Z) : Q := Qred (inject_Z m * pow2 k).

(** [a / b]: with [e] the binary exponent of the quotient, the result is
    a multiple of [2 ^ (e - 52)], so that its significand has 53 bits, and
    of [2 ^ -1074] at least, the spacing of the subnormal doubles. *)
Definition truediv (a b : Z) : exn + Q :=
  if b =? 0 then inl ZeroDivisionError
  else if a =? 0 then inr 0%Q
  else
    let e := ilog2 (Z.abs a) (Z.abs b) in
    let k := Z.max (e - 52) (-1074) in
    let N := Z.sgn b * a * (if 0 <=? k then 1 else 2 ^ (- k)) in
    let D := Z.abs b * (if 0 <=? k then 2 ^ k else 1) in
    let m := div_rne N D in
    if (0 <=? k) && (2 ^ 1024 <=? Z.abs m * 2 ^ k)
    then inl OverflowError
    else inr (scale m k).

End PyFloat.

Module Pydantic.
Section validate.
Context {rt : Runtime}.

Definition validate_int (v : json) : option Z :=
  match v with
  | JInt z => Some z
  | JBool b => Some (Z.b2z b)
  | JStr s => lax_int_of_str s
  | _ => None
  end.

Definition validate_bool (v : json) : option bool :=
  match v with
  | JBool b => Some b
  | JInt 0 => Some false
  | JInt 1 => Some true
  | JStr s => lax_bool_of_str s
  | _ => None
  end.

Definition validate_str (v : json) : option string :=
  match v with
  | JStr s => Some s
  | _ => None
  end.

(** [Dict[str, T]]: every value must validate. *)
Definition validate_dict {T : Type} (f : json → option T) (v : json)
  : option (gmap string T) :=
  match v with
  | JDict d =>
      if decide (map_Forall (fun _ x => is_Some (f x)) d)
      then Some (omap f d) else None
  | _ => None
  end.

Definition field {T : Type} (o : option T) : exn + T :=
  match o with
  | Some x => inr x
  | None => inl ValidationError
  end.

End validate.
End Pydantic.

(* ===================================================================== *)
(** ** [models/evaluation.py] *)
(* ===================================================================== *)

Module EvaluationResult.

Record t := mk {
  tone_score : Z;       (* 0-4 *)
  approach_score : Z;   (* 0-3 *)
  respect_score : Z;    (* 0-3 *)
  total_score : Z;      (* 0-10 *)
  feedback : string;
  passed : bool         (* True if score >= threshold *)
}.

Definition from_dict {rt : Runtime} (data : json) : exn + t :=
  tone <- Py.getitem data "tone_score" ;;
  approach <- Py.getitem data "approach_score" ;;
  respect <- Py.getitem data "respect_score" ;;
  total <- Py.getitem data "total_score" ;;
  fb <- Py.getitem data "feedback" ;;
  ps <- Py.getitem data "passed" ;;
  tone <- Pydantic.field (Pydantic.validate_int tone) ;;
  approach <- Pydantic.field (Pydantic.validate_int approach) ;;
  respect <- Pydantic.field (Pydantic.validate_int respect) ;;
  total <- Pydantic.field (Pydantic.validate_int total) ;;
  fb <- Pydantic.field (Pydantic.validate_str fb) ;;
  ps <- Pydantic.field (Pydantic.validate_bool ps) ;;
  inr (mk tone approach respect total fb ps).

End EvaluationResult.

Module MultiRoundEvaluationResult.

Record t := mk {
  criteria_scores : gmap string Z;
  total_score : Z;
  max_possible_score : Z;
  feedback : string;
  detailed_feedback : gmap string string;
  passed : bool;
  round_number : Z
}.

Definition from_dict {rt : Runtime} (data : json) (round_number : Z) : exn + t :=
  cs <- Py.get data "criteria_scores" (JDict ∅) ;;
  total <- Py.getitem data "total_score" ;;
  mx <- Py.get data "max_possible_score" (JInt 10) ;;
  fb <- Py.getitem data "feedback" ;;
  df <- Py.get data "detailed_feedback" (JDict ∅) ;;
  ps <- Py.getitem data "passed" ;;
  cs <- Pydantic.field (Pydantic.validate_dict Pydantic.validate_int cs) ;;
  total <- Pydantic.field (Pydantic.validate_int total) ;;
  mx <- Pydantic.field (Pydantic.validate_int mx) ;;
  fb <- Pydantic.field (Pydantic.validate_str fb) ;;
  df <- Pydantic.field (Pydantic.validate_dict Pydantic.validate_str df) ;;
  ps <- Pydantic.field (Pydantic.validate_bool ps) ;;
  inr (mk cs total mx fb df ps round_number).

End MultiRoundEvaluationResult.

Module RoundResult.

Record t := mk {
  round_number : Z;
  parent_response : string;
  child_response : string;
  evaluation : MultiRoundEvaluationResult.t;
  attempts_used : Z;
  completed_at : option string   (* ISO timestamp *)
}.

End RoundResult.

Module ScenarioCompletion.

(** [overall_score] is a Python [float], kept as the value of the
    double. *)
Record t := mk {
  scenario_name : string;
  rounds_completed : Z;
  total_rounds : Z;
  rounds_passed : Z;
  overall_score : Q;             (* Average of all passed rounds *)
  mastery_achieved : bool;       (* True if all rounds passed *)
  badges_earned : list string;
  communication_techniques_unlocked : list string
}.

End ScenarioCompletion.

Module TeenResponse.

Record t := mk {
  response : string;
  emotion : string
}.

Definition from_dict {rt : Runtime} (data : json) : exn + t :=
  r <- Py.getitem data "response" ;;
  e <- Py.get data "emotion" (JStr "neutral") ;;
  r <- Pydantic.field (Pydantic.validate_str r) ;;
  e <- Pydantic.field (Pydantic.validate_str e) ;;
  inr (mk r e).

End TeenResponse.

(* ===================================================================== *)
(** ** [agents/evaluator.py] and [agents/teen_responder.py] *)
(* ===================================================================== *)

(** In both agents the argument [reply] is the outcome of the three lines
    [result = await agent.run(prompt)], [output = _clean_json_output(...)],
    [data = json.loads(output)]: the decoded value, or the exception one of
    them raised.  The prompt only reaches the model, so the texts that go
    into it do not appear in the result except through [reply]. *)

Module EvaluationAgent.
Section agent.
Context {rt : Runtime}.

Definition _create_fallback_evaluation (error language : string)
  : EvaluationResult.t :=
  let feedback :=
    if String.eqb language "en"
    then "Evaluation system error, please retry. Error: " ++ error
    else "評估系統出現錯誤，請重試。錯誤：" ++ error in
  EvaluationResult.mk 2 2 2 6 feedback false.

Definition evaluate_try (reply : exn + json) : exn + EvaluationResult.t :=
  eval_data <- reply ;;
  EvaluationResult.from_dict eval_data.

Definition evaluate (reply : exn + json)
    (parent_response teen_opening language : string) : EvaluationResult.t :=
  match evaluate_try reply with
  | inr r => r
  | inl e => _create_fallback_evaluation (exn_str e) language
  end.

Definition max_scores : gmap string Z :=
  list_to_map
    [("emotion_acknowledgment", 3); ("tone_empathy", 2); ("solution_approach", 3);
     ("fear_validation", 4); ("concrete_reassurance", 3); ("collaborative_approach", 3);
     ("transition_strategy", 4); ("child_agency", 3); ("follow_through_clarity", 3)].

(** [max_scores.get(criterion, 3)] *)
Definition max_score (criterion : string) : Z := default 3 (max_scores !! criterion).

Definition _create_fallback_multi_round_evaluation
    (error : string) (criteria : list string) (round_number : Z)
    (language : string) : MultiRoundEvaluationResult.t :=
  let criteria_scores := Py.dict_of_keys criteria 2 in
  let total_score := Py.sum (Py.values criteria_scores) in
  let feedback :=
    if String.eqb language "en"
    then "Evaluation system error, please retry. Error: " ++ error
    else "評估系統出現錯誤，請重試。錯誤：" ++ error in
  let detailed_feedback :=
    if String.eqb language "en"
    then Py.dict_of_keys criteria "System error"
    else Py.dict_of_keys criteria "系統錯誤" in
  MultiRoundEvaluationResult.mk
    criteria_scores total_score
    (Z.of_nat (length criteria) * 3)     (* Conservative estimate *)
    feedback detailed_feedback false round_number.

(** The body of the [try] block. *)
Definition evaluate_multi_round_try (reply : exn + json)
    (criteria : list string) (threshold round_number : Z)
  : exn + MultiRoundEvaluationResult.t :=
  eval_data <- reply ;;
  let max_possible := Py.sum (max_score <$> criteria) in
  eval_data <- Py.setitem eval_data "max_possible_score" (JInt max_possible) ;;
  total <- Py.get eval_data "total_score" (JInt 0) ;;
  passed <- Py.ge_int total threshold ;;
  eval_data <- Py.setitem eval_data "passed" (JBool passed) ;;
  MultiRoundEvaluationResult.from_dict eval_data round_number.

Definition evaluate_multi_round (reply : exn + json)
    (parent_response child_prompt : string) (criteria : list string)
    (threshold round_number : Z) (language : string)
  : MultiRoundEvaluationResult.t :=
  match evaluate_multi_round_try reply criteria threshold round_number with
  | inr r => r
  | inl e =>
      _create_fallback_multi_round_evaluation (exn_str e) criteria round_number language
  end.

End agent.
Section clean.

(** [str.strip()], which the repository takes from Python: it removes the
    white space of the Unicode tables from both ends. *)
Variable strip : string → string.

(** Clean up JSON output from AI response.  [TeenResponderAgent] has the
    same method, word for word. *)
Definition _clean_json_output (output : string) : string :=
  let output := strip output in
  let output :=
    if PyStr.startswith output "```json" then PyStr.slice_from 7 output
    else output in
  let output :=
    if PyStr.endswith output "```" then PyStr.slice_until_last 3 output
    else output in
  strip output.

End clean.

End EvaluationAgent.

Module TeenResponderAgent.
Section agent.
Context {rt : Runtime}.

Definition _create_fallback_response (score : Z) (language : string)
  : TeenResponse.t :=
  if String.eqb language "en" then
    if 7 <=? score
    then TeenResponse.mk "Okay, I understand what you're saying" "cooperative"
    else TeenResponse.mk "I don't want to talk about this right now" "defensive"
  else
    if 7 <=? score
    then TeenResponse.mk "好啦，我明白你嘅意思" "cooperative"
    else TeenResponse.mk "我而家唔想講呢啲" "defensive".

Definition respond (reply : exn + json) (score : Z) (context language : string)
  : TeenResponse.t :=
  match (teen_data <- reply ;; TeenResponse.from_dict teen_data) with
  | inr r => r
  | inl _ => _create_fallback_response score language
  end.

End agent.
End TeenResponderAgent.

(* ===================================================================== *)
(** ** [models/game_state.py] *)
(* ===================================================================== *)

Module GameState.

Record t := mk {
  scenario_title : string;
  scenario_background : string;
  teen_opening : string;
  is_multi_round : bool;
  language : string;
  parent_response : string;
  attempts : Z;
  max_attempts : Z;
  current_round : Z;
  max_rounds : Z;
  round_attempts : Z;
  max_round_attempts : Z;
  round_history : list RoundResult.t;
  evaluation : option EvaluationResult.t;
  multi_round_evaluation : option MultiRoundEvaluationResult.t;
  teen_response : option string;
  game_completed : bool;
  final_score : option Z;
  scenario_completion : option ScenarioCompletion.t
}.

(** Assignment to one attribute. *)
Definition set_teen_opening (gs : t) (v : string) : t :=
  mk (scenario_title gs) (scenario_background gs) v (is_multi_round gs)
    (language gs) (parent_response gs) (attempts gs) (max_attempts gs)
    (current_round gs) (max_rounds gs) (round_attempts gs)
    (max_round_attempts gs) (round_history gs) (evaluation gs)
    (multi_round_evaluation gs) (teen_response gs) (game_completed gs)
    (final_score gs) (scenario_completion gs).

Definition set_parent_response (gs : t) (v : string) : t :=
  mk (scenario_title gs) (scenario_background gs) (teen_opening gs)
    (is_multi_round gs) (language gs) v (attempts gs) (max_attempts gs)
    (current_round gs) (max_rounds gs) (round_attempts gs)
    (max_round_attempts gs) (round_history gs) (evaluation gs)
    (multi_round_evaluation gs) (teen_response gs) (game_completed gs)
    (final_score gs) (scenario_completion gs).

Definition set_attempts (gs : t) (v : Z) : t :=
  mk (scenario_title gs) (scenario_background gs) (teen_opening gs)
    (is_multi_round gs) (language gs) (parent_response gs) v
    (max_attempts gs) (current_round gs) (max_rounds gs) (round_attempts gs)
    (max_round_attempts gs) (round_history gs) (evaluation gs)
    (multi_round_evaluation gs) (teen_response gs) (game_completed gs)
    (final_score gs) (scenario_completion gs).

Definition set_current_round (gs : t) (v : Z) : t :=
  mk (scenario_title gs) (scenario_background gs) (teen_opening gs)
    (is_multi_round gs) (language gs) (parent_response gs) (attempts gs)
    (max_attempts gs) v (max_rounds gs) (round_attempts gs)
    (max_round_attempts gs) (round_history gs) (evaluation gs)
    (multi_round_evaluation gs) (teen_response gs) (game_completed gs)
    (final_score gs) (scenario_completion gs).

Definition set_round_attempts (gs : t) (v : Z) : t :=
  mk (scenario_title gs) (scenario_background gs) (teen_opening gs)
    (is_multi_round gs) (language gs) (parent_response gs) (attempts gs)
    (max_attempts gs) (current_round gs) (max_rounds gs) v
    (max_round_attempts gs) (round_history gs) (evaluation gs)
    (multi_round_evaluation gs) (teen_response gs) (game_completed gs)
    (final_score gs) (scenario_completion gs).

Definition set_round_history (gs : t) (v : list RoundResult.t) : t :=
  mk (scenario_title gs) (scenario_background gs) (teen_opening gs)
    (is_multi_round gs) (language gs) (parent_response gs) (attempts gs)
    (max_attempts gs) (current_round gs) (max_rounds gs) (round_attempts gs)
    (max_round_attempts gs) v (evaluation gs) (multi_round_evaluation gs)
    (teen_response gs) (game_completed gs) (final_score gs)
    (scenario_completion gs).

Definition set_evaluation (gs : t) (v : option EvaluationResult.t) : t :=
  mk (scenario_title gs) (scenario_background gs) (teen_opening gs)
    (is_multi_round gs) (language gs) (parent_response gs) (attempts gs)
    (max_attempts gs) (current_round gs) (max_rounds gs) (round_attempts gs)
    (max_round_attempts gs) (round_history gs) v (multi_round_evaluation gs)
    (teen_response gs) (game_completed gs) (final_score gs)
    (scenario_completion gs).

Definition set_multi_round_evaluation (gs : t) (v : option MultiRoundEvaluationResult.t) : t :=
  mk (scenario_title gs) (scenario_background gs) (teen_opening gs)
    (is_multi_round gs) (language gs) (parent_response gs) (attempts gs)
    (max_attempts gs) (current_round gs) (max_rounds gs) (round_attempts gs)
    (max_round_attempts gs) (round_history gs) (evaluation gs) v
    (teen_response gs) (game_completed gs) (final_score gs)
    (scenario_completion gs).

Definition set_teen_response (gs : t) (v : option string) : t :=
  mk (scenario_title gs) (scenario_background gs) (teen_opening gs)
    (is_multi_round gs) (language gs) (parent_response gs) (attempts gs)
    (max_attempts gs) (current_round gs) (max_rounds gs) (round_attempts gs)
    (max_round_attempts gs) (round_history gs) (evaluation gs)
    (multi_round_evaluation gs) v (game_completed gs) (final_score gs)
    (scenario_completion gs).

Definition set_game_completed (gs : t) (v : bool) : t :=
  mk (scenario_title gs) (scenario_background gs) (teen_opening gs)
    (is_multi_round gs) (language gs) (parent_response gs) (attempts gs)
    (max_attempts gs) (current_round gs) (max_rounds gs) (round_attempts gs)
    (max_round_attempts gs) (round_history gs) (evaluation gs)
    (multi_round_evaluation gs) (teen_response gs) v (final_score gs)
    (scenario_completion gs).

Definition set_final_score (gs : t) (v : option Z) : t :=
  mk (scenario_title gs) (scenario_background gs) (teen_opening gs)
    (is_multi_round gs) (language gs) (parent_response gs) (attempts gs)
    (max_attempts gs) (current_round gs) (max_rounds gs) (round_attempts gs)
    (max_round_attempts gs) (round_history gs) (evaluation gs)
    (multi_round_evaluation gs) (teen_response gs) (game_completed gs) v
    (scenario_completion gs).

Definition set_scenario_completion (gs : t) (v : option ScenarioCompletion.t) : t :=
  mk (scenario_title gs) (scenario_background gs) (teen_opening gs)
    (is_multi_round gs) (language gs) (parent_response gs) (attempts gs)
    (max_attempts gs) (current_round gs) (max_rounds gs) (round_attempts gs)
    (max_round_attempts gs) (round_history gs) (evaluation gs)
    (multi_round_evaluation gs) (teen_response gs) (game_completed gs)
    (final_score gs) v.

(** The model's defaults; [create_game_state] passes the other fields. *)
Definition new (scenario_title scenario_background teen_opening : string)
    (max_attempts : Z) (is_multi_round : bool) (max_rounds : Z)
    (language : string) : t :=
  mk scenario_title scenario_background teen_opening is_multi_round language
     EmptyString 0 max_attempts
     1 max_rounds 0 3 []
     None None None false None None.

(** Check if player can make another attempt *)
Definition can_retry (gs : t) : bool :=
  if is_multi_round gs
  then (round_attempts gs <? max_round_attempts gs) && negb (game_completed gs)
  else (attempts gs <? max_attempts gs) && negb (game_completed gs).

(** Check if the current attempt passed *)
Definition is_passed (gs : t) : bool :=
  if is_multi_round gs
  then match multi_round_evaluation gs with
       | Some e => MultiRoundEvaluationResult.passed e
       | None => false
       end
  else match evaluation gs with
       | Some e => EvaluationResult.passed e
       | None => false
       end.

(** Increment the attempt counter *)
Definition increment_attempt (gs : t) : t :=
  if is_multi_round gs
  then set_round_attempts gs (round_attempts gs + 1)
  else set_attempts gs (attempts gs + 1).

(** Advance to the next round *)
Definition advance_to_next_round (gs : t) : t :=
  if is_multi_round gs && (current_round gs <? max_rounds gs) then
    let gs := set_current_round gs (current_round gs + 1) in
    let gs := set_round_attempts gs 0 in
    let gs := set_parent_response gs EmptyString in
    let gs := set_teen_response gs None in
    set_multi_round_evaluation gs None
  else gs.

(** Check if can advance to next round *)
Definition can_advance_round (gs : t) : bool :=
  is_multi_round gs &&
  (current_round gs <? max_rounds gs) &&
  (is_passed gs || (max_round_attempts gs <=? round_attempts gs)).

(** Check if entire scenario is complete *)
Definition is_scenario_complete (gs : t) : bool :=
  if is_multi_round gs
  then (max_rounds gs <=? current_round gs) || game_completed gs
  else game_completed gs.

(** Mark the game as completed *)
Definition complete_game (gs : t) (final_score : option Z) : t :=
  let gs := set_game_completed gs true in
  set_final_score gs final_score.

End GameState.

(* ===================================================================== *)
(** ** [services/game_engine.py] *)
(* ===================================================================== *)

(** What the world outside the engine answers during one call: the
    scenarios directory as it is then, the decoded replies of the two model
    calls and [datetime.now().isoformat()]. *)
Record World := {
  scenarios : ScenarioDir;
  evaluator_reply : exn + json;
  responder_reply : exn + json;
  now : string
}.

(** [int(x)] of a float given by its value: truncation towards zero. *)
Definition int_of_Q (q : Q) : Z := Z.quot (Qnum q) (Z.pos (Qden q)).

(** A method of the engine works on the session's state object in place
    and returns it.  Its outcome is the object as the call leaves it and,
    when the call raised instead of returning, the exception: what was
    assigned or appended before the [raise] stays in the object. *)
Definition outcome : Type := GameState.t * option exn.

Module RoleplayGameEngine.
Section engine.
Context {rt : Runtime}.

(** Create a new game state with the specified scenario *)
Definition create_game_state (d : ScenarioDir) (scenario_name : option string)
    (language : string) : option GameState.t :=
  let scenario :=
    match scenario_name with
    | Some name =>
        if PyStr.truthy name then ScenarioLoader.load_scenario d name
        else ScenarioLoader.get_default_scenario d
    | None => ScenarioLoader.get_default_scenario d
    end in
  match scenario with
  | None => None
  | Some scenario =>
      Some (GameState.new
              (Scenario.get_title scenario language)
              (Scenario.get_background scenario language)
              (Scenario.get_teen_opening scenario language)
              MAX_ATTEMPTS
              (Scenario.is_multi_round scenario)
              (if Scenario.is_multi_round scenario
               then Scenario.max_rounds scenario else 1)
              language)
  end.

(** The mapping from a scenario title back to a file name; the source
    writes it out in [process_parent_response] and again in
    [advance_to_next_round]. *)
Definition scenario_name_of_title (scenario_title : string) : string :=
  if PyStr.contains "school drop" (PyStr.lower scenario_title)
  then "school_dropoff_anxiety"
  else if PyStr.contains "messy" (PyStr.lower scenario_title)
  then "messy_room"
  else PyStr.replace "-" "_" (PyStr.lower (PyStr.replace " " "_" scenario_title)).

(** Process response for single-round scenarios (legacy) *)
Definition _process_single_round_response (w : World) (game_state : GameState.t)
    (parent_response : string) : GameState.t :=
  let evaluation :=
    EvaluationAgent.evaluate (evaluator_reply w) parent_response
      (GameState.teen_opening game_state) (GameState.language game_state) in
  let game_state := GameState.set_evaluation game_state (Some evaluation) in
  let teen_response :=
    TeenResponderAgent.respond (responder_reply w)
      (EvaluationResult.total_score evaluation)
      (GameState.scenario_background game_state)
      (GameState.language game_state) in
  let game_state :=
    GameState.set_teen_response game_state
      (Some (TeenResponse.response teen_response)) in
  if EvaluationResult.passed evaluation then
    GameState.complete_game game_state
      (Some (EvaluationResult.total_score evaluation))
  else if negb (GameState.can_retry game_state) then
    GameState.complete_game game_state None
  else game_state.

(** Create scenario completion result.  The source imports
    [ScenarioCompletion] inside the function, from a module [evaluation]
    beside the engine that is not among the sources; the class is taken
    to be the one of [models/evaluation.py], from which the engine imports
    its other result classes.  The division is the one place of the
    engine that can raise. *)
Definition _create_scenario_completion (game_state : GameState.t)
    (scenario : Scenario) : exn + ScenarioCompletion.t :=
  let history := GameState.round_history game_state in
  let passed_results :=
    List.filter
      (fun result => MultiRoundEvaluationResult.passed (RoundResult.evaluation result))
      history in
  let rounds_passed := Py.sum ((fun _ : RoundResult.t => 1) <$> passed_results) in
  let total_score :=
    Py.sum ((fun result =>
               MultiRoundEvaluationResult.total_score (RoundResult.evaluation result))
            <$> passed_results) in
  avg_score <-
    (if 0 <? rounds_passed
     then PyFloat.truediv total_score rounds_passed
     else inr 0%Q) ;;
  let badges : list string := [] in
  let techniques : list string := [] in
  let mastery := rounds_passed =? GameState.max_rounds game_state in
  let badges := if mastery then (badges ++ ["scenario_mastery"])%list else badges in
  let techniques :=
    if mastery then (techniques ++ ["separation_anxiety_management"])%list
    else techniques in
  let badges :=
    if Qle_bool 9 avg_score then (badges ++ ["expert_communicator"])%list
    else badges in
  inr (ScenarioCompletion.mk
         (Scenario.title scenario)
         (Z.of_nat (length history))
         (GameState.max_rounds game_state)
         rounds_passed
         avg_score
         (rounds_passed =? GameState.max_rounds game_state)
         badges
         techniques).

(** Process response for multi-round scenarios.  When the division in
    [_create_scenario_completion] raises, the round result has already
    been appended to the history; the summary and [game_completed] are
    not set. *)
Definition _process_multi_round_response (w : World) (game_state : GameState.t)
    (parent_response : string) (scenario : Scenario) : outcome :=
  match Scenario.get_round_data scenario (GameState.current_round game_state) with
  | None => (game_state, None)
  | Some round_data =>
      let evaluation :=
        EvaluationAgent.evaluate_multi_round (evaluator_reply w)
          parent_response (child_prompt round_data)
          (evaluation_criteria round_data) (pass_threshold round_data)
          (GameState.current_round game_state)
          (GameState.language game_state) in
      let game_state :=
        GameState.set_multi_round_evaluation game_state (Some evaluation) in
      let teen_response :=
        TeenResponderAgent.respond (responder_reply w)
          (MultiRoundEvaluationResult.total_score evaluation)
          (GameState.scenario_background game_state ++ " Child state: "
             ++ child_state round_data)
          (GameState.language game_state) in
      let game_state :=
        GameState.set_teen_response game_state
          (Some (TeenResponse.response teen_response)) in
      if MultiRoundEvaluationResult.passed evaluation
         || (GameState.max_round_attempts game_state
               <=? GameState.round_attempts game_state)
      then
        let round_result :=
          RoundResult.mk
            (GameState.current_round game_state)
            parent_response
            (TeenResponse.response teen_response)
            evaluation
            (GameState.round_attempts game_state)
            (Some (now w)) in
        let game_state :=
          GameState.set_round_history game_state
            (GameState.round_history game_state ++ [round_result])%list in
        if GameState.max_rounds game_state <=? GameState.current_round game_state
        then
          match _create_scenario_completion game_state scenario with
          | inl e => (game_state, Some e)
          | inr completion =>
              let game_state :=
                GameState.set_scenario_completion game_state (Some completion) in
              (GameState.complete_game game_state
                 (Some (int_of_Q (ScenarioCompletion.overall_score completion))),
               None)
          end
        else (GameState.advance_to_next_round game_state, None)
      else (game_state, None)
  end.

(** Process a parent's response and update game state *)
Definition process_parent_response (w : World) (game_state : GameState.t)
    (parent_response : string) : outcome :=
  let game_state := GameState.set_parent_response game_state parent_response in
  let game_state := GameState.increment_attempt game_state in
  let scenario_name :=
    scenario_name_of_title (GameState.scenario_title game_state) in
  match ScenarioLoader.load_scenario (scenarios w) scenario_name with
  | None =>
      (* Fallback to default evaluation *)
      (_process_single_round_response w game_state parent_response, None)
  | Some scenario =>
      if GameState.is_multi_round game_state
      then _process_multi_round_response w game_state parent_response scenario
      else (_process_single_round_response w game_state parent_response, None)
  end.

(** Manually advance to next round *)
Definition advance_to_next_round (d : ScenarioDir) (game_state : GameState.t)
  : GameState.t :=
  if GameState.can_advance_round game_state then
    let scenario_name :=
      scenario_name_of_title (GameState.scenario_title game_state) in
    match ScenarioLoader.load_scenario d scenario_name with
    | Some scenario =>
        let game_state := GameState.advance_to_next_round game_state in
        match Scenario.get_round_data scenario
                (GameState.current_round game_state) with
        | Some round_data =>
            GameState.set_teen_opening game_state (child_prompt round_data)
        | None => game_state
        end
    | None => game_state
    end
  else game_state.

Definition get_available_scenarios (d : ScenarioDir) : list string :=
  ScenarioLoader.list_scenarios d.

End engine.
End RoleplayGameEngine.

(* ===================================================================== *)
(** ** [api/roleplay.py] *)
(* ===================================================================== *)

(** An endpoint returns a body or raises [HTTPException]. *)
Inductive http (A : Type) :=
| Return (body : A)
| HTTPException (status_code : Z) (detail : string).
Arguments Return {A} body.
Arguments HTTPException {A} status_code detail.

Module Api.

(** [game_sessions]: the in-memory session map. *)
Abbreviation sessions := (gmap string GameState.t).

Section api.
Context {rt : Runtime}.

(** The body of [/game/start]: the session id and the fields read from
    the new state. *)
Record started := {
  session_id : string;
  started_state : GameState.t
}.

(** Start a new game session.  The 404 raised for a missing scenario is
    caught by the handler's own [except Exception] and comes out as a
    500 carrying its text. *)
Definition start_game (d : ScenarioDir) (game_sessions : sessions)
    (scenario_name : option string) (language : string)
  : http started * sessions :=
  match RoleplayGameEngine.create_game_state d scenario_name language with
  | None =>
      (HTTPException 500 (exn_str (HTTPError 404 "Scenario not found")),
       game_sessions)
  | Some game_state =>
      let session_id := "session_" ++ PyStr.of_nat (size game_sessions) in
      (Return {| session_id := session_id; started_state := game_state |},
       <[session_id := game_state]> game_sessions)
  end.

(** Submit parent response for evaluation.  The body is built from the
    updated state, which is returned here as it is.  The engine works on
    the object stored in [game_sessions], so when the engine raises and
    the handler answers with a 500, the map holds the state as the engine
    left it. *)
Definition submit_response (w : World) (game_sessions : sessions)
    (session_id parent_response : string) : http GameState.t * sessions :=
  match game_sessions !! session_id with
  | None => (HTTPException 404 "Game session not found", game_sessions)
  | Some game_state =>
      if GameState.game_completed game_state
      then (HTTPException 400 "Game already completed", game_sessions)
      else
        match RoleplayGameEngine.process_parent_response
                w game_state parent_response with
        | (updated_state, None) =>
            (Return updated_state, <[session_id := updated_state]> game_sessions)
        | (mutated_state, Some e) =>
            (HTTPException 500 (exn_str e),
             <[session_id := mutated_state]> game_sessions)
        end
  end.

(** End a game session *)
Definition end_game (game_sessions : sessions) (session_id : string)
  : http string * sessions :=
  match game_sessions !! session_id with
  | None => (HTTPException 404 "Game session not found", game_sessions)
  | Some _ => (Return "Game session ended", delete session_id game_sessions)
  end.

End api.
End Api.

(* ===================================================================== *)
(** ** A deployment and scenario documents for the examples *)
(* ===================================================================== *)

Module Sample.

(** Default settings; exception texts as CPython prints them where the
    text is fixed, and no coercion of strings by the validator. *)
Definition runtime : Runtime := {|
  exn_str e :=
    match e with
    | AgentError msg => msg
    | KeyError key => "'" ++ key ++ "'"
    | TypeError => "TypeError"
    | AttributeError => "AttributeError"
    | ValidationError => "ValidationError"
    | HTTPError status detail => detail
    | ZeroDivisionError => "division by zero"
    | OverflowError => "integer division result too large for a float"
    end;
  lax_int_of_str _ := None;
  lax_bool_of_str _ := None;
  MAX_ATTEMPTS := 3
|}.

Definition messy_room : Scenario := {|
  case_name := "Messy Room";
  case_name_zh := Some "亂房間";
  background_and_instructions := "Your teen's room is a mess.";
  background_and_instructions_zh := None;
  child_prompts := ["I'll clean it later!"; "我遲啲先執！"];
  multi_round := false;
  rounds := None
|}.

Definition dropoff_rounds : list RoundData :=
  [ {| round := 1; child_state := "resistant";
       child_prompt := "I don't want to go to school!";
       child_prompt_zh := Some "我唔想返學！";
       evaluation_criteria :=
         ["emotion_acknowledgment"; "tone_empathy"; "solution_approach"];
       pass_threshold := 6 |};
    {| round := 2; child_state := "fearful";
       child_prompt := "What if nobody plays with me?";
       child_prompt_zh := None;
       evaluation_criteria :=
         ["fear_validation"; "concrete_reassurance"; "collaborative_approach"];
       pass_threshold := 7 |};
    {| round := 3; child_state := "hesitant";
       child_prompt := "Will you really come back?";
       child_prompt_zh := None;
       evaluation_criteria :=
         ["transition_strategy"; "child_agency"; "follow_through_clarity"];
       pass_threshold := 7 |} ].

Definition school_dropoff_anxiety : Scenario := {|
  case_name := "School Drop-off Anxiety";
  case_name_zh := Some "返學分離焦慮";
  background_and_instructions := "Your child clings to you at the school gate.";
  background_and_instructions_zh := None;
  child_prompts := [];
  multi_round := true;
  rounds := Some dropoff_rounds
|}.

(** A multi-round scenario whose title contains the word the engine maps
    to [messy_room]. *)
Definition messy_kitchen : Scenario := {|
  case_name := "Messy Kitchen Standoff";
  case_name_zh := None;
  background_and_instructions := "The kitchen was left in a state.";
  background_and_instructions_zh := None;
  child_prompts := [];
  multi_round := true;
  rounds := Some dropoff_rounds
|}.

(** A directory holding the given documents as [<name>.yaml]. *)
Definition directory (docs : list (string * Scenario)) : ScenarioDir := {|
  listdir := Some ((fun d => d.1 ++ ".yaml") <$> docs);
  read_yaml path :=
    match list_find (fun d => d.1 ++ ".yaml" = path) docs with
    | Some (_, (_, sc)) => Some (Some sc)
    | None => None
    end
|}.

Definition scenarios_dir : ScenarioDir :=
  directory [("school_dropoff_anxiety", school_dropoff_anxiety);
             ("messy_room", messy_room);
             ("messy_kitchen", messy_kitchen)].

(** A model reply for a multi-round evaluation. *)
Definition multi_reply (total : Z) (claims_passed : bool) : json :=
  JDict (list_to_map
           [("criteria_scores", JDict ∅);
            ("total_score", JInt total);
            ("max_possible_score", JInt 99);
            ("feedback", JStr "ok");
            ("detailed_feedback", JDict ∅);
            ("passed", JBool claims_passed)]).

(** A model reply for a single-round evaluation. *)
Definition single_reply (tone approach respect total : Z) (claims_passed : bool)
  : json :=
  JDict (list_to_map
           [("tone_score", JInt tone);
            ("approach_score", JInt approach);
            ("respect_score", JInt respect);
            ("total_score", JInt total);
            ("feedback", JStr "ok");
            ("passed", JBool claims_passed)]).

Definition teen_reply : json :=
  JDict (list_to_map [("response", JStr "fine"); ("emotion", JStr "reluctant")]).

Definition world (d : ScenarioDir) (evaluator : exn + json) : World := {|
  scenarios := d;
  evaluator_reply := evaluator;
  responder_reply := inr teen_reply;
  now := "2025-01-01T00:00:00"
|}.

(** Removal of ASCII blanks from both ends, for the examples. *)
Definition is_blank (c : ascii) : bool :=
  bool_decide (c ∈ [" "; "009"; "010"; "013"]%char).

Fixpoint lstrip (s : string) : string :=
  match s with
  | String c s' => if is_blank c then lstrip s' else s
  | EmptyString => EmptyString
  end.

Definition strip (s : string) : string :=
  String.rev (lstrip (String.rev (lstrip s))).

End Sample.

(* ===================================================================== *)
(** ** Reference definitions for the properties *)
(* ===================================================================== *)

(** *** The listing of the scenarios directory *)

(** A text made of dots only (the empty text included). *)
Definition only_dots (s : string) : Prop :=
  ∀ c, In c (String.list_ascii_of_string s) → c = "."%char.

(** A directory entry read as a YAML file, and its base name: the entry
    is a stem followed by [.yaml] or [.yml], and the base name is the
    stem.  An entry whose stem is nothing but dots ([".yaml"], ["..yml"])
    is a hidden file without extension for Python, which takes the whole
    entry as the name. *)
Inductive base_name : string → string → Prop :=
| base_name_stem (stem ext : string) :
    ext ∈ [".yaml"; ".yml"] → ¬ only_dots stem →
    base_name (stem ++ ext) stem
| base_name_dots (stem ext : string) :
    ext ∈ [".yaml"; ".yml"] → only_dots stem →
    base_name (stem ++ ext) (stem ++ ext).

(** The names to list for the entries of a directory, entry by entry:
    the base name of every YAML file, except that
    ["school_dropoff_anxiety"] is left out. *)
Inductive listed : list string → list string → Prop :=
| listed_nil : listed [] []
| listed_shown (file name : string) (files names : list string) :
    base_name file name → name ≠ "school_dropoff_anxiety" →
    listed files names → listed (file :: files) (name :: names)
| listed_skipped (file : string) (files names : list string) :
    (∀ name, base_name file name → name = "school_dropoff_anxiety") →
    listed files names → listed (file :: files) names.

(** The loop of [list_scenarios] as one expression, for the proofs. *)
Definition visible_names (files : list string) : list string :=
  filter (fun name => name ≠ ScenarioLoader.hidden)
         (PyStr.splitext_root <$> filter (fun f => ScenarioLoader.is_yaml f = true) files).




(** *** Playthroughs *)

(** One submission: the world's answers during the call and the parent's
    text. *)
Definition turn : Type := World * string.

Section playthrough.
Context {rt : Runtime}.

(** What [submit_response] does to the state of the session it
    addresses: a completed session is left as it is (the call is
    rejected), any other goes through the engine and is left as the
    engine leaves it, whether the engine returned or raised. *)
Definition submit (game_state : GameState.t) (t : turn) : GameState.t :=
  if GameState.game_completed game_state then game_state
  else (RoleplayGameEngine.process_parent_response t.1 game_state t.2).1.

(** The exception a submission ends in, which the handler answers with a
    500; [None] when the engine returned or the call was rejected. *)
Definition raised (game_state : GameState.t) (t : turn) : option exn :=
  if GameState.game_completed game_state then None
  else (RoleplayGameEngine.process_parent_response t.1 game_state t.2).2.

(** A sequence of submissions on one session. *)
Definition play (game_state : GameState.t) (turns : list turn) : GameState.t :=
  foldl submit game_state turns.

(** The scenario the engine finds for a session during a call. *)
Definition looked_up (game_state : GameState.t) (w : World) : option Scenario :=
  ScenarioLoader.load_scenario (scenarios w)
    (RoleplayGameEngine.scenario_name_of_title (GameState.scenario_title game_state)).

(** The evaluation a multi-round submission receives for the round data
    it found. *)
Definition round_evaluation (game_state : GameState.t) (t : turn)
    (round_data : RoundData) : MultiRoundEvaluationResult.t :=
  EvaluationAgent.evaluate_multi_round (evaluator_reply t.1) t.2
    (child_prompt round_data) (evaluation_criteria round_data)
    (pass_threshold round_data) (GameState.current_round game_state)
    (GameState.language game_state).

(** The engine's condition for recording the current round, read on the
    state before the submission: the session is live and multi-round, the
    scenario and the round are found, and the evaluation passes or this
    attempt is the last one allowed. *)
Definition resolves (game_state : GameState.t) (t : turn) : bool :=
  negb (GameState.game_completed game_state)
  && GameState.is_multi_round game_state
  && match looked_up game_state t.1 with
     | Some scenario =>
         match Scenario.get_round_data scenario
                 (GameState.current_round game_state) with
         | Some round_data =>
             MultiRoundEvaluationResult.passed
               (round_evaluation game_state t round_data)
             || (GameState.max_round_attempts game_state
                   <=? GameState.round_attempts game_state + 1)
         | None => false
         end
     | None => false
     end.

(** The number of submissions of a playthrough that meet this
    condition. *)
Fixpoint resolved_count (game_state : GameState.t) (turns : list turn) : nat :=
  match turns with
  | [] => 0%nat
  | t :: turns =>
      ((if resolves game_state t then 1 else 0)
       + resolved_count (submit game_state t) turns)%nat
  end.

(** Every submission of a playthrough on a multi-round session either
    finds no scenario (and falls back to the single-round path) or finds
    one that has data for the session's current round. *)
Definition round_found (game_state : GameState.t) (t : turn) : Prop :=
  GameState.game_completed game_state = false →
  GameState.is_multi_round game_state = true →
  ∀ scenario, looked_up game_state t.1 = Some scenario →
    Scenario.get_round_data scenario (GameState.current_round game_state) ≠ None.

Fixpoint rounds_found (game_state : GameState.t) (turns : list turn) : Prop :=
  match turns with
  | [] => True
  | t :: turns =>
      round_found game_state t ∧ rounds_found (submit game_state t) turns
  end.

(** No submission of the playthrough ended in an exception: none was
    answered with a 500. *)
Fixpoint all_returned (game_state : GameState.t) (turns : list turn) : Prop :=
  match turns with
  | [] => True
  | t :: turns =>
      raised game_state t = None ∧ all_returned (submit game_state t) turns
  end.

(** Every evaluation a submission can receive has a total of at most
    [bound] in magnitude. *)
Definition modest (bound : Z) (game_state : GameState.t) (t : turn) : Prop :=
  ∀ scenario round_data,
    looked_up game_state t.1 = Some scenario →
    Scenario.get_round_data scenario (GameState.current_round game_state)
    = Some round_data →
    Z.abs (MultiRoundEvaluationResult.total_score
             (round_evaluation game_state t round_data)) ≤ bound.

Fixpoint all_modest (bound : Z) (game_state : GameState.t) (turns : list turn)
  : Prop :=
  match turns with
  | [] => True
  | t :: turns =>
      modest bound game_state t ∧ all_modest bound (submit game_state t) turns
  end.

End playthrough.

(** The rounds a state shows as resolved: those before the current one,
    and the current one as well once the final round has produced the
    completion summary. *)
Definition rounds_resolved (game_state : GameState.t) : Z :=
  GameState.current_round game_state - 1
  + match GameState.scenario_completion game_state with
    | Some _ => 1
    | None => 0
    end.

(** The results that passed, and the mean of their totals (0 for none). *)
Definition passed_results (history : list RoundResult.t) : list RoundResult.t :=
  List.filter
    (fun result => MultiRoundEvaluationResult.passed (RoundResult.evaluation result))
    history.

Definition total_of (results : list RoundResult.t) : Z :=
  foldr (fun result acc =>
           MultiRoundEvaluationResult.total_score (RoundResult.evaluation result) + acc)
        0 results.

Definition mean_total_score (results : list RoundResult.t) : Q :=
  match results with
  | [] => 0%Q
  | _ => (inject_Z (total_of results) / inject_Z (Z.of_nat (length results)))%Q
  end.

(** *** Invariants of a session *)

(** The attempt counters stay within their caps, and strictly below them
    while the session is open. *)
Record attempts_bounded (game_state : GameState.t) : Prop := {
  ab_attempts :
    0 ≤ GameState.attempts game_state ≤ GameState.max_attempts game_state;
  ab_round_attempts :
    0 ≤ GameState.round_attempts game_state
      ≤ GameState.max_round_attempts game_state;
  ab_open :
    GameState.game_completed game_state = false →
    GameState.attempts game_state < GameState.max_attempts game_state
    ∧ GameState.round_attempts game_state < GameState.max_round_attempts game_state
}.

(** The history holds the rounds 1, 2, ... in order, one entry for each
    round the state shows as resolved.  This is kept by every submission
    that returns. *)
Record history_recorded (game_state : GameState.t) : Prop := {
  hr_numbers :
    RoundResult.round_number <$> GameState.round_history game_state
    = seqZ 1 (Z.of_nat (length (GameState.round_history game_state)));
  hr_length :
    Z.of_nat (length (GameState.round_history game_state))
    = rounds_resolved game_state
}.

(** What every submission keeps, also one that raises: the round numbers
    of the history never decrease and lie between 1 and the current
    round. *)
Record history_ordered (game_state : GameState.t) : Prop := {
  ho_current : 1 ≤ GameState.current_round game_state;
  ho_sorted :
    StronglySorted Z.le
      (RoundResult.round_number <$> GameState.round_history game_state);
  ho_range :
    Forall (fun n => 1 ≤ n ≤ GameState.current_round game_state)
      (RoundResult.round_number <$> GameState.round_history game_state)
}.

(** A completion summary is only present on a completed session whose
    last round was reached, where it is the summary computed from that
    state and [final_score] is the integer part of its [overall_score]. *)
Record summary_recorded (game_state : GameState.t) : Prop := {
  sr_completed :
    GameState.scenario_completion game_state ≠ None →
    GameState.game_completed game_state = true
    ∧ GameState.max_rounds game_state ≤ GameState.current_round game_state;
  sr_computed :
    ∀ completion,
      GameState.scenario_completion game_state = Some completion →
      (∃ scenario,
         RoleplayGameEngine._create_scenario_completion game_state scenario
         = inr completion)
      ∧ GameState.final_score game_state
        = Some (int_of_Q (ScenarioCompletion.overall_score completion))
}.

(** *** Budgets, first-try passes and start requests *)

(** The submissions a session can still take: none once it is completed;
    on a multi-round session the attempts left in the current round and
    all attempts of the rounds after it; on a single-round session the
    attempts left. *)
Definition submissions_left (game_state : GameState.t) : Z :=
  if GameState.game_completed game_state then 0
  else if GameState.is_multi_round game_state
  then (GameState.max_rounds game_state - GameState.current_round game_state)
         * GameState.max_round_attempts game_state
       + (GameState.max_round_attempts game_state
            - GameState.round_attempts game_state)
  else GameState.max_attempts game_state - GameState.attempts game_state.

Section playthrough_counts.
Context {rt : Runtime}.

(** The submissions of a playthrough that reach the engine: those made
    while the session is open. *)
Fixpoint accepted_count (game_state : GameState.t) (turns : list turn) : nat :=
  match turns with
  | [] => 0%nat
  | t :: turns =>
      ((if GameState.game_completed game_state then 0 else 1)
       + accepted_count (submit game_state t) turns)%nat
  end.

(** A submission that finds the scenario and the current round, and whose
    evaluation passes. *)
Definition passes (game_state : GameState.t) (t : turn) : bool :=
  match looked_up game_state t.1 with
  | Some scenario =>
      match Scenario.get_round_data scenario
              (GameState.current_round game_state) with
      | Some round_data =>
          MultiRoundEvaluationResult.passed
            (round_evaluation game_state t round_data)
      | None => false
      end
  | None => false
  end.

Fixpoint all_pass (game_state : GameState.t) (turns : list turn) : bool :=
  match turns with
  | [] => true
  | t :: turns => passes game_state t && all_pass (submit game_state t) turns
  end.

(** A [/game/start] request: the scenario name and the locale. *)
Definition start_request : Type := option string * string.

(** A sequence of [/game/start] calls on the session map. *)
Definition start_all (d : ScenarioDir) (game_sessions : Api.sessions)
    (requests : list start_request) : Api.sessions :=
  foldl (fun game_sessions request =>
           (Api.start_game d game_sessions request.1 request.2).2)
        game_sessions requests.

End playthrough_counts.

(** A round evaluation that passed is only left in the state by the last
    round: after any other pass the engine has moved to the next round and
    cleared it. *)
Definition no_pending_pass (game_state : GameState.t) : Prop :=
  ∀ e, GameState.multi_round_evaluation game_state = Some e →
       MultiRoundEvaluationResult.passed e = true →
       GameState.max_rounds game_state ≤ GameState.current_round game_state.

(** *** Calls on the session map *)

(** A [/game/respond] or a [/game/end] call. *)
Inductive call :=
| Respond (w : World) (session_id parent_response : string)
| End_game (session_id : string).

Definition addressed (c : call) : string :=
  match c with
  | Respond _ session_id _ => session_id
  | End_game session_id => session_id
  end.

Section calls.
Context {rt : Runtime}.

(** The session map after a call, whatever the call answered. *)
Definition after_call (game_sessions : Api.sessions) (c : call) : Api.sessions :=
  match c with
  | Respond w session_id parent_response =>
      (Api.submit_response w game_sessions session_id parent_response).2
  | End_game session_id => (Api.end_game game_sessions session_id).2
  end.

Definition after_calls (game_sessions : Api.sessions) (calls : list call)
  : Api.sessions :=
  foldl after_call game_sessions calls.

(** The submissions among the calls that are addressed to one session. *)
Definition turns_for (session_id : string) (calls : list call) : list turn :=
  omap (fun c =>
          match c with
          | Respond w id parent_response =>
              if decide (id = session_id) then Some (w, parent_response) else None
          | End_game _ => None
          end) calls.

End calls.

(* ===================================================================== *)
(** * Properties *)
(* ===================================================================== *)

(** ** Python strings *)

Lemma substring_whole (s : string) : String.substring 0 (String.length s) s = s.
Proof. induction s as [|c s IH]; simpl; [done | by rewrite IH]. Qed.

Lemma substring_app_l (a b : string) :
  String.substring 0 (String.length a) (a ++ b) = a.
Proof. induction a as [|c a IH]; simpl; [by destruct b | by rewrite IH]. Qed.

Lemma substring_app_r (a b : string) :
  String.substring (String.length a) (String.length b) (a ++ b) = b.
Proof. induction a as [|c a IH]; simpl; [apply substring_whole | done]. Qed.

Lemma string_length_app (a b : string) :
  String.length (a ++ b) = (String.length a + String.length b)%nat.
Proof. induction a as [|c a IH]; simpl; [done | by rewrite IH]. Qed.

Lemma endswith_app (a suffix : string) : PyStr.endswith (a ++ suffix) suffix = true.
Proof.
  unfold PyStr.endswith. rewrite string_length_app.
  replace (String.length a + String.length suffix - String.length suffix)%nat
    with (String.length a) by lia.
  rewrite substring_app_r, String.eqb_refl, andb_true_r.
  apply Nat.leb_le. lia.
Qed.

Lemma substring_split (n : nat) (s : string) :
  (n ≤ String.length s)%nat →
  s = String.substring 0 n s ++ String.substring n (String.length s - n) s.
Proof.
  revert n. induction s as [|c s IH]; intros n Hn; simpl in *.
  - by destruct n.
  - destruct n as [|n]; simpl.
    + by rewrite substring_whole.
    + change (String c s = String c (String.substring 0 n s
                                      ++ String.substring n (String.length s - n) s)).
      f_equal. apply IH. lia.
Qed.

Lemma endswith_split (s suffix : string) :
  PyStr.endswith s suffix = true → ∃ stem, s = stem ++ suffix.
Proof.
  unfold PyStr.endswith. intros [Hlen Heq]%andb_true_iff.
  apply Nat.leb_le in Hlen. apply String.eqb_eq in Heq.
  exists (String.substring 0 (String.length s - String.length suffix) s).
  pose proof (substring_split (String.length s - String.length suffix) s) as Hs.
  replace (String.length s - (String.length s - String.length suffix))%nat
    with (String.length suffix) in Hs by lia.
  rewrite Heq in Hs. apply Hs. lia.
Qed.

Lemma rfind_app (c : ascii) (s t : string) :
  PyStr.rfind c (s ++ t)
  = match PyStr.rfind c t with
    | Some i => Some (String.length s + i)%nat
    | None => PyStr.rfind c s
    end.
Proof.
  induction s as [|a s IH].
  - change (EmptyString ++ t) with t. by destruct (PyStr.rfind c t).
  - change (String a s ++ t) with (String a (s ++ t)).
    cbn [PyStr.rfind]. rewrite IH.
    by destruct (PyStr.rfind c t).
Qed.

Lemma all_dots_only (s : string) : PyStr.all_dots s = true ↔ only_dots s.
Proof.
  unfold only_dots. induction s as [|a s IH]; simpl.
  - split; [by intros _ c [] | done].
  - rewrite andb_true_iff, IH, Ascii.eqb_eq. split.
    + intros [-> Hs] c [<-|Hc]; [done | by apply Hs].
    + intros Hall. split; [apply Hall; by left | intros c Hc; apply Hall; by right].
Qed.

Lemma splitext_root_ext (stem ext : string) :
  ext ∈ [".yaml"; ".yml"] →
  PyStr.splitext_root (stem ++ ext)
  = if PyStr.all_dots stem then stem ++ ext else stem.
Proof.
  intros Hext. unfold PyStr.splitext_root. rewrite rfind_app.
  assert (Hdot : PyStr.rfind "." ext = Some 0%nat).
  { repeat (apply elem_of_cons in Hext as [->|Hext]; [done|]).
    by apply elem_of_nil in Hext. }
  rewrite Hdot, Nat.add_0_r, substring_app_l. done.
Qed.

(** ** The scenario store *)

(** The two string tests of the loop are the reading of an entry as a
    YAML file with a base name. *)
Lemma base_name_code (file name : string) :
  base_name file name
  ↔ ScenarioLoader.is_yaml file = true ∧ PyStr.splitext_root file = name.
Proof.
  unfold ScenarioLoader.is_yaml. split.
  - intros [stem ext Hext Hdots|stem ext Hext Hdots].
    + rewrite (splitext_root_ext _ _ Hext).
      assert (Hnot : PyStr.all_dots stem = false).
      { apply not_true_iff_false. by rewrite all_dots_only. }
      rewrite Hnot. split; [|done].
      repeat (apply elem_of_cons in Hext as [->|Hext];
              [by rewrite endswith_app, ?orb_true_r|]).
      by apply elem_of_nil in Hext.
    + rewrite (splitext_root_ext _ _ Hext).
      rewrite (proj2 (all_dots_only stem) Hdots).
      split; [|done].
      repeat (apply elem_of_cons in Hext as [->|Hext];
              [by rewrite endswith_app, ?orb_true_r|]).
      by apply elem_of_nil in Hext.
  - intros [Hyaml <-].
    assert (Hsplit : ∃ stem ext, ext ∈ [".yaml"; ".yml"] ∧ file = stem ++ ext).
    { apply orb_true_iff in Hyaml as [[stem ->]%endswith_split|[stem ->]%endswith_split].
      - exists stem, ".yaml". split; [apply list_elem_of_here | done].
      - exists stem, ".yml". split; [|done].
        apply list_elem_of_further, list_elem_of_here. }
    destruct Hsplit as (stem & ext & Hext & ->).
    rewrite (splitext_root_ext _ _ Hext).
    destruct (PyStr.all_dots stem) eqn:Hdots.
    + apply base_name_dots; [done | by apply all_dots_only].
    + apply base_name_stem; [done|]. rewrite <- all_dots_only. congruence.
Qed.

Lemma visible_names_cons (f : string) (files : list string) :
  visible_names (f :: files) =
    if ScenarioLoader.is_yaml f
         && negb (String.eqb (PyStr.splitext_root f) ScenarioLoader.hidden)
    then PyStr.splitext_root f :: visible_names files
    else visible_names files.
Proof.
  unfold visible_names. rewrite filter_cons.
  case_decide as Hy; rewrite ?Hy; simpl.
  - rewrite filter_cons. case_decide as Hn.
    + apply String.eqb_neq in Hn. by rewrite Hn.
    + apply String.eqb_eq in Hn. by rewrite Hn.
  - apply not_true_is_false in Hy. by rewrite Hy.
Qed.

Lemma foldl_collect (files : list string) (acc : list string) :
  foldl ScenarioLoader.collect acc files = (acc ++ visible_names files)%list.
Proof.
  revert acc. induction files as [|f files IH]; intros acc.
  - simpl. by rewrite app_nil_r.
  - simpl. rewrite IH, visible_names_cons. unfold ScenarioLoader.collect.
    destruct (ScenarioLoader.is_yaml f); simpl; [|done].
    destruct (negb _); [by rewrite <- app_assoc | done].
Qed.

Lemma hidden_not_visible (files : list string) :
  ScenarioLoader.hidden ∉ visible_names files.
Proof.
  unfold visible_names. rewrite list_elem_of_filter. by intros [? _].
Qed.

(** The loop lists what the reading of the entries asks for, and nothing
    else does. *)
Lemma listed_visible (files : list string) : listed files (visible_names files).
Proof.
  induction files as [|f files IH]; [constructor|].
  rewrite visible_names_cons.
  destruct (ScenarioLoader.is_yaml f) eqn:Hyaml; simpl.
  - destruct (String.eqb (PyStr.splitext_root f) ScenarioLoader.hidden) eqn:Hhid; simpl.
    + apply String.eqb_eq in Hhid. apply listed_skipped; [|done].
      intros name [_ <-]%base_name_code. exact Hhid.
    + apply String.eqb_neq in Hhid. apply listed_shown; [|done|done].
      by apply base_name_code.
  - apply listed_skipped; [|done].
    intros name [Hy _]%base_name_code. congruence.
Qed.

Lemma listed_unique (files names : list string) :
  listed files names → names = visible_names files.
Proof.
  induction 1 as [|file name files names Hbase Hshown _ IH
                  |file files names Hskip _ IH].
  - done.
  - rewrite visible_names_cons. apply base_name_code in Hbase as [-> <-].
    rewrite (proj2 (String.eqb_neq _ _)) by done. simpl. by rewrite IH.
  - rewrite visible_names_cons.
    destruct (ScenarioLoader.is_yaml file) eqn:Hyaml; simpl; [|done].
    rewrite (proj2 (String.eqb_eq _ _)); [done|].
    apply Hskip. by apply base_name_code.
Qed.

Lemma visible_names_elem (files : list string) (name : string) :
  name ∈ visible_names files
  ↔ name ≠ "school_dropoff_anxiety"
    ∧ ∃ file, file ∈ files ∧ base_name file name.
Proof.
  unfold visible_names. rewrite list_elem_of_filter, list_elem_of_fmap.
  split.
  - intros [Hne (file & -> & [Hy Hin]%list_elem_of_filter)].
    split; [done|]. exists file. split; [done|]. by apply base_name_code.
  - intros [Hne (file & Hin & [Hy <-]%base_name_code)].
    split; [done|]. exists file. split; [done|]. by apply list_elem_of_filter.
Qed.

(** C10.  Whatever the scenarios directory holds, [list_scenarios] returns
    the base names of its [.yaml] and [.yml] entries, one for each entry
    and ["school_dropoff_anxiety"] left out, in ascending order (the empty
    list when the directory is missing).  The hidden name is never listed,
    so the default scenario, loaded from the first listed name, is never
    loaded under the name ["school_dropoff_anxiety"], even when that file
    is present. *)
Theorem list_scenarios_hides_school_dropoff (d : ScenarioDir) :
  let names := ScenarioLoader.list_scenarios d in
  match listdir d with
  | Some files =>
      (∃ shown, listed files shown ∧ names ≡ₚ shown)
      ∧ (∀ shown, listed files shown → names ≡ₚ shown)
      ∧ (∀ name,
           name ∈ names
           ↔ name ≠ "school_dropoff_anxiety"
             ∧ ∃ file, file ∈ files ∧ base_name file name)
  | None => names = []
  end
  ∧ StronglySorted String.le names
  ∧ ("school_dropoff_anxiety" ∉ names)
  ∧ head names ≠ Some "school_dropoff_anxiety"
  ∧ ScenarioLoader.get_default_scenario d
    = match head names with
      | Some first => ScenarioLoader.load_scenario d first
      | None => None
      end.
Proof.
  intros names.
  assert (Hperm : names ≡ₚ match listdir d with
                           | Some files => visible_names files
                           | None => []
                           end).
  { subst names. unfold ScenarioLoader.list_scenarios.
    destruct (listdir d) as [files|]; [|done].
    unfold ScenarioLoader.sorted. rewrite merge_sort_Permutation.
    by rewrite foldl_collect. }
  assert (Hhid : "school_dropoff_anxiety" ∉ names).
  { rewrite Hperm. destruct (listdir d) as [files|].
    - apply hidden_not_visible.
    - apply not_elem_of_nil. }
  split_and!; try done.
  - destruct (listdir d) as [files|] eqn:Hdir.
    + split_and!.
      * exists (visible_names files). split; [apply listed_visible | done].
      * intros shown Hshown. by rewrite (listed_unique _ _ Hshown).
      * intros name. rewrite Hperm. apply visible_names_elem.
    + subst names. unfold ScenarioLoader.list_scenarios. by rewrite Hdir.
  - subst names. unfold ScenarioLoader.list_scenarios.
    destruct (listdir d) as [files|]; [|constructor].
    apply StronglySorted_merge_sort; apply _.
  - intros Hhead. apply Hhid. destruct names as [|n ns]; [done|].
    simpl in Hhead. injection Hhead as ->. apply list_elem_of_here.
  - unfold ScenarioLoader.get_default_scenario. fold names.
    by destruct names.
Qed.

Lemma list_scenarios_hides_school_dropoff_witness :
  ScenarioLoader.list_scenarios Sample.scenarios_dir = ["messy_kitchen"; "messy_room"]
  ∧ listed ["school_dropoff_anxiety.yaml"; "messy_room.yaml"; "messy_kitchen.yaml"]
      ["messy_room"; "messy_kitchen"]
  ∧ ("messy_room" ∈ ScenarioLoader.list_scenarios Sample.scenarios_dir)
  ∧ "school_dropoff_anxiety" ∉ ScenarioLoader.list_scenarios Sample.scenarios_dir.
Proof.
  pose proof (list_scenarios_hides_school_dropoff Sample.scenarios_dir) as Hlist.
  cbv zeta in Hlist.
  change (listdir Sample.scenarios_dir)
    with (Some ["school_dropoff_anxiety.yaml"; "messy_room.yaml"; "messy_kitchen.yaml"])
    in Hlist.
  destruct Hlist as ((_ & _ & Hmem) & _ & Hhidden & _).
  assert (Hstem : ∀ stem, stem ≠ EmptyString → String.get 0 stem ≠ Some "."%char →
                          ¬ only_dots stem).
  { intros [|c stem] Hne Hfirst Hdots; [done|].
    simpl in Hfirst. apply Hfirst. f_equal. apply Hdots. by left. }
  assert (Hroom : base_name "messy_room.yaml" "messy_room").
  { apply (base_name_stem "messy_room" ".yaml"); [apply list_elem_of_here|].
    by apply Hstem. }
  assert (Hkitchen : base_name "messy_kitchen.yaml" "messy_kitchen").
  { apply (base_name_stem "messy_kitchen" ".yaml"); [apply list_elem_of_here|].
    by apply Hstem. }
  split_and!.
  - vm_compute. reflexivity.
  - apply listed_skipped.
    { intros name [_ <-]%base_name_code. vm_compute. reflexivity. }
    apply listed_shown; [done | done |].
    apply listed_shown; [done | done |]. constructor.
  - apply Hmem. split; [done|]. exists "messy_room.yaml". split; [|done].
    apply list_elem_of_further, list_elem_of_here.
  - exact Hhidden.
Defined.

(** ** Float division *)


(** ** Rounding to the nearest integer *)

Lemma div_rne_cases (N D : Z) :
  0 < D →
  let m := PyFloat.div_rne N D in
  (m = N / D ∧ 2 * (N mod D) ≤ D) ∨ (m = N / D + 1 ∧ D ≤ 2 * (N mod D)).
Proof.
  intros HD. cbv zeta. unfold PyFloat.div_rne.
  destruct (Z.compare_spec (2 * (N mod D)) D) as [Heq|Hlt|Hgt].
  - destruct (Z.even (N / D)); [left|right]; lia.
  - left. lia.
  - right. lia.
Qed.

(** The result is within one half of the quotient. *)
Lemma div_rne_near (N D : Z) :
  0 < D → 2 * Z.abs (PyFloat.div_rne N D * D - N) ≤ D.
Proof.
  intros HD. pose proof (Z.div_mod N D ltac:(lia)) as Hdm.
  pose proof (Z.mod_pos_bound N D HD) as Hr.
  destruct (div_rne_cases N D HD) as [[-> Hc]|[-> Hc]]; nia.
Qed.

(** It does not cross an integer. *)
Lemma div_rne_ge (N D j : Z) : 0 < D → j * D ≤ N → j ≤ PyFloat.div_rne N D.
Proof.
  intros HD Hj. pose proof (Z.div_mod N D ltac:(lia)) as Hdm.
  pose proof (Z.mod_pos_bound N D HD) as Hr.
  assert (j ≤ N / D) by (apply Z.div_le_lower_bound; lia).
  destruct (div_rne_cases N D HD) as [[-> Hc]|[-> Hc]]; lia.
Qed.

Lemma div_rne_le (N D j : Z) : 0 < D → N ≤ j * D → PyFloat.div_rne N D ≤ j.
Proof.
  intros HD Hj. pose proof (Z.div_mod N D ltac:(lia)) as Hdm.
  pose proof (Z.mod_pos_bound N D HD) as Hr.
  destruct (div_rne_cases N D HD) as [[-> Hc]|[-> Hc]]; [nia|].
  destruct (Z.eq_dec (N / D) j) as [Heq|Hne]; [|nia].
  subst j. nia.
Qed.

Lemma div_rne_exact (j D : Z) : 0 < D → PyFloat.div_rne (j * D) D = j.
Proof.
  intros HD. apply Z.le_antisymm.
  - apply div_rne_le; lia.
  - apply div_rne_ge; lia.
Qed.

(** ** The binary exponent *)

Lemma ge_pow2_shift (n d e s : Z) :
  0 ≤ s → 0 ≤ e + s →
  PyFloat.ge_pow2 n d e = true ↔ d * 2 ^ (e + s) ≤ n * 2 ^ s.
Proof.
  intros Hs Hes. unfold PyFloat.ge_pow2.
  assert (Hp : 0 < 2 ^ s) by (apply Z.pow_pos_nonneg; lia).
  destruct (Z.leb_spec 0 e) as [He|He]; rewrite Z.leb_le.
  - rewrite Z.pow_add_r by lia. nia.
  - assert (Hq : 0 < 2 ^ (e + s)) by (apply Z.pow_pos_nonneg; lia).
    replace s with (- e + (e + s)) at 2 by lia.
    rewrite (Z.pow_add_r 2 (- e)) by lia. nia.
Qed.

Lemma ilog2_lower (n d : Z) :
  0 < n → 0 < d → PyFloat.ge_pow2 n d (PyFloat.ilog2 n d) = true.
Proof.
  intros Hn Hd. unfold PyFloat.ilog2.
  destruct (PyFloat.ge_pow2 n d (Z.log2 n - Z.log2 d)) eqn:Hge; [done|].
  pose proof (Z.log2_spec n Hn) as [Hn1 Hn2].
  pose proof (Z.log2_spec d Hd) as [Hd1 Hd2].
  pose proof (Z.log2_nonneg n). pose proof (Z.log2_nonneg d).
  apply (ge_pow2_shift n d _ (Z.log2 d + 1)); [lia | lia |].
  replace (Z.log2 n - Z.log2 d - 1 + (Z.log2 d + 1)) with (Z.log2 n) by lia.
  replace (Z.log2 d + 1) with (Z.succ (Z.log2 d)) by lia.
  assert (0 < 2 ^ Z.log2 n) by (apply Z.pow_pos_nonneg; lia).
  nia.
Qed.

Lemma ilog2_upper (n d : Z) :
  0 < n → 0 < d → PyFloat.ge_pow2 n d (PyFloat.ilog2 n d + 1) = false.
Proof.
  intros Hn Hd. unfold PyFloat.ilog2.
  pose proof (Z.log2_spec n Hn) as [Hn1 Hn2].
  pose proof (Z.log2_spec d Hd) as [Hd1 Hd2].
  pose proof (Z.log2_nonneg n). pose proof (Z.log2_nonneg d).
  apply not_true_is_false.
  destruct (PyFloat.ge_pow2 n d (Z.log2 n - Z.log2 d)) eqn:Hge.
  - rewrite (ge_pow2_shift n d _ (Z.log2 d)) by lia.
    replace (Z.log2 n - Z.log2 d + 1 + Z.log2 d) with (Z.succ (Z.log2 n)) by lia.
    assert (0 < 2 ^ Z.log2 d) by (apply Z.pow_pos_nonneg; lia). nia.
  - replace (Z.log2 n - Z.log2 d - 1 + 1) with (Z.log2 n - Z.log2 d) by lia.
    by rewrite Hge.
Qed.

Lemma ge_pow2_mono (n d e e' : Z) :
  0 < n → 0 < d → e' ≤ e →
  PyFloat.ge_pow2 n d e = true → PyFloat.ge_pow2 n d e' = true.
Proof.
  intros Hn Hd Hle.
  set (s := Z.max 0 (- e')).
  rewrite (ge_pow2_shift n d e s), (ge_pow2_shift n d e' s) by lia.
  intros Hge.
  assert (2 ^ (e' + s) ≤ 2 ^ (e + s)) by (apply Z.pow_le_mono_r; lia).
  assert (0 < 2 ^ (e' + s)) by (apply Z.pow_pos_nonneg; lia).
  nia.
Qed.


(** ** The value of a double *)

Lemma inject_Z_nonzero (z : Z) : z ≠ 0 → ¬ (inject_Z z == 0)%Q.
Proof.
  intros Hz H0. change 0%Q with (inject_Z 0) in H0.
  apply (proj1 (inject_Z_injective z 0)) in H0. lia.
Qed.

Lemma pow2_pos (k : Z) : (0 < PyFloat.pow2 k)%Q.
Proof.
  unfold PyFloat.pow2. destruct (Z.leb_spec 0 k).
  - rewrite <- (Zlt_Qlt 0). apply Z.pow_pos_nonneg; lia.
  - apply Qinv_lt_0_compat. rewrite <- (Zlt_Qlt 0). apply Z.pow_pos_nonneg; lia.
Qed.

Lemma scale_value (m k : Z) : (PyFloat.scale m k == inject_Z m * PyFloat.pow2 k)%Q.
Proof. apply Qred_correct. Qed.

Lemma scale_integer (z k : Z) :
  k ≤ 0 → PyFloat.scale (z * 2 ^ (- k)) k = inject_Z z.
Proof.
  intros Hk. unfold PyFloat.scale.
  assert (Hp : 0 < 2 ^ (- k)) by (apply Z.pow_pos_nonneg; lia).
  assert (Heq : (inject_Z (z * 2 ^ (- k)) * PyFloat.pow2 k == inject_Z z)%Q).
  { unfold PyFloat.pow2. destruct (Z.leb_spec 0 k).
    - assert (k = 0) as -> by lia.
      change (2 ^ (- 0)) with 1. change (2 ^ 0) with 1. rewrite Z.mul_1_r.
      change (inject_Z 1) with 1%Q. ring.
    - rewrite inject_Z_mult. field. apply inject_Z_nonzero. lia. }
  rewrite (Qred_complete _ _ Heq). unfold inject_Z, Qred. simpl.
  pose proof (Z.ggcd_gcd z 1) as Hg. pose proof (Z.ggcd_correct_divisors z 1) as Hd.
  destruct (Z.ggcd z 1) as [g [zz dd]]. simpl in *.
  rewrite Z.gcd_1_r in Hg. subst g. destruct Hd as [Hz Hone].
  f_equal; [lia|]. by replace dd with 1 by lia.
Qed.

Section quotient.
Variables a b : Z.
Hypothesis Hb : 0 < b.
Hypothesis Ha : a ≠ 0.

Let e := PyFloat.ilog2 (Z.abs a) b.
Let k := Z.max (e - 52) (-1074).
Let N := a * (if 0 <=? k then 1 else 2 ^ (- k)).
Let D := b * (if 0 <=? k then 2 ^ k else 1).
Let m := PyFloat.div_rne N D.

Lemma truediv_unfold :
  PyFloat.truediv a b
  = if (0 <=? k) && (2 ^ 1024 <=? Z.abs m * 2 ^ k)
    then inl OverflowError else inr (PyFloat.scale m k).
Proof.
  unfold PyFloat.truediv.
  rewrite (proj2 (Z.eqb_neq b 0)) by lia. rewrite (proj2 (Z.eqb_neq a 0)) by lia.
  rewrite (Z.abs_eq b) by lia. rewrite (Z.sgn_pos b) by lia.
  rewrite Z.mul_1_l. reflexivity.
Qed.

Lemma quotient_D_pos : 0 < D.
Proof.
  unfold D. destruct (0 <=? k) eqn:Hk; [|lia].
  apply Z.leb_le in Hk. assert (0 < 2 ^ k) by (apply Z.pow_pos_nonneg; lia). nia.
Qed.

(** [2 ^ e <= |a| / b] *)
Lemma quotient_lower : PyFloat.ge_pow2 (Z.abs a) b e = true.
Proof. apply ilog2_lower; lia. Qed.

Lemma quotient_upper : PyFloat.ge_pow2 (Z.abs a) b (e + 1) = false.
Proof. apply ilog2_upper; lia. Qed.

(** [N / D] is [a / b] counted in units of [2 ^ k]. *)
Lemma quotient_ratio :
  (inject_Z N * PyFloat.pow2 k * inject_Z b == inject_Z a * inject_Z D)%Q.
Proof.
  unfold N, D, PyFloat.pow2. destruct (Z.leb_spec 0 k) as [Hk|Hk].
  - rewrite !inject_Z_mult. ring.
  - rewrite !inject_Z_mult. field. apply inject_Z_nonzero.
    assert (0 < 2 ^ (- k)) by (apply Z.pow_pos_nonneg; lia). lia.
Qed.

(** The double is within half a unit of the quotient. *)
Lemma quotient_near :
  (Qabs (inject_Z m * PyFloat.pow2 k - inject_Z a / inject_Z b)
   <= PyFloat.pow2 k / 2)%Q.
Proof.
  pose proof quotient_D_pos as HD. pose proof (div_rne_near N D HD) as Hnear.
  fold m in Hnear. pose proof quotient_ratio as Hratio.
  pose proof (pow2_pos k) as Hu.
  assert (HB : (0 < inject_Z b)%Q) by (rewrite <- (Zlt_Qlt 0); lia).
  assert (HDq : (0 < inject_Z D)%Q) by (rewrite <- (Zlt_Qlt 0); lia).
  assert (Hlo : (- inject_Z D <= 2 * (inject_Z m * inject_Z D - inject_Z N))%Q).
  { rewrite <- inject_Z_mult, <- inject_Z_opp.
    change 2%Q with (inject_Z 2).
    unfold Qminus. rewrite <- inject_Z_opp, <- inject_Z_plus, <- inject_Z_mult.
    rewrite <- Zle_Qle. lia. }
  assert (Hhi : (2 * (inject_Z m * inject_Z D - inject_Z N) <= inject_Z D)%Q).
  { rewrite <- inject_Z_mult. change 2%Q with (inject_Z 2).
    unfold Qminus. rewrite <- inject_Z_opp, <- inject_Z_plus, <- inject_Z_mult.
    rewrite <- Zle_Qle. lia. }
  set (q := (inject_Z a / inject_Z b)%Q).
  assert (Hq : (q * inject_Z b == inject_Z a)%Q).
  { unfold q. field. intros H0. rewrite H0 in HB. by apply Qlt_irrefl in HB. }
  set (U := PyFloat.pow2 k) in *. set (Mq := inject_Z m) in *.
  set (Dq := inject_Z D) in *. set (Nq := inject_Z N) in *.
  set (Bq := inject_Z b) in *. set (Aq := inject_Z a) in *.
  apply Qabs_Qle_condition.
  assert (HP : (0 < Bq * Dq)%Q) by nra.
  assert (Hkey : ((Mq * U - q) * (Bq * Dq) == U * Bq * (Mq * Dq - Nq))%Q).
  { transitivity (Mq * U * Bq * Dq - (q * Bq) * Dq)%Q; [ring|].
    rewrite Hq, <- Hratio. ring. }
  assert (HW : (0 < U * Bq)%Q) by nra.
  pose proof (proj2 (Qmult_le_l _ _ (U * Bq) HW) Hlo) as Hlo'.
  pose proof (proj2 (Qmult_le_l _ _ (U * Bq) HW) Hhi) as Hhi'.
  split.
  - apply (Qmult_le_r _ _ (Bq * Dq) HP). apply (Qmult_le_l _ _ 2); [reflexivity|].
    rewrite Hkey.
    assert ((2 * (- (U / 2) * (Bq * Dq)))%Q == (U * Bq * - Dq)%Q)%Q as -> by field.
    assert ((2 * (U * Bq * (Mq * Dq - Nq)))%Q == (U * Bq * (2 * (Mq * Dq - Nq)))%Q)%Q as -> by ring.
    exact Hlo'.
  - apply (Qmult_le_r _ _ (Bq * Dq) HP). apply (Qmult_le_l _ _ 2); [reflexivity|].
    rewrite Hkey.
    assert ((2 * (U / 2 * (Bq * Dq)))%Q == (U * Bq * Dq)%Q)%Q as -> by field.
    assert ((2 * (U * Bq * (Mq * Dq - Nq)))%Q == (U * Bq * (2 * (Mq * Dq - Nq)))%Q)%Q as -> by ring.
    exact Hhi'.
Qed.

End quotient.


Lemma ge_pow2_above (n d e : Z) :
  0 < n → 0 < d → n < d * 2 ^ e → 0 ≤ e → PyFloat.ilog2 n d < e.
Proof.
  intros Hn Hd Hlt He.
  destruct (Z.lt_ge_cases (PyFloat.ilog2 n d) e) as [|Hge]; [done|].
  pose proof (ge_pow2_mono n d _ e Hn Hd Hge (ilog2_lower n d Hn Hd)) as Hc.
  unfold PyFloat.ge_pow2 in Hc. rewrite (proj2 (Z.leb_le 0 e)) in Hc by done.
  apply Z.leb_le in Hc. lia.
Qed.

Lemma ge_pow2_below (n d e : Z) :
  0 < n → 0 < d → PyFloat.ge_pow2 n d e = true → e ≤ PyFloat.ilog2 n d.
Proof.
  intros Hn Hd Hge.
  destruct (Z.le_gt_cases e (PyFloat.ilog2 n d)) as [|Hlt]; [done|].
  assert (Hle : PyFloat.ilog2 n d + 1 ≤ e) by lia.
  pose proof (ge_pow2_mono n d e _ Hn Hd Hle Hge) as Hc.
  by rewrite ilog2_upper in Hc.
Qed.

(** A quotient that is an integer below [2 ^ 53] is kept as it is. *)
Lemma truediv_exact (z b : Z) :
  0 < b → Z.abs z < 2 ^ 53 → PyFloat.truediv (z * b) b = inr (inject_Z z).
Proof.
  intros Hb Hz. destruct (Z.eq_dec z 0) as [->|Hnz].
  { unfold PyFloat.truediv. rewrite (proj2 (Z.eqb_neq b 0)) by lia. done. }
  assert (Ha : z * b ≠ 0) by nia.
  rewrite (truediv_unfold (z * b) b Hb Ha). cbv zeta.
  assert (He : PyFloat.ilog2 (Z.abs (z * b)) b < 53).
  { apply ge_pow2_above; [nia | lia | | lia]. rewrite Z.abs_mul, (Z.abs_eq b) by lia. nia. }
  set (k := Z.max (PyFloat.ilog2 (Z.abs (z * b)) b - 52) (-1074)) in *.
  assert (Hk : k ≤ 0) by lia.
  assert (Hp : 0 < 2 ^ (- k)) by (apply Z.pow_pos_nonneg; lia).
  assert (Hm : PyFloat.div_rne
                 (z * b * (if 0 <=? k then 1 else 2 ^ (- k)))
                 (b * (if 0 <=? k then 2 ^ k else 1))
               = z * 2 ^ (- k)).
  { destruct (Z.leb_spec 0 k).
    - assert (k = 0) as -> by lia. change (2 ^ 0) with 1. change (2 ^ (- 0)) with 1.
      rewrite !Z.mul_1_r. apply div_rne_exact. lia.
    - rewrite Z.mul_1_r. replace (z * b * 2 ^ (- k)) with (z * 2 ^ (- k) * b) by ring.
      apply div_rne_exact. lia. }
  rewrite Hm, scale_integer by done.
  destruct (Z.leb_spec 0 k); [|done].
  assert (k = 0) as -> by lia. change (2 ^ (- 0)) with 1. change (2 ^ 0) with 1.
  rewrite !Z.mul_1_r. rewrite (proj2 (Z.leb_gt _ _)); [done|].
  assert (2 ^ 53 < 2 ^ 1024) by (apply Z.pow_lt_mono_r; lia). lia.
Qed.

(** The quotient overflows only beyond [2 ^ 1023]. *)
Lemma truediv_returns (a b : Z) :
  0 < b → Z.abs a ≤ 2 ^ 1023 * b → ∃ x, PyFloat.truediv a b = inr x.
Proof.
  intros Hb Hsmall. destruct (Z.eq_dec a 0) as [->|Ha].
  { unfold PyFloat.truediv. rewrite (proj2 (Z.eqb_neq b 0)) by lia. by exists 0%Q. }
  rewrite (truediv_unfold a b Hb Ha). cbv zeta.
  assert (He : PyFloat.ilog2 (Z.abs a) b < 1024).
  { apply ge_pow2_above; [lia | lia | | lia].
    replace 1024 with (Z.succ 1023) by lia. rewrite Z.pow_succ_r by lia. lia. }
  set (e := PyFloat.ilog2 (Z.abs a) b) in *.
  set (k := Z.max (e - 52) (-1074)).
  destruct (Z.leb_spec 0 k) as [Hk|Hk]; [|by eexists].
  assert (Hke : k = e - 52) by lia.
  rewrite !Z.mul_1_r.
  set (m := PyFloat.div_rne a (b * 2 ^ k)).
  assert (Hpk : 0 < 2 ^ k) by (apply Z.pow_pos_nonneg; lia).
  assert (HD : 0 < b * 2 ^ k) by nia.
  assert (Hsplit : 2 ^ 1023 = 2 ^ (1023 - k) * 2 ^ k).
  { rewrite <- Z.pow_add_r by lia. f_equal. lia. }
  assert (Hhi : m ≤ 2 ^ (1023 - k)).
  { apply div_rne_le; [done|]. nia. }
  assert (Hlo : - 2 ^ (1023 - k) ≤ m).
  { apply div_rne_ge; [done|]. nia. }
  assert (Hj : 0 < 2 ^ (1023 - k)) by (apply Z.pow_pos_nonneg; lia).
  assert (Hbound : Z.abs m * 2 ^ k ≤ 2 ^ 1023) by nia.
  assert (2 ^ 1023 < 2 ^ 1024) by (apply Z.pow_lt_mono_r; lia).
  rewrite (proj2 (Z.leb_gt _ _)) by lia. by eexists.
Qed.

Lemma truediv_raises (a b : Z) (e : exn) :
  0 < b → PyFloat.truediv a b = inl e →
  e = OverflowError ∧ 2 ^ 1023 * b < Z.abs a.
Proof.
  intros Hb Hraise. split.
  - unfold PyFloat.truediv in Hraise.
    rewrite (proj2 (Z.eqb_neq b 0)) in Hraise by lia.
    destruct (a =? 0); [done|].
    destruct (_ && _) in Hraise; [|done]. by injection Hraise as <-.
  - destruct (Z.lt_ge_cases (2 ^ 1023 * b) (Z.abs a)) as [|Hsmall]; [done|].
    destruct (truediv_returns a b Hb) as [x Hx]; [lia|]. congruence.
Qed.


Lemma pow2_shift (k j : Z) :
  0 ≤ j → (PyFloat.pow2 (k + j) == PyFloat.pow2 k * inject_Z (2 ^ j))%Q.
Proof.
  intros Hj. unfold PyFloat.pow2.
  destruct (Z.leb_spec 0 k) as [Hk|Hk].
  - rewrite (proj2 (Z.leb_le 0 (k + j))) by lia.
    rewrite Z.pow_add_r by done. by rewrite inject_Z_mult.
  - assert (Hpk : 0 < 2 ^ (- k)) by (apply Z.pow_pos_nonneg; lia).
    destruct (Z.leb_spec 0 (k + j)) as [Hkj|Hkj].
    + assert (Hsplit : 2 ^ j = 2 ^ (- k) * 2 ^ (k + j)).
      { rewrite <- Z.pow_add_r by lia. f_equal. lia. }
      rewrite Hsplit, inject_Z_mult. field.
      apply inject_Z_nonzero. lia.
    + assert (Hsplit : 2 ^ (- k) = 2 ^ (- (k + j)) * 2 ^ j).
      { rewrite <- Z.pow_add_r by lia. f_equal. lia. }
      assert (0 < 2 ^ (- (k + j))) by (apply Z.pow_pos_nonneg; lia).
      assert (0 < 2 ^ j) by (apply Z.pow_pos_nonneg; lia).
      rewrite Hsplit, inject_Z_mult.
      field. split; apply inject_Z_nonzero; lia.
Qed.

Lemma ge_pow2_value (n d e : Z) :
  0 < d → PyFloat.ge_pow2 n d e = true →
  (PyFloat.pow2 e * inject_Z d <= inject_Z n)%Q.
Proof.
  intros Hd. unfold PyFloat.ge_pow2, PyFloat.pow2.
  destruct (Z.leb_spec 0 e) as [He|He]; rewrite Z.leb_le; intros Hge.
  - rewrite <- inject_Z_mult, <- Zle_Qle. lia.
  - assert (Hp : 0 < 2 ^ (- e)) by (apply Z.pow_pos_nonneg; lia).
    assert (HP : (0 < inject_Z (2 ^ (- e)))%Q) by (rewrite <- (Zlt_Qlt 0); lia).
    apply (Qmult_le_l _ _ _ HP).
    assert (inject_Z (2 ^ (- e)) * (/ inject_Z (2 ^ (- e)) * inject_Z d)
            == inject_Z d)%Q as ->.
    { field. apply inject_Z_nonzero. lia. }
    rewrite <- inject_Z_mult, <- Zle_Qle. lia.
Qed.

(** The double is within [2 ^ -53] of the quotient, relative to its size. *)
Lemma truediv_close (a b : Z) (x : Q) :
  0 < b → b < 2 ^ 1022 →
  PyFloat.truediv a b = inr x →
  (Qabs (x - inject_Z a / inject_Z b) * inject_Z (2 ^ 53)
   <= Qabs (inject_Z a / inject_Z b))%Q.
Proof.
  intros Hb Hcount Hx. destruct (Z.eq_dec a 0) as [->|Ha].
  { unfold PyFloat.truediv in Hx. rewrite (proj2 (Z.eqb_neq b 0)) in Hx by lia.
    injection Hx as <-. simpl.
    assert (0 - 0 / inject_Z b == 0)%Q as -> by (unfold Qdiv; ring).
    assert (0 / inject_Z b == 0)%Q as -> by (unfold Qdiv; ring).
    simpl. lra. }
  rewrite (truediv_unfold a b Hb Ha) in Hx. cbv zeta in Hx.
  pose proof (quotient_near a b Hb Ha) as Hnear. cbv zeta in Hnear.
  pose proof (quotient_lower a b Hb Ha) as Hlow. cbv zeta in Hlow.
  set (e := PyFloat.ilog2 (Z.abs a) b) in *.
  set (k := Z.max (e - 52) (-1074)) in *.
  match type of Hx with (if ?c then _ else _) = _ => destruct c end; [done|].
  injection Hx as <-.
  rewrite scale_value. 
  assert (He : -1022 ≤ e).
  { apply ge_pow2_below; [lia | lia |].
    unfold PyFloat.ge_pow2. simpl. apply Z.leb_le.
    change (Z.pow_pos 2 1022) with (2 ^ 1022). nia. }
  assert (Hk : e = k + 52) by lia.
  apply ge_pow2_value in Hlow; [|lia].
  rewrite Hk, pow2_shift in Hlow by lia.
  pose proof (pow2_pos k) as Hu.
  assert (HB : (0 < inject_Z b)%Q) by (rewrite <- (Zlt_Qlt 0); lia).
  set (U := PyFloat.pow2 k) in *.
  assert (Habs : (inject_Z (Z.abs a) / inject_Z b
                  == Qabs (inject_Z a / inject_Z b))%Q).
  { unfold Qdiv. rewrite Qabs_Qmult, Qabs_Qinv.
    rewrite (Qabs_pos (inject_Z b)) by (by apply Qlt_le_weak).
    apply Qmult_comp; [|reflexivity].
    unfold inject_Z. symmetry. apply Zabs_Qabs. }
  rewrite <- Habs.
  apply Qle_shift_div_l; [done|].
  change (2 ^ 53) with (2 ^ 52 * 2). rewrite inject_Z_mult.
  change (inject_Z 2) with 2%Q.
  set (err := Qabs _) in *.
  assert (Hhalf : (err * 2 <= U)%Q).
  { apply (Qmult_le_r _ _ (/ 2)); [reflexivity|].
    assert (err * 2 * / 2 == err)%Q as -> by field. exact Hnear. }
  assert (Herr : (0 <= err)%Q) by apply Qabs_nonneg.
  assert (H52 : (0 < inject_Z (2 ^ 52))%Q) by (rewrite <- (Zlt_Qlt 0); lia).
  apply (Qle_trans _ (U * inject_Z (2 ^ 52) * inject_Z b)); [|exact Hlow].
  assert (err * (inject_Z (2 ^ 52) * 2) * inject_Z b
          == (err * 2) * (inject_Z (2 ^ 52) * inject_Z b))%Q as -> by ring.
  assert (U * inject_Z (2 ^ 52) * inject_Z b
          == U * (inject_Z (2 ^ 52) * inject_Z b))%Q as -> by ring.
  apply Qmult_le_r; [|done].
  apply Qmult_lt_0_compat; [done|done].
Qed.


Lemma scale_ge (m k j : Z) :
  (inject_Z j <= PyFloat.scale m k)%Q
  ↔ if 0 <=? k then j ≤ m * 2 ^ k else j * 2 ^ (- k) ≤ m.
Proof.
  rewrite scale_value. unfold PyFloat.pow2.
  destruct (Z.leb_spec 0 k) as [Hk|Hk].
  - by rewrite <- inject_Z_mult, <- Zle_Qle.
  - assert (Hp : 0 < 2 ^ (- k)) by (apply Z.pow_pos_nonneg; lia).
    assert (HP : (0 < inject_Z (2 ^ (- k)))%Q) by (rewrite <- (Zlt_Qlt 0); lia).
    rewrite <- (Qmult_le_r _ _ _ HP).
    assert (inject_Z m * / inject_Z (2 ^ (- k)) * inject_Z (2 ^ (- k))
            == inject_Z m)%Q as ->.
    { field. apply inject_Z_nonzero. lia. }
    by rewrite <- inject_Z_mult, <- Zle_Qle.
Qed.

(** Comparing the double with 9 is comparing the quotient with 9, for a
    divisor below [2 ^ 50]. *)
Lemma truediv_ge_9 (a b : Z) (x : Q) :
  0 < b → PyFloat.truediv a b = inr x →
  (9 * b ≤ a → Qle_bool 9 x = true)
  ∧ (b < 2 ^ 50 → Qle_bool 9 x = true → 9 * b ≤ a).
Proof.
  intros Hb Hx. rewrite Qle_bool_iff. change 9%Q with (inject_Z 9).
  destruct (Z.eq_dec a 0) as [->|Ha].
  { unfold PyFloat.truediv in Hx. rewrite (proj2 (Z.eqb_neq b 0)) in Hx by lia.
    injection Hx as <-. split; [lia|]. intros _ Hc.
    change 0%Q with (inject_Z 0) in Hc. rewrite <- Zle_Qle in Hc. lia. }
  rewrite (truediv_unfold a b Hb Ha) in Hx. cbv zeta in Hx.
  pose proof (quotient_lower a b Hb Ha) as Hlow. cbv zeta in Hlow.
  pose proof (quotient_D_pos a b Hb Ha) as HD. cbv zeta in HD.
  set (e := PyFloat.ilog2 (Z.abs a) b) in *.
  set (k := Z.max (e - 52) (-1074)) in *.
  match type of Hx with (if ?c then _ else _) = _ => destruct c end; [done|].
  injection Hx as <-. rewrite scale_ge.
  set (N := a * (if 0 <=? k then 1 else 2 ^ (- k))) in *.
  set (D := b * (if 0 <=? k then 2 ^ k else 1)) in *.
  split.
  - intros Hnine.
    assert (He : 3 ≤ e).
    { apply ge_pow2_below; [lia | lia |]. unfold PyFloat.ge_pow2. simpl.
      apply Z.leb_le. lia. }
    destruct (Z.leb_spec 0 k) as [Hk|Hk].
    + assert (Hpk : 0 < 2 ^ k) by (apply Z.pow_pos_nonneg; lia).
      destruct (Z.eq_dec k 0) as [Hk0|Hk0].
      * assert (9 ≤ PyFloat.div_rne N D); [|rewrite Hk0; change (2 ^ 0) with 1; lia].
        apply div_rne_ge; [done|]. subst N D. rewrite Hk0. change (2 ^ 0) with 1. lia.
      * assert (Hke : e = 52 + k) by lia.
        assert (2 ^ 52 ≤ PyFloat.div_rne N D); [|nia].
        apply div_rne_ge; [done|]. subst N D.
        unfold PyFloat.ge_pow2 in Hlow.
        rewrite (proj2 (Z.leb_le 0 e)) in Hlow by lia. apply Z.leb_le in Hlow.
        rewrite Hke, Z.pow_add_r in Hlow by lia. lia.
    + assert (Hp : 0 < 2 ^ (- k)) by (apply Z.pow_pos_nonneg; lia).
      apply div_rne_ge; [done|]. subst N D. nia.
  - intros Hcount Hnine.
    destruct (Z.le_gt_cases (9 * b) a) as [|Hlt]; [done|]. exfalso.
    destruct (Z.lt_ge_cases a 0) as [Hneg|Hpos].
    { assert (Hm : PyFloat.div_rne N D ≤ 0).
      { apply div_rne_le; [done|]. subst N D.
        destruct (Z.leb_spec 0 k); [lia|].
        assert (0 < 2 ^ (- k)) by (apply Z.pow_pos_nonneg; lia). nia. }
      destruct (Z.leb_spec 0 k) as [Hk|Hk].
      - assert (0 < 2 ^ k) by (apply Z.pow_pos_nonneg; lia). nia.
      - assert (0 < 2 ^ (- k)) by (apply Z.pow_pos_nonneg; lia). nia. }
    assert (He : e < 4).
    { apply ge_pow2_above; [lia | lia | | lia]. change (2 ^ 4) with 16. lia. }
    assert (Hk : k ≤ -49) by lia.
    rewrite (proj2 (Z.leb_gt 0 k)) in Hnine by lia.
    subst N D. rewrite (proj2 (Z.leb_gt 0 k)) in * by lia.
    rewrite Z.mul_1_r in *.
    pose proof (div_rne_near (a * 2 ^ (- k)) b Hb) as Hnear.
    set (m := PyFloat.div_rne (a * 2 ^ (- k)) b) in *.
    assert (Hbig : 2 ^ 49 ≤ 2 ^ (- k)) by (apply Z.pow_le_mono_r; lia).
    change (2 ^ 50) with (2 * 2 ^ 49) in Hcount.
    set (P := 2 ^ (- k)) in *. nia.
Qed.

(** ** The evaluation agent *)



Lemma sum_foldl_add (l : list Z) (acc : Z) :
  foldl Z.add acc l = acc + foldr Z.add 0 l.
Proof.
  revert acc. induction l as [|x l IH]; intros acc; simpl; [lia|].
  rewrite IH. lia.
Qed.

Lemma sum_cons (x : Z) (l : list Z) : Py.sum (x :: l) = x + Py.sum l.
Proof. unfold Py.sum. simpl. rewrite !sum_foldl_add. lia. Qed.

Lemma sum_app (l1 l2 : list Z) : Py.sum (l1 ++ l2) = Py.sum l1 + Py.sum l2.
Proof.
  induction l1 as [|x l1 IH]; simpl; [done|]. rewrite !sum_cons, IH. lia.
Qed.



Section evaluator_facts.
Context {rt : Runtime}.




End evaluator_facts.



(** *** The fallback results *)

Lemma foldl_insert_lookup {V : Type} (keys : list string) (v : V)
    (d : gmap string V) (k : string) :
  foldl (fun d k => <[k := v]> d) d keys !! k
  = if decide (k ∈ keys) then Some v else d !! k.
Proof.
  revert d. induction keys as [|k' keys IH]; intros d; cbn [foldl].
  - destruct (decide (k ∈ [])) as [Hin|Hnin]; [by apply elem_of_nil in Hin | done].
  - rewrite IH. destruct (decide (k ∈ keys)) as [Hin|Hnin].
    + by rewrite decide_True by (by right).
    + rewrite lookup_insert. destruct (decide (k' = k)) as [->|Hne].
      * by rewrite decide_True by (by left).
      * rewrite decide_False; [done|].
        intros [->|?]%elem_of_cons; done.
Qed.

Lemma dict_of_keys_lookup {V : Type} (keys : list string) (v : V) (k : string) :
  Py.dict_of_keys keys v !! k = if decide (k ∈ keys) then Some v else None.
Proof. unfold Py.dict_of_keys. by rewrite foldl_insert_lookup, lookup_empty. Qed.

Lemma dict_of_keys_dom {V : Type} (keys : list string) (v : V) :
  dom (Py.dict_of_keys keys v) = list_to_set keys.
Proof.
  apply set_eq. intros k.
  rewrite elem_of_dom, dict_of_keys_lookup, elem_of_list_to_set.
  case_decide; split; intros; try done; by inversion 0.
Qed.

Lemma sum_constant (l : list Z) (c : Z) :
  Forall (fun x => x = c) l → Py.sum l = c * Z.of_nat (length l).
Proof.
  induction 1 as [|x l -> _ IH]; [simpl; unfold Py.sum; simpl; lia|].
  rewrite sum_cons, IH. simpl length. lia.
Qed.

Lemma sum_values_dict_of_keys (keys : list string) (c : Z) :
  Py.sum (Py.values (Py.dict_of_keys keys c))
  = c * Z.of_nat (size (Py.dict_of_keys keys c)).
Proof.
  unfold Py.values. rewrite (sum_constant _ c).
  - by rewrite length_fmap, length_map_to_list.
  - apply Forall_fmap, Forall_forall. intros [k x] Hkx. simpl.
    apply elem_of_map_to_list in Hkx. rewrite dict_of_keys_lookup in Hkx.
    case_decide; congruence.
Qed.

(** C6.  When the model call or the parse fails, [evaluate_multi_round]
    returns the fallback.  For the criteria [fear_validation],
    [concrete_reassurance], [collaborative_approach] and threshold 7 it
    scores 2 on each, totals 6, does not pass, and carries exactly three
    per-criterion feedback entries, in English for ["en"] and in Cantonese
    for any other locale.  For any criteria the fallback gives each one a
    flat 2, [total_score] is the sum of those scores, and [passed] is
    false. *)
Theorem fallback_multi_round_evaluation {rt : Runtime}
    (reply : exn + json) (parent_response child_prompt : string)
    (round_number : Z) (language : string) :
  let fallback_text :=
    if String.eqb language "en" then "System error" else "系統錯誤" in
  (∀ e : exn,
     let criteria :=
       ["fear_validation"; "concrete_reassurance"; "collaborative_approach"] in
     EvaluationAgent.evaluate_multi_round_try reply criteria 7 round_number = inl e →
     let result :=
       EvaluationAgent.evaluate_multi_round reply parent_response child_prompt
         criteria 7 round_number language in
     MultiRoundEvaluationResult.criteria_scores result
       = {[ "fear_validation" := 2; "concrete_reassurance" := 2;
            "collaborative_approach" := 2 ]}
     ∧ MultiRoundEvaluationResult.total_score result = 6
     ∧ MultiRoundEvaluationResult.passed result = false
     ∧ MultiRoundEvaluationResult.detailed_feedback result
       = {[ "fear_validation" := fallback_text;
            "concrete_reassurance" := fallback_text;
            "collaborative_approach" := fallback_text ]}
     ∧ size (MultiRoundEvaluationResult.detailed_feedback result) = 3%nat)
  ∧
  (∀ (criteria : list string) (threshold : Z) (e : exn),
     EvaluationAgent.evaluate_multi_round_try reply criteria threshold round_number
       = inl e →
     let result :=
       EvaluationAgent.evaluate_multi_round reply parent_response child_prompt
         criteria threshold round_number language in
     (∀ c, c ∈ criteria →
           MultiRoundEvaluationResult.criteria_scores result !! c = Some 2
           ∧ MultiRoundEvaluationResult.detailed_feedback result !! c
             = Some fallback_text)
     ∧ dom (MultiRoundEvaluationResult.criteria_scores result) = list_to_set criteria
     ∧ dom (MultiRoundEvaluationResult.detailed_feedback result) = list_to_set criteria
     ∧ MultiRoundEvaluationResult.total_score result
       = Py.sum (Py.values (MultiRoundEvaluationResult.criteria_scores result))
     ∧ MultiRoundEvaluationResult.total_score result
       = 2 * Z.of_nat (size (MultiRoundEvaluationResult.criteria_scores result))
     ∧ MultiRoundEvaluationResult.passed result = false).
Proof.
  intros fallback_text. split.
  - intros e criteria Htry result. subst result.
    unfold EvaluationAgent.evaluate_multi_round. rewrite Htry.
    unfold EvaluationAgent._create_fallback_multi_round_evaluation. simpl.
    subst fallback_text. destruct (String.eqb language "en"); simpl.
    all: split_and!; try reflexivity.
    all: by vm_compute.
  - intros criteria threshold e Htry result. subst result.
    unfold EvaluationAgent.evaluate_multi_round. rewrite Htry.
    unfold EvaluationAgent._create_fallback_multi_round_evaluation. simpl.
    split_and!; try done.
    + intros c Hc. subst fallback_text.
      destruct (String.eqb language "en");
        by rewrite !dict_of_keys_lookup, !decide_True by done.
    + apply dict_of_keys_dom.
    + destruct (String.eqb language "en"); apply dict_of_keys_dom.
    + apply sum_values_dict_of_keys.
Qed.

Lemma fallback_multi_round_evaluation_witness :
  let result :=
    EvaluationAgent.evaluate_multi_round (rt := Sample.runtime)
      (inl (AgentError "model unavailable")) "hello" "hi"
      ["fear_validation"; "concrete_reassurance"; "collaborative_approach"]
      7 2 "zh-HK" in
  MultiRoundEvaluationResult.total_score result = 6
  ∧ MultiRoundEvaluationResult.passed result = false
  ∧ size (MultiRoundEvaluationResult.detailed_feedback result) = 3%nat.
Proof.
  intros result.
  destruct (fallback_multi_round_evaluation (rt := Sample.runtime)
              (inl (AgentError "model unavailable")) "hello" "hi" 2 "zh-HK")
    as [Hthree _].
  destruct (Hthree (AgentError "model unavailable") eq_refl)
    as (_ & Htotal & Hpassed & _ & Hsize).
  exact (conj Htotal (conj Hpassed Hsize)).
Defined.

(** C8, at a reply the model can give: the three scores add up to 10, the
    model reports a total of 5 and claims a pass.  [evaluate] returns the
    reply's own [total_score] and [passed]: the total is not the sum of the
    three scores, and the result passes below the threshold of 7. *)
Theorem evaluate_keeps_the_model_total {rt : Runtime}
    (parent_response teen_opening language : string) :
  let result :=
    EvaluationAgent.evaluate (inr (Sample.single_reply 4 3 3 5 true))
      parent_response teen_opening language in
  result = EvaluationResult.mk 4 3 3 5 "ok" true
  ∧ EvaluationResult.total_score result
    ≠ EvaluationResult.tone_score result + EvaluationResult.approach_score result
      + EvaluationResult.respect_score result
  ∧ EvaluationResult.passed result = true
  ∧ EvaluationResult.total_score result < 7.
Proof.
  intros result.
  assert (Hres : result = EvaluationResult.mk 4 3 3 5 "ok" true) by reflexivity.
  rewrite Hres. simpl. split_and!; [done|lia|done|lia].
Qed.

(** ** The session map and the single-round path *)

Section api_facts.
Context {rt : Runtime}.

Lemma submit_response_state (w : World) (game_sessions : gmap string GameState.t)
    (session_id parent_response : string) (game_state : GameState.t) :
  game_sessions !! session_id = Some game_state →
  (Api.submit_response w game_sessions session_id parent_response).2
  = <[session_id := submit game_state (w, parent_response)]> game_sessions.
Proof.
  intros Hs. unfold Api.submit_response, submit. rewrite Hs. simpl.
  destruct (GameState.game_completed game_state); simpl.
  - by rewrite insert_id.
  - by destruct (RoleplayGameEngine.process_parent_response _ _ _) as [? [?|]].
Qed.

(** The single-round path, field by field. *)
Lemma single_round_response (w : World) (game_state : GameState.t)
    (parent_response : string) :
  let evaluation :=
    EvaluationAgent.evaluate (evaluator_reply w) parent_response
      (GameState.teen_opening game_state) (GameState.language game_state) in
  let updated :=
    RoleplayGameEngine._process_single_round_response w game_state parent_response in
  GameState.evaluation updated = Some evaluation
  ∧ GameState.attempts updated = GameState.attempts game_state
  ∧ GameState.round_attempts updated = GameState.round_attempts game_state
  ∧ GameState.max_attempts updated = GameState.max_attempts game_state
  ∧ GameState.max_round_attempts updated = GameState.max_round_attempts game_state
  ∧ GameState.is_multi_round updated = GameState.is_multi_round game_state
  ∧ GameState.current_round updated = GameState.current_round game_state
  ∧ GameState.max_rounds updated = GameState.max_rounds game_state
  ∧ GameState.round_history updated = GameState.round_history game_state
  ∧ GameState.scenario_completion updated = GameState.scenario_completion game_state
  ∧ GameState.game_completed updated
    = GameState.game_completed game_state
      || EvaluationResult.passed evaluation
      || negb (GameState.can_retry game_state)
  ∧ GameState.final_score updated
    = if EvaluationResult.passed evaluation
      then Some (EvaluationResult.total_score evaluation)
      else if negb (GameState.can_retry game_state) then None
           else GameState.final_score game_state.
Proof.
  intros evaluation updated. subst updated.
  unfold RoleplayGameEngine._process_single_round_response. fold evaluation.
  assert (Hretry :
    GameState.can_retry
      (GameState.set_teen_response
         (GameState.set_evaluation game_state (Some evaluation))
         (Some (TeenResponse.response
                  (TeenResponderAgent.respond (responder_reply w)
                     (EvaluationResult.total_score evaluation)
                     (GameState.scenario_background
                        (GameState.set_evaluation game_state (Some evaluation)))
                     (GameState.language
                        (GameState.set_evaluation game_state (Some evaluation)))))))
    = GameState.can_retry game_state) by (by destruct game_state).
  rewrite Hretry.
  destruct (EvaluationResult.passed evaluation);
    destruct (GameState.can_retry game_state) eqn:Hcr; simpl;
    rewrite ?orb_true_r, ?orb_false_r; split_and!; done.
Qed.

End api_facts.

(** C4.  A submission to a session whose [game_completed] flag is set is
    rejected with status 400, "Game already completed", before anything is
    evaluated: the session map, and so the session's state, is returned as
    it was. *)
Theorem submit_to_completed_session_rejected {rt : Runtime}
    (w : World) (game_sessions : gmap string GameState.t)
    (session_id parent_response : string) (game_state : GameState.t) :
  game_sessions !! session_id = Some game_state →
  GameState.game_completed game_state = true →
  Api.submit_response w game_sessions session_id parent_response
  = (HTTPException 400 "Game already completed", game_sessions)
  ∧ (Api.submit_response w game_sessions session_id parent_response).2 !! session_id
    = Some game_state.
Proof.
  intros Hs Hc. unfold Api.submit_response. rewrite Hs, Hc. done.
Qed.

Lemma submit_to_completed_session_rejected_witness :
  let w := Sample.world Sample.scenarios_dir (inr (Sample.single_reply 4 3 3 10 true)) in
  let started :=
    (Api.start_game (rt := Sample.runtime) Sample.scenarios_dir ∅
       (Some "messy_room") "en").2 in
  let finished :=
    (Api.submit_response (rt := Sample.runtime) w started "session_0" "I hear you").2 in
  Api.submit_response (rt := Sample.runtime) w finished "session_0" "again"
  = (HTTPException 400 "Game already completed", finished).
Proof.
  intros w started finished.
  assert (Hstate : ∃ gs, finished !! "session_0" = Some gs
                         ∧ GameState.game_completed gs = true).
  { eexists. split; [by vm_compute | reflexivity]. }
  destruct Hstate as (gs & Hgs & Hdone).
  exact (proj1 (submit_to_completed_session_rejected (rt := Sample.runtime)
                  w finished "session_0" "again" gs Hgs Hdone)).
Defined.

(** C7.  On a single-round session that is still open, a submission adds
    one to [attempts] and stores the evaluation; the session is completed
    exactly when the evaluation passed or [attempts] has reached
    [max_attempts]; [final_score] becomes the evaluation's [total_score]
    when it passed, is [None] when the session completes on exhausted
    attempts without a pass, and is otherwise left as it was. *)
Theorem single_round_submission {rt : Runtime}
    (w : World) (game_sessions : gmap string GameState.t)
    (session_id parent_response : string) (game_state : GameState.t) :
  game_sessions !! session_id = Some game_state →
  GameState.is_multi_round game_state = false →
  GameState.game_completed game_state = false →
  ∃ updated : GameState.t,
    Api.submit_response w game_sessions session_id parent_response
    = (Return updated, <[session_id := updated]> game_sessions)
    ∧ let evaluation :=
        EvaluationAgent.evaluate (evaluator_reply w) parent_response
          (GameState.teen_opening game_state) (GameState.language game_state) in
      GameState.evaluation updated = Some evaluation
      ∧ GameState.attempts updated = GameState.attempts game_state + 1
      ∧ GameState.max_attempts updated = GameState.max_attempts game_state
      ∧ (GameState.game_completed updated = true
         ↔ EvaluationResult.passed evaluation = true
           ∨ GameState.max_attempts updated ≤ GameState.attempts updated)
      ∧ (EvaluationResult.passed evaluation = true →
         GameState.final_score updated
         = Some (EvaluationResult.total_score evaluation))
      ∧ (EvaluationResult.passed evaluation = false →
         GameState.max_attempts updated ≤ GameState.attempts updated →
         GameState.final_score updated = None)
      ∧ (GameState.game_completed updated = false →
         GameState.final_score updated = GameState.final_score game_state).
Proof.
  intros Hs Hsingle Hopen.
  set (incremented :=
         GameState.increment_attempt
           (GameState.set_parent_response game_state parent_response)).
  assert (Hinc : GameState.attempts incremented = GameState.attempts game_state + 1
                 ∧ GameState.max_attempts incremented = GameState.max_attempts game_state
                 ∧ GameState.is_multi_round incremented = false
                 ∧ GameState.game_completed incremented = false
                 ∧ GameState.teen_opening incremented = GameState.teen_opening game_state
                 ∧ GameState.language incremented = GameState.language game_state
                 ∧ GameState.final_score incremented = GameState.final_score game_state).
  { subst incremented. unfold GameState.increment_attempt.
    destruct game_state; simpl in *; subst; simpl. done. }
  destruct Hinc as (Hatt & Hmax & Hsr & Hgc & Hto & Hlang & Hfs).
  assert (Hproc :
    RoleplayGameEngine.process_parent_response w game_state parent_response
    = (RoleplayGameEngine._process_single_round_response w incremented parent_response,
       None)).
  { unfold RoleplayGameEngine.process_parent_response. fold incremented.
    rewrite Hsr. by destruct (ScenarioLoader.load_scenario _ _). }
  exists (RoleplayGameEngine._process_single_round_response w incremented parent_response).
  split.
  { unfold Api.submit_response. by rewrite Hs, Hopen, Hproc. }
  destruct (single_round_response w incremented parent_response)
    as (Hev & Hatt' & _ & Hmax' & _ & _ & _ & _ & _ & _ & Hdone & Hfinal).
  rewrite Hto, Hlang in Hev, Hdone, Hfinal.
  intros evaluation. fold evaluation in Hev, Hdone, Hfinal.
  assert (Hretry : GameState.can_retry incremented
                   = (GameState.attempts game_state + 1 <? GameState.max_attempts game_state)).
  { unfold GameState.can_retry. rewrite Hsr, Hgc, Hatt, Hmax. apply andb_true_r. }
  rewrite Hretry, Hgc in Hdone. rewrite Hretry, Hfs in Hfinal.
  rewrite Hatt', Hmax', Hatt, Hmax. simpl in Hdone.
  split_and!; try done.
  - rewrite Hdone, orb_true_iff, negb_true_iff, Z.ltb_ge. done.
  - intros Hp. by rewrite Hfinal, Hp.
  - intros Hp Hex. rewrite Hfinal, Hp.
    by apply Z.ltb_ge in Hex as ->.
  - intros Hopen'. rewrite Hopen' in Hdone. symmetry in Hdone.
    apply orb_false_iff in Hdone as [Hp Hr]. apply negb_false_iff in Hr.
    by rewrite Hfinal, Hp, Hr.
Qed.

Lemma single_round_submission_witness :
  let w := Sample.world Sample.scenarios_dir (inl (AgentError "model unavailable")) in
  let started :=
    (Api.start_game (rt := Sample.runtime) Sample.scenarios_dir ∅
       (Some "messy_room") "en").2 in
  ∃ updated,
    (Api.submit_response (rt := Sample.runtime) w started "session_0" "Clean it now").1
    = Return updated
    ∧ GameState.attempts updated = 1
    ∧ GameState.game_completed updated = false
    ∧ GameState.final_score updated = None.
Proof.
  intros w started.
  assert (Hstate : ∃ gs, started !! "session_0" = Some gs
                         ∧ GameState.is_multi_round gs = false
                         ∧ GameState.game_completed gs = false
                         ∧ GameState.attempts gs = 0
                         ∧ GameState.final_score gs = None).
  { eexists. split; [by vm_compute | done]. }
  destruct Hstate as (gs & Hgs & Hsingle & Hopen & Hzero & Hnone).
  destruct (single_round_submission (rt := Sample.runtime)
              w started "session_0" "Clean it now" gs Hgs Hsingle Hopen)
    as (updated & Hret & _ & Hatt & _ & Hdone & _ & _ & Hkeep).
  exists updated. rewrite Hret. simpl.
  assert (Hstill : GameState.game_completed updated = false).
  { injection Hret as Hu _. rewrite <- Hu. by vm_compute. }
  split_and!; [done | by rewrite Hatt, Hzero | done | by rewrite Hkeep].
Defined.

(** C9.  [start_game] names the new session ["session_"] followed by the
    number of sessions in the map, and stores the new state under that
    name.  After two sessions are started and the first is ended, the map
    holds one session, ["session_1"]; the next start is again named
    ["session_1"], and its state replaces the state of the session that
    was still live. *)
Theorem start_game_reuses_session_id {rt : Runtime} (d : ScenarioDir) :
  (∀ (game_sessions : gmap string GameState.t) (scenario_name : option string)
     (language : string) (game_state : GameState.t),
     RoleplayGameEngine.create_game_state d scenario_name language = Some game_state →
     let session_id := "session_" ++ PyStr.of_nat (size game_sessions) in
     Api.start_game d game_sessions scenario_name language
     = (Return {| Api.session_id := session_id; Api.started_state := game_state |},
        <[session_id := game_state]> game_sessions))
  ∧
  (∀ (name1 name2 name3 : option string) (lang1 lang2 lang3 : string)
     (first second third : GameState.t),
     RoleplayGameEngine.create_game_state d name1 lang1 = Some first →
     RoleplayGameEngine.create_game_state d name2 lang2 = Some second →
     RoleplayGameEngine.create_game_state d name3 lang3 = Some third →
     let s1 := (Api.start_game d ∅ name1 lang1).2 in
     let s2 := (Api.start_game d s1 name2 lang2).2 in
     let s3 := (Api.end_game s2 "session_0").2 in
     s3 !! "session_1" = Some second
     ∧ Api.start_game d s3 name3 lang3
       = (Return {| Api.session_id := "session_1"; Api.started_state := third |},
          {[ "session_1" := third ]})).
Proof.
  split.
  - intros game_sessions scenario_name language game_state Hc session_id.
    unfold Api.start_game. by rewrite Hc.
  - intros name1 name2 name3 lang1 lang2 lang3 first second third H1 H2 H3.
    unfold Api.start_game, Api.end_game. rewrite H1, H2, H3.
    cbn [snd fst]. rewrite map_size_empty, insert_empty, map_size_singleton.
    change ("session_" ++ PyStr.of_nat 0) with "session_0".
    change ("session_" ++ PyStr.of_nat 1) with "session_1".
    rewrite lookup_insert_ne by done. rewrite lookup_singleton_eq.
    cbn [snd fst].
    rewrite delete_insert_ne by done. rewrite delete_singleton_eq, insert_empty.
    rewrite map_size_singleton.
    change ("session_" ++ PyStr.of_nat 1) with "session_1".
    split; [by rewrite lookup_singleton_eq|].
    by rewrite insert_singleton_eq.
Qed.

Lemma start_game_reuses_session_id_witness :
  let d := Sample.scenarios_dir in
  let s1 := (Api.start_game (rt := Sample.runtime) d ∅ (Some "messy_room") "en").2 in
  let s2 := (Api.start_game (rt := Sample.runtime) d s1 (Some "messy_kitchen") "en").2 in
  let s3 := (Api.end_game s2 "session_0").2 in
  ∃ live new : GameState.t,
    s3 !! "session_1" = Some live
    ∧ GameState.scenario_title live = "Messy Kitchen Standoff"
    ∧ Api.start_game (rt := Sample.runtime) d s3 (Some "messy_room") "zh-HK"
      = (Return {| Api.session_id := "session_1"; Api.started_state := new |},
         {[ "session_1" := new ]})
    ∧ GameState.scenario_title new = "亂房間".
Proof.
  intros d s1 s2 s3.
  destruct (start_game_reuses_session_id (rt := Sample.runtime) d) as [_ Hseq].
  eexists _, _.
  destruct (Hseq (Some "messy_room") (Some "messy_kitchen") (Some "messy_room")
              "en" "en" "zh-HK" _ _ _ eq_refl eq_refl eq_refl) as [Hlive Hnew].
  split; [exact Hlive|]. split; [reflexivity|].
  split; [exact Hnew|]. reflexivity.
Defined.

(** ** The completion summary *)

Lemma sum_ones {A : Type} (l : list A) :
  Py.sum ((fun _ : A => 1) <$> l) = Z.of_nat (length l).
Proof.
  induction l as [|x l IH]; [done|].
  rewrite fmap_cons, sum_cons, IH. simpl length. lia.
Qed.

Lemma sum_totals (results : list RoundResult.t) :
  Py.sum ((fun result =>
             MultiRoundEvaluationResult.total_score (RoundResult.evaluation result))
          <$> results)
  = total_of results.
Proof.
  induction results as [|r results IH]; [done|].
  rewrite fmap_cons, sum_cons, IH. done.
Qed.

Lemma passed_results_all (history : list RoundResult.t) :
  length (passed_results history) = length history
  ↔ Forall (fun result =>
              MultiRoundEvaluationResult.passed (RoundResult.evaluation result) = true)
           history.
Proof.
  unfold passed_results. induction history as [|r history IH]; simpl.
  - split; [constructor | done].
  - pose proof (List.filter_length_le
                  (fun result =>
                     MultiRoundEvaluationResult.passed (RoundResult.evaluation result))
                  history) as Hle.
    destruct (MultiRoundEvaluationResult.passed (RoundResult.evaluation r)) eqn:Hp;
      simpl.
    + rewrite Forall_cons. split.
      * intros Hlen. split; [done|]. apply IH. lia.
      * intros [_ Hall]. apply IH in Hall. lia.
    + split; [lia|]. intros Hall. apply Forall_cons in Hall as [Hr _]. congruence.
Qed.

Lemma badges_mastery (mastery expert : bool) :
  "scenario_mastery"
    ∈ (if expert
       then ((if mastery then ([] ++ ["scenario_mastery"])%list else [])
             ++ ["expert_communicator"])%list
       else if mastery then ([] ++ ["scenario_mastery"])%list else [])
  ↔ mastery = true.
Proof.
  destruct mastery, expert; simpl;
    rewrite ?elem_of_cons, ?elem_of_nil; split; intros; try done; try tauto.
  all: by destruct select (_ ∨ _) as [?|?].
Qed.

Lemma badges_expert (mastery expert : bool) :
  "expert_communicator"
    ∈ (if expert
       then ((if mastery then ([] ++ ["scenario_mastery"])%list else [])
             ++ ["expert_communicator"])%list
       else if mastery then ([] ++ ["scenario_mastery"])%list else [])
  ↔ expert = true.
Proof.
  destruct mastery, expert; simpl;
    rewrite ?elem_of_cons, ?elem_of_nil; split; intros; try done; try tauto.
  all: by destruct select (_ ∨ _) as [?|?].
Qed.

(** The summary is computed from the history alone, apart from
    [max_rounds] and the scenario's title. *)
Lemma create_scenario_completion_unfold
    (game_state : GameState.t) (scenario : Scenario) :
  let history := GameState.round_history game_state in
  let passed := passed_results history in
  let n := Z.of_nat (length passed) in
  RoleplayGameEngine._create_scenario_completion game_state scenario
  = match (if 0 <? n then PyFloat.truediv (total_of passed) n else inr 0%Q) with
    | inl e => inl e
    | inr avg_score =>
        let mastery := n =? GameState.max_rounds game_state in
        inr (ScenarioCompletion.mk
               (Scenario.title scenario)
               (Z.of_nat (length history))
               (GameState.max_rounds game_state)
               n
               avg_score
               mastery
               (if Qle_bool 9 avg_score
                then ((if mastery then ([] ++ ["scenario_mastery"])%list else [])
                      ++ ["expert_communicator"])%list
                else if mastery then ([] ++ ["scenario_mastery"])%list else [])
               (if mastery
                then ([] ++ ["separation_anxiety_management"])%list else []))
    end.
Proof.
  intros history passed n.
  unfold RoleplayGameEngine._create_scenario_completion.
  fold history. fold (passed_results history). fold passed.
  rewrite sum_ones, sum_totals. fold n. reflexivity.
Qed.

(** When the summary cannot be computed, it is the division that raised:
    there are passed results and their total is beyond what a float
    holds, [OverflowError]. *)
Lemma create_scenario_completion_raises
    (game_state : GameState.t) (scenario : Scenario) (e : exn) :
  RoleplayGameEngine._create_scenario_completion game_state scenario = inl e →
  let passed := passed_results (GameState.round_history game_state) in
  e = OverflowError
  ∧ 2 ^ 1023 * Z.of_nat (length passed) < Z.abs (total_of passed).
Proof.
  rewrite create_scenario_completion_unfold. cbv zeta.
  set (passed := passed_results _).
  destruct (Z.ltb_spec 0 (Z.of_nat (length passed))) as [Hn|Hn]; [|done].
  destruct (PyFloat.truediv _ _) as [e'|avg] eqn:Hdiv; [|done].
  intros [= <-]. by apply truediv_raises in Hdiv.
Qed.

(** A total of the passed results within [2 ^ 1023] times their number is
    enough for the summary to be computed. *)
Lemma create_scenario_completion_returns
    (game_state : GameState.t) (scenario : Scenario) :
  let passed := passed_results (GameState.round_history game_state) in
  Z.abs (total_of passed) ≤ 2 ^ 1023 * Z.of_nat (length passed) →
  ∃ completion,
    RoleplayGameEngine._create_scenario_completion game_state scenario
    = inr completion.
Proof.
  intros passed Hbound.
  destruct (RoleplayGameEngine._create_scenario_completion game_state scenario)
    as [e|completion] eqn:Hc; [|by eexists].
  apply create_scenario_completion_raises in Hc as [_ Hlt]. fold passed in Hlt. lia.
Qed.

(** The completion summary computed from any game state: [overall_score]
    is the float quotient of the sum of [total_score] over exactly the
    results with [passed] set by their number, and 0 when there is none;
    [mastery_achieved] holds exactly when [rounds_passed] equals
    [total_rounds]; the ["scenario_mastery"] badge is earned exactly then,
    which for a history holding one result per round means that every
    round passed; the ["expert_communicator"] badge is earned exactly when
    the float is at least 9. *)
Lemma create_scenario_completion_fields
    (game_state : GameState.t) (scenario : Scenario)
    (completion : ScenarioCompletion.t) :
  RoleplayGameEngine._create_scenario_completion game_state scenario
  = inr completion →
  let history := GameState.round_history game_state in
  let passed := passed_results history in
  (if decide (passed = [])
   then ScenarioCompletion.overall_score completion = 0%Q
   else PyFloat.truediv (total_of passed) (Z.of_nat (length passed))
        = inr (ScenarioCompletion.overall_score completion))
  ∧ ScenarioCompletion.rounds_passed completion = Z.of_nat (length passed)
  ∧ ScenarioCompletion.rounds_completed completion = Z.of_nat (length history)
  ∧ ScenarioCompletion.total_rounds completion = GameState.max_rounds game_state
  ∧ (ScenarioCompletion.mastery_achieved completion = true
     ↔ ScenarioCompletion.rounds_passed completion
       = ScenarioCompletion.total_rounds completion)
  ∧ ("scenario_mastery" ∈ ScenarioCompletion.badges_earned completion
     ↔ ScenarioCompletion.rounds_passed completion
       = ScenarioCompletion.total_rounds completion)
  ∧ (ScenarioCompletion.rounds_completed completion
     = ScenarioCompletion.total_rounds completion →
     ("scenario_mastery" ∈ ScenarioCompletion.badges_earned completion
      ↔ Forall (fun result =>
                  MultiRoundEvaluationResult.passed (RoundResult.evaluation result)
                  = true) history))
  ∧ ("expert_communicator" ∈ ScenarioCompletion.badges_earned completion
     ↔ (9 <= ScenarioCompletion.overall_score completion)%Q).
Proof.
  rewrite create_scenario_completion_unfold. cbv zeta.
  set (history := GameState.round_history game_state).
  set (passed := passed_results history).
  intros Hc.
  assert (Havg : ∃ avg,
    (if 0 <? Z.of_nat (length passed)
     then PyFloat.truediv (total_of passed) (Z.of_nat (length passed))
     else inr 0%Q) = inr avg).
  { destruct (if 0 <? Z.of_nat (length passed) then _ else _) as [e|avg];
      [done | by eexists]. }
  destruct Havg as (avg & Havg). rewrite Havg in Hc. injection Hc as <-.
  cbn [ScenarioCompletion.overall_score
    ScenarioCompletion.rounds_passed ScenarioCompletion.rounds_completed
    ScenarioCompletion.total_rounds ScenarioCompletion.mastery_achieved
    ScenarioCompletion.badges_earned].
  split_and!.
  - destruct (decide (passed = [])) as [Hnone|Hsome].
    + rewrite Hnone in Havg. simpl in Havg. congruence.
    + rewrite (proj2 (Z.ltb_lt 0 _)) in Havg; [done|].
      destruct passed; [done | simpl length; lia].
  - done.
  - done.
  - done.
  - apply Z.eqb_eq.
  - rewrite badges_mastery. apply Z.eqb_eq.
  - intros Hfull. rewrite badges_mastery, Z.eqb_eq, <- Hfull.
    rewrite Nat2Z.inj_iff. apply passed_results_all.
  - rewrite badges_expert. apply Qle_bool_iff.
Qed.

(** ** One submission, field by field *)

Section step_facts.
Context {rt : Runtime}.

Lemma increment_attempt_fields (game_state : GameState.t) (text : string) :
  let g :=
    GameState.increment_attempt (GameState.set_parent_response game_state text) in
  GameState.is_multi_round g = GameState.is_multi_round game_state
  ∧ GameState.attempts g
    = (if GameState.is_multi_round game_state
       then GameState.attempts game_state
       else GameState.attempts game_state + 1)
  ∧ GameState.round_attempts g
    = (if GameState.is_multi_round game_state
       then GameState.round_attempts game_state + 1
       else GameState.round_attempts game_state)
  ∧ GameState.max_attempts g = GameState.max_attempts game_state
  ∧ GameState.max_round_attempts g = GameState.max_round_attempts game_state
  ∧ GameState.current_round g = GameState.current_round game_state
  ∧ GameState.max_rounds g = GameState.max_rounds game_state
  ∧ GameState.round_history g = GameState.round_history game_state
  ∧ GameState.game_completed g = GameState.game_completed game_state
  ∧ GameState.scenario_completion g = GameState.scenario_completion game_state
  ∧ GameState.scenario_title g = GameState.scenario_title game_state
  ∧ GameState.language g = GameState.language game_state.
Proof.
  unfold GameState.increment_attempt. destruct game_state as [].
  simpl. by destruct is_multi_round.
Qed.

Lemma increment_attempt_frame (game_state : GameState.t) (text : string) :
  let g :=
    GameState.increment_attempt (GameState.set_parent_response game_state text) in
  GameState.scenario_background g = GameState.scenario_background game_state
  ∧ GameState.teen_opening g = GameState.teen_opening game_state
  ∧ GameState.evaluation g = GameState.evaluation game_state
  ∧ GameState.multi_round_evaluation g = GameState.multi_round_evaluation game_state
  ∧ GameState.final_score g = GameState.final_score game_state.
Proof.
  unfold GameState.increment_attempt. destruct game_state as [].
  simpl. by destruct is_multi_round.
Qed.

(** The summary depends on the history and on [max_rounds] only. *)
Lemma create_scenario_completion_ext (g g' : GameState.t) (scenario : Scenario) :
  GameState.round_history g = GameState.round_history g' →
  GameState.max_rounds g = GameState.max_rounds g' →
  RoleplayGameEngine._create_scenario_completion g scenario
  = RoleplayGameEngine._create_scenario_completion g' scenario.
Proof.
  intros Hh Hmr. rewrite !create_scenario_completion_unfold. cbv zeta.
  by rewrite Hh, Hmr.
Qed.

(** The multi-round path on a state [g] whose attempt has been counted.
    On the last round the summary is computed after the result has been
    appended; when that raises, the call ends there. *)
Lemma multi_round_response (w : World) (g : GameState.t) (text : string)
    (scenario : Scenario) :
  GameState.is_multi_round g = true →
  let out := RoleplayGameEngine._process_multi_round_response w g text scenario in
  let updated := out.1 in
  match Scenario.get_round_data scenario (GameState.current_round g) with
  | None => out = (g, None)
  | Some round_data =>
      let evaluation :=
        EvaluationAgent.evaluate_multi_round (evaluator_reply w) text
          (child_prompt round_data) (evaluation_criteria round_data)
          (pass_threshold round_data) (GameState.current_round g)
          (GameState.language g) in
      GameState.is_multi_round updated = true
      ∧ GameState.attempts updated = GameState.attempts g
      ∧ GameState.max_attempts updated = GameState.max_attempts g
      ∧ GameState.max_round_attempts updated = GameState.max_round_attempts g
      ∧ GameState.max_rounds updated = GameState.max_rounds g
      ∧ if MultiRoundEvaluationResult.passed evaluation
           || (GameState.max_round_attempts g <=? GameState.round_attempts g)
        then
          (∃ result,
             GameState.round_history updated
             = (GameState.round_history g ++ [result])%list
             ∧ RoundResult.round_number result = GameState.current_round g
             ∧ RoundResult.attempts_used result = GameState.round_attempts g
             ∧ RoundResult.evaluation result = evaluation)
          ∧ if GameState.max_rounds g <=? GameState.current_round g
            then
              GameState.current_round updated = GameState.current_round g
              ∧ GameState.round_attempts updated = GameState.round_attempts g
              ∧ match RoleplayGameEngine._create_scenario_completion
                        updated scenario with
                | inl e =>
                    out.2 = Some e
                    ∧ GameState.game_completed updated = GameState.game_completed g
                    ∧ GameState.scenario_completion updated
                      = GameState.scenario_completion g
                    ∧ GameState.final_score updated = GameState.final_score g
                | inr completion =>
                    out.2 = None
                    ∧ GameState.game_completed updated = true
                    ∧ GameState.scenario_completion updated = Some completion
                    ∧ GameState.final_score updated
                      = Some (int_of_Q (ScenarioCompletion.overall_score completion))
                end
            else
              out.2 = None
              ∧ GameState.current_round updated = GameState.current_round g + 1
              ∧ GameState.round_attempts updated = 0
              ∧ GameState.game_completed updated = GameState.game_completed g
              ∧ GameState.scenario_completion updated
                = GameState.scenario_completion g
        else
          out.2 = None
          ∧ GameState.round_history updated = GameState.round_history g
          ∧ GameState.current_round updated = GameState.current_round g
          ∧ GameState.round_attempts updated = GameState.round_attempts g
          ∧ GameState.game_completed updated = GameState.game_completed g
          ∧ GameState.scenario_completion updated = GameState.scenario_completion g
  end.
Proof.
  intros Hmulti out updated. subst updated out.
  unfold RoleplayGameEngine._process_multi_round_response.
  destruct (Scenario.get_round_data scenario (GameState.current_round g))
    as [round_data|]; [|done].
  cbv zeta.
  set (evaluation := EvaluationAgent.evaluate_multi_round _ _ _ _ _ _ _).
  destruct (MultiRoundEvaluationResult.passed evaluation
            || (GameState.max_round_attempts g <=? GameState.round_attempts g))
    eqn:Hres.
  2: { destruct g as []. simpl in *. rewrite Hres. by subst. }
  destruct (GameState.max_rounds g <=? GameState.current_round g) eqn:Hlast.
  2: { destruct g as []. simpl in *. rewrite Hres, Hlast. subst. simpl.
       unfold GameState.advance_to_next_round. simpl.
       apply Z.leb_gt in Hlast. rewrite (proj2 (Z.ltb_lt _ _) Hlast). simpl.
       split_and!; try done; eauto 10. }
  set (teen := TeenResponderAgent.respond _ _ _ _).
  set (g1 := GameState.set_teen_response
               (GameState.set_multi_round_evaluation g (Some evaluation))
               (Some (TeenResponse.response teen))).
  assert (Hg1 : GameState.max_round_attempts g1 = GameState.max_round_attempts g
                ∧ GameState.round_attempts g1 = GameState.round_attempts g
                ∧ GameState.current_round g1 = GameState.current_round g
                ∧ GameState.round_history g1 = GameState.round_history g).
  { subst g1. by destruct g. }
  destruct Hg1 as (Hmra & Hra & Hcr & Hh).
  rewrite Hmra, Hra, Hcr, Hh, Hres.
  set (result := RoundResult.mk _ _ _ _ _ _).
  set (g2 := GameState.set_round_history g1 _).
  assert (Hg2 : GameState.is_multi_round g2 = true
                ∧ GameState.attempts g2 = GameState.attempts g
                ∧ GameState.max_attempts g2 = GameState.max_attempts g
                ∧ GameState.max_round_attempts g2 = GameState.max_round_attempts g
                ∧ GameState.max_rounds g2 = GameState.max_rounds g
                ∧ GameState.round_history g2
                  = (GameState.round_history g ++ [result])%list
                ∧ GameState.current_round g2 = GameState.current_round g
                ∧ GameState.round_attempts g2 = GameState.round_attempts g
                ∧ GameState.game_completed g2 = GameState.game_completed g
                ∧ GameState.scenario_completion g2 = GameState.scenario_completion g
                ∧ GameState.final_score g2 = GameState.final_score g).
  { subst g2 g1. destruct g. simpl in *. by subst. }
  destruct Hg2 as (H1 & H2 & H3 & H4 & H5 & H6 & H7 & H8 & H9 & H10 & H11).
  rewrite H5, H7, Hlast.
  destruct (RoleplayGameEngine._create_scenario_completion g2 scenario)
    as [e|completion] eqn:Hc; cbn [fst snd].
  - rewrite Hc. split_and!; try done. by exists result.
  - set (g3 := GameState.complete_game _ _).
    assert (Hg3 : GameState.is_multi_round g3 = GameState.is_multi_round g2
                  ∧ GameState.attempts g3 = GameState.attempts g2
                  ∧ GameState.max_attempts g3 = GameState.max_attempts g2
                  ∧ GameState.max_round_attempts g3 = GameState.max_round_attempts g2
                  ∧ GameState.max_rounds g3 = GameState.max_rounds g2
                  ∧ GameState.round_history g3 = GameState.round_history g2
                  ∧ GameState.current_round g3 = GameState.current_round g2
                  ∧ GameState.round_attempts g3 = GameState.round_attempts g2
                  ∧ GameState.game_completed g3 = true
                  ∧ GameState.scenario_completion g3 = Some completion
                  ∧ GameState.final_score g3
                    = Some (int_of_Q (ScenarioCompletion.overall_score completion))).
    { subst g3. by destruct g2. }
    destruct Hg3 as (G1 & G2 & G3 & G4 & G5 & G6 & G7 & G8 & G9 & G10 & G11).
    rewrite (create_scenario_completion_ext g3 g2 scenario G6 G5), Hc.
    rewrite G1, G2, G3, G4, G5, G6, G7, G8.
    split_and!; try done. by exists result.
Qed.

End step_facts.

Section submit_facts.
Context {rt : Runtime}.

Lemma submit_completed (game_state : GameState.t) (t : turn) :
  GameState.game_completed game_state = true → submit game_state t = game_state.
Proof. intros Hc. unfold submit. by rewrite Hc. Qed.

Lemma process_parent_response_paths (game_state : GameState.t) (t : turn) :
  let g :=
    GameState.increment_attempt (GameState.set_parent_response game_state t.2) in
  RoleplayGameEngine.process_parent_response t.1 game_state t.2
  = match looked_up game_state t.1 with
    | None => (RoleplayGameEngine._process_single_round_response t.1 g t.2, None)
    | Some scenario =>
        if GameState.is_multi_round game_state
        then RoleplayGameEngine._process_multi_round_response t.1 g t.2 scenario
        else (RoleplayGameEngine._process_single_round_response t.1 g t.2, None)
    end.
Proof.
  intros g.
  unfold RoleplayGameEngine.process_parent_response, looked_up. fold g.
  destruct (increment_attempt_fields game_state t.2)
    as (Hm & _ & _ & _ & _ & _ & _ & _ & _ & _ & Htitle & _).
  fold g in Hm, Htitle. by rewrite Htitle, Hm.
Qed.

Lemma submit_open (game_state : GameState.t) (t : turn) :
  GameState.game_completed game_state = false →
  let g :=
    GameState.increment_attempt (GameState.set_parent_response game_state t.2) in
  submit game_state t
  = match looked_up game_state t.1 with
    | None => RoleplayGameEngine._process_single_round_response t.1 g t.2
    | Some scenario =>
        if GameState.is_multi_round game_state
        then (RoleplayGameEngine._process_multi_round_response t.1 g t.2 scenario).1
        else RoleplayGameEngine._process_single_round_response t.1 g t.2
    end.
Proof.
  intros Hopen g. unfold submit. rewrite Hopen, process_parent_response_paths.
  fold g. destruct (looked_up game_state t.1); [|done].
  by destruct (GameState.is_multi_round game_state).
Qed.

Lemma raised_completed (game_state : GameState.t) (t : turn) :
  GameState.game_completed game_state = true → raised game_state t = None.
Proof. intros Hc. unfold raised. by rewrite Hc. Qed.

Lemma raised_open (game_state : GameState.t) (t : turn) :
  GameState.game_completed game_state = false →
  let g :=
    GameState.increment_attempt (GameState.set_parent_response game_state t.2) in
  raised game_state t
  = match looked_up game_state t.1 with
    | None => None
    | Some scenario =>
        if GameState.is_multi_round game_state
        then (RoleplayGameEngine._process_multi_round_response t.1 g t.2 scenario).2
        else None
    end.
Proof.
  intros Hopen g. unfold raised. rewrite Hopen, process_parent_response_paths.
  fold g. destruct (looked_up game_state t.1); [|done].
  by destruct (GameState.is_multi_round game_state).
Qed.

(** Every way a submission on an open session can go, in terms of the
    fields the invariants speak of.  The engine raises in one place only:
    on the last round of a multi-round session, after the result has been
    appended, when the summary cannot be computed. *)
Lemma submit_outcomes (game_state : GameState.t) (t : turn) :
  GameState.game_completed game_state = false →
  let updated := submit game_state t in
  let multi := GameState.is_multi_round game_state in
  (GameState.is_multi_round updated = multi
   ∧ GameState.max_attempts updated = GameState.max_attempts game_state
   ∧ GameState.max_round_attempts updated = GameState.max_round_attempts game_state
   ∧ GameState.max_rounds updated = GameState.max_rounds game_state
   ∧ GameState.attempts updated
     = (if multi then GameState.attempts game_state
        else GameState.attempts game_state + 1))
  ∧
  ((* the single-round path, also taken when no scenario is found *)
   ((multi = false ∨ looked_up game_state t.1 = None)
    ∧ raised game_state t = None
    ∧ resolves game_state t = false
    ∧ GameState.round_attempts updated
      = (if multi then GameState.round_attempts game_state + 1
         else GameState.round_attempts game_state)
    ∧ GameState.current_round updated = GameState.current_round game_state
    ∧ GameState.round_history updated = GameState.round_history game_state
    ∧ GameState.scenario_completion updated
      = GameState.scenario_completion game_state
    ∧ (GameState.game_completed updated = false →
       if multi
       then GameState.round_attempts game_state + 1
            < GameState.max_round_attempts game_state
       else GameState.attempts game_state + 1 < GameState.max_attempts game_state)
    ∧ ((if multi
        then GameState.max_round_attempts game_state
             ≤ GameState.round_attempts game_state + 1
        else GameState.max_attempts game_state ≤ GameState.attempts game_state + 1) →
       GameState.game_completed updated = true))
   ∨
   (* the scenario is found but has no data for the current round *)
   (multi = true
    ∧ raised game_state t = None
    ∧ (∃ scenario, looked_up game_state t.1 = Some scenario
                   ∧ Scenario.get_round_data scenario
                       (GameState.current_round game_state) = None)
    ∧ resolves game_state t = false
    ∧ GameState.round_attempts updated = GameState.round_attempts game_state + 1
    ∧ GameState.current_round updated = GameState.current_round game_state
    ∧ GameState.round_history updated = GameState.round_history game_state
    ∧ GameState.scenario_completion updated
      = GameState.scenario_completion game_state
    ∧ GameState.game_completed updated = false)
   ∨
   (* a multi-round attempt that leaves the round open *)
   (multi = true
    ∧ raised game_state t = None
    ∧ resolves game_state t = false
    ∧ GameState.round_attempts game_state + 1
      < GameState.max_round_attempts game_state
    ∧ GameState.round_attempts updated = GameState.round_attempts game_state + 1
    ∧ GameState.current_round updated = GameState.current_round game_state
    ∧ GameState.round_history updated = GameState.round_history game_state
    ∧ GameState.scenario_completion updated
      = GameState.scenario_completion game_state
    ∧ GameState.game_completed updated = false)
   ∨
   (* a multi-round attempt that resolves the round *)
   (multi = true
    ∧ resolves game_state t = true
    ∧ (∃ result,
         GameState.round_history updated
         = (GameState.round_history game_state ++ [result])%list
         ∧ RoundResult.round_number result = GameState.current_round game_state
         ∧ RoundResult.attempts_used result
           = GameState.round_attempts game_state + 1
         ∧ ∃ scenario round_data,
             looked_up game_state t.1 = Some scenario
             ∧ Scenario.get_round_data scenario
                 (GameState.current_round game_state) = Some round_data
             ∧ RoundResult.evaluation result
               = round_evaluation game_state t round_data)
    ∧ ((GameState.max_rounds game_state ≤ GameState.current_round game_state
        ∧ GameState.current_round updated = GameState.current_round game_state
        ∧ GameState.round_attempts updated = GameState.round_attempts game_state + 1
        ∧ ∃ scenario,
            looked_up game_state t.1 = Some scenario
            ∧ match RoleplayGameEngine._create_scenario_completion
                      updated scenario with
              | inl e =>
                  raised game_state t = Some e
                  ∧ GameState.game_completed updated = false
                  ∧ GameState.scenario_completion updated
                    = GameState.scenario_completion game_state
                  ∧ GameState.final_score updated
                    = GameState.final_score game_state
              | inr completion =>
                  raised game_state t = None
                  ∧ GameState.game_completed updated = true
                  ∧ GameState.scenario_completion updated = Some completion
                  ∧ GameState.final_score updated
                    = Some (int_of_Q (ScenarioCompletion.overall_score completion))
              end)
       ∨
       (GameState.current_round game_state < GameState.max_rounds game_state
        ∧ raised game_state t = None
        ∧ GameState.current_round updated = GameState.current_round game_state + 1
        ∧ GameState.round_attempts updated = 0
        ∧ GameState.game_completed updated = false
        ∧ GameState.scenario_completion updated
          = GameState.scenario_completion game_state)))).
Proof.
  intros Hopen. cbv zeta.
  rewrite (submit_open _ _ Hopen), (raised_open _ _ Hopen).
  set (g := GameState.increment_attempt
              (GameState.set_parent_response game_state t.2)).
  destruct (increment_attempt_fields game_state t.2)
    as (Hm & Ha & Hra & Hma & Hmra & Hcr & Hmr & Hh & Hgc & Hsc & Htitle & Hlang).
  fold g in Hm, Ha, Hra, Hma, Hmra, Hcr, Hmr, Hh, Hgc, Hsc, Htitle, Hlang.
  destruct (increment_attempt_frame game_state t.2) as (_ & _ & _ & _ & Hfs).
  fold g in Hfs.
  assert (Hsingle :
    GameState.is_multi_round game_state = false ∨ looked_up game_state t.1 = None →
    resolves game_state t = false).
  { unfold resolves. intros [->| ->]; [by rewrite andb_false_r|].
    by rewrite andb_false_r. }
  assert (Hsingle_path :
    GameState.is_multi_round game_state = false ∨ looked_up game_state t.1 = None →
    let updated := RoleplayGameEngine._process_single_round_response t.1 g t.2 in
    (GameState.is_multi_round updated = GameState.is_multi_round game_state
     ∧ GameState.max_attempts updated = GameState.max_attempts game_state
     ∧ GameState.max_round_attempts updated
       = GameState.max_round_attempts game_state
     ∧ GameState.max_rounds updated = GameState.max_rounds game_state
     ∧ GameState.attempts updated
       = (if GameState.is_multi_round game_state then GameState.attempts game_state
          else GameState.attempts game_state + 1))
    ∧ (GameState.is_multi_round game_state = false ∨ looked_up game_state t.1 = None)
    ∧ resolves game_state t = false
    ∧ GameState.round_attempts updated
      = (if GameState.is_multi_round game_state then GameState.round_attempts game_state + 1
         else GameState.round_attempts game_state)
    ∧ GameState.current_round updated = GameState.current_round game_state
    ∧ GameState.round_history updated = GameState.round_history game_state
    ∧ GameState.scenario_completion updated
      = GameState.scenario_completion game_state
    ∧ (GameState.game_completed updated = false →
       if GameState.is_multi_round game_state
       then GameState.round_attempts game_state + 1
            < GameState.max_round_attempts game_state
       else GameState.attempts game_state + 1 < GameState.max_attempts game_state)
    ∧ ((if GameState.is_multi_round game_state
        then GameState.max_round_attempts game_state
             ≤ GameState.round_attempts game_state + 1
        else GameState.max_attempts game_state ≤ GameState.attempts game_state + 1) →
       GameState.game_completed updated = true)).
  { intros Hwhy.
    destruct (single_round_response t.1 g t.2)
      as (_ & Ha' & Hra' & Hma' & Hmra' & Hm' & Hcr' & Hmr' & Hh' & Hsc' & Hgc' & _).
    cbv zeta.
    rewrite Hm', Hma', Hmra', Hmr', Ha', Hra', Hcr', Hh', Hsc', Hgc'.
    rewrite Hm, Hma, Hmra, Hmr, Ha, Hra, Hcr, Hh, Hsc, Hgc, Hopen.
    unfold GameState.can_retry. rewrite Hm, Hra, Ha, Hmra, Hma, Hgc, Hopen.
    rewrite !andb_true_r. cbn [orb].
    split_and!; try done; [by apply Hsingle| |].
    - intros Hstill. apply orb_false_iff in Hstill as [_ Hr].
      apply negb_false_iff in Hr. destruct (GameState.is_multi_round game_state); by apply Z.ltb_lt in Hr.
    - intros Hcap. apply orb_true_iff. right. apply negb_true_iff.
      destruct (GameState.is_multi_round game_state); by apply Z.ltb_ge. }
  destruct (looked_up game_state t.1) as [scenario|] eqn:Hlook.
  2: { destruct (Hsingle_path (or_intror eq_refl))
         as (Hconst & Hwhy & Hres & Hrest).
       split; [exact Hconst|]. left. done. }
  destruct (GameState.is_multi_round game_state) eqn:Hmulti.
  2: { destruct (Hsingle_path (or_introl eq_refl))
         as (Hconst & Hwhy & Hres & Hrest).
       split; [exact Hconst|]. left. done. }
  pose proof (multi_round_response t.1 g t.2 scenario Hm) as Hmr_path.
  cbv zeta in Hmr_path. rewrite Hcr in Hmr_path.
  unfold resolves. rewrite Hopen, Hlook, Hmulti.
  cbn [negb andb fst snd].
  destruct (Scenario.get_round_data scenario (GameState.current_round game_state))
    as [round_data|] eqn:Hrd.
  2: { rewrite Hmr_path. cbn [fst snd].
       rewrite Hm, Hma, Hmra, Hmr, Ha, Hra, Hcr, Hh, Hsc, Hgc.
       split; [done|]. right. left. split_and!; eauto. }
  rewrite Hlang, Hmra, Hra, Hh, Hgc, Hsc, Ha, Hma, Hmr, Hfs in Hmr_path.
  fold (round_evaluation game_state t round_data) in Hmr_path.
  destruct Hmr_path as (Hm' & Ha' & Hma' & Hmra' & Hmr' & Hcases).
  split; [done|].
  destruct (MultiRoundEvaluationResult.passed _
            || (GameState.max_round_attempts game_state
                  <=? GameState.round_attempts game_state + 1)) eqn:Hres.
  - right. right. right.
    destruct Hcases as [Hrecord Hnext].
    split_and!; [done|done| |].
    { destruct Hrecord as (result & ? & ? & ? & ?). exists result.
      split_and!; try done. by exists scenario, round_data. }
    destruct (GameState.max_rounds game_state
                <=? GameState.current_round game_state) eqn:Hlast.
    + left. apply Z.leb_le in Hlast.
      destruct Hnext as (? & ? & Hsummary).
      split_and!; try done. exists scenario. split; [done|].
      destruct (RoleplayGameEngine._create_scenario_completion _ scenario);
        rewrite ?Hopen in Hsummary; done.
    + right. apply Z.leb_gt in Hlast.
      destruct Hnext as (? & ? & ? & ? & ?). rewrite Hopen in *. done.
  - right. right. left.
    apply orb_false_iff in Hres as [_ Hcap]. apply Z.leb_gt in Hcap.
    destruct Hcases as (? & ? & ? & ? & ? & ?). rewrite Hopen in *. done.
Qed.

End submit_facts.
(** ** Invariants along a playthrough *)

Lemma seqZ_sorted (m n : Z) : StronglySorted Z.lt (seqZ m n).
Proof.
  destruct (Z.le_gt_cases n 0) as [Hn|Hn].
  { rewrite seqZ_nil by done. constructor. }
  rewrite <- (Z2Nat.id n) by lia. generalize (Z.to_nat n) as k. clear Hn n.
  intros k. revert m. induction k as [|k IH]; intros m.
  - rewrite seqZ_nil by done. constructor.
  - rewrite seqZ_cons by lia. constructor.
    + replace (Z.pred (Z.of_nat (S k))) with (Z.of_nat k) by lia. apply IH.
    + apply Forall_seqZ. intros; lia.
Qed.

Section invariants.
Context {rt : Runtime}.

Lemma play_cons (game_state : GameState.t) (t : turn) (turns : list turn) :
  play game_state (t :: turns) = play (submit game_state t) turns.
Proof. done. Qed.

Lemma play_app (game_state : GameState.t) (turns more : list turn) :
  play game_state (turns ++ more) = play (play game_state turns) more.
Proof. apply foldl_app. Qed.

Lemma all_returned_app (game_state : GameState.t) (turns more : list turn) :
  all_returned game_state (turns ++ more)
  ↔ all_returned game_state turns ∧ all_returned (play game_state turns) more.
Proof.
  revert game_state. induction turns as [|t turns IH]; intros gs; simpl.
  - tauto.
  - rewrite IH. fold (play (submit gs t) turns). tauto.
Qed.

Lemma rounds_found_app (game_state : GameState.t) (turns more : list turn) :
  rounds_found game_state (turns ++ more)
  ↔ rounds_found game_state turns ∧ rounds_found (play game_state turns) more.
Proof.
  revert game_state. induction turns as [|t turns IH]; intros gs; simpl.
  - tauto.
  - rewrite IH. fold (play (submit gs t) turns). tauto.
Qed.

Lemma submit_attempts_bounded (game_state : GameState.t) (t : turn) :
  attempts_bounded game_state →
  round_found game_state t →
  raised game_state t = None →
  attempts_bounded (submit game_state t).
Proof.
  intros Hinv Hfound Hreturned.
  destruct (GameState.game_completed game_state) eqn:Hgc.
  { by rewrite submit_completed. }
  destruct Hinv as [Ha Hra Hopen].
  destruct (Hopen Hgc) as [Ha' Hra'].
  destruct (submit_outcomes game_state t Hgc)
    as [(Hm & Hma & Hmra & Hmr & Hatt) Hcases].
  destruct Hcases
    as [(Hwhy & _ & _ & Hr & _ & _ & _ & Hstill & _)
       |[(Hmulti & _ & (sc & Hlook & Hnone) & _)
        |[(Hmulti & _ & _ & Hlt & Hr & _ & _ & _ & Hgc')
         |(Hmulti & _ & _ & Hnext)]]].
  - split; rewrite ?Hma, ?Hmra, ?Hatt, ?Hr.
    + destruct (GameState.is_multi_round game_state); lia.
    + destruct (GameState.is_multi_round game_state); lia.
    + intros Hgc'. specialize (Hstill Hgc').
      destruct (GameState.is_multi_round game_state); lia.
  - by destruct (Hfound Hgc Hmulti sc Hlook).
  - rewrite Hmulti in Hatt.
    split; rewrite ?Hma, ?Hmra, ?Hatt, ?Hr; lia.
  - rewrite Hmulti in Hatt.
    destruct Hnext as [(_ & _ & Hr & sc & _ & Hsummary)|(_ & _ & _ & Hr & _ & _)].
    + destruct (RoleplayGameEngine._create_scenario_completion _ sc).
      { destruct Hsummary as (Hraised & _). congruence. }
      destruct Hsummary as (_ & Hgc' & _).
      split; rewrite ?Hma, ?Hmra, ?Hatt, ?Hr; first [lia | congruence].
    + split; rewrite ?Hma, ?Hmra, ?Hatt, ?Hr; lia.
Qed.

Lemma summary_recorded_open (game_state : GameState.t) :
  summary_recorded game_state →
  GameState.game_completed game_state = false →
  GameState.scenario_completion game_state = None.
Proof.
  intros [Hdone _] Hgc.
  destruct (GameState.scenario_completion game_state) as [c|] eqn:Hsc; [|done].
  destruct Hdone as [Hc _]; [done|]. congruence.
Qed.

Lemma submit_summary_recorded (game_state : GameState.t) (t : turn) :
  summary_recorded game_state → summary_recorded (submit game_state t).
Proof.
  intros Hinv.
  destruct (GameState.game_completed game_state) eqn:Hgc.
  { by rewrite submit_completed. }
  pose proof (summary_recorded_open _ Hinv Hgc) as Hnone.
  destruct (submit_outcomes game_state t Hgc)
    as [(Hm & Hma & Hmra & Hmr & Hatt) Hcases].
  assert (Hsame :
    GameState.scenario_completion (submit game_state t)
      = GameState.scenario_completion game_state →
    summary_recorded (submit game_state t)).
  { intros Hsc. split; rewrite Hsc, Hnone; done. }
  destruct Hcases
    as [(_ & _ & _ & _ & _ & _ & Hsc & _)
       |[(_ & _ & _ & _ & _ & _ & _ & Hsc & _)
        |[(_ & _ & _ & _ & _ & _ & _ & Hsc & _)
         |(_ & _ & _ & Hnext)]]];
    try by apply Hsame.
  destruct Hnext as [(Hlast & Hcr & _ & sc & _ & Hsummary)|(_ & _ & _ & _ & _ & Hsc)];
    [|by apply Hsame].
  destruct (RoleplayGameEngine._create_scenario_completion _ sc)
    as [e|completion] eqn:Hc.
  { destruct Hsummary as (_ & _ & Hsc & _). by apply Hsame. }
  destruct Hsummary as (_ & Hgc' & Hsc & Hfs).
  split.
  - intros _. rewrite Hmr, Hcr. done.
  - intros c Hc'. rewrite Hsc in Hc'. injection Hc' as <-.
    split; [by exists sc | done].
Qed.

Lemma submit_history_recorded (game_state : GameState.t) (t : turn) :
  history_recorded game_state →
  summary_recorded game_state →
  raised game_state t = None →
  history_recorded (submit game_state t).
Proof.
  intros Hinv Hsummary Hreturned.
  destruct (GameState.game_completed game_state) eqn:Hgc.
  { by rewrite submit_completed. }
  destruct Hinv as [Hnum Hlen].
  pose proof (summary_recorded_open _ Hsummary Hgc) as Hnone.
  unfold rounds_resolved in Hlen. rewrite Hnone in Hlen.
  destruct (submit_outcomes game_state t Hgc)
    as [(Hm & Hma & Hmra & Hmr & Hatt) Hcases].
  assert (Hsame :
    GameState.current_round (submit game_state t)
      = GameState.current_round game_state →
    GameState.round_history (submit game_state t)
      = GameState.round_history game_state →
    GameState.scenario_completion (submit game_state t)
      = GameState.scenario_completion game_state →
    history_recorded (submit game_state t)).
  { intros Hcr Hh Hsc. split; unfold rounds_resolved; rewrite ?Hh, ?Hcr, ?Hsc, ?Hnone.
    - done.
    - lia. }
  destruct Hcases
    as [(_ & _ & _ & _ & Hcr & Hh & Hsc & _)
       |[(_ & _ & _ & _ & _ & Hcr & Hh & Hsc & _)
        |[(_ & _ & _ & _ & _ & Hcr & Hh & Hsc & _)
         |(Hmulti & _ & (result & Hh & Hrn & _) & Hnext)]]];
    try by apply Hsame.
  assert (Hnum' :
    RoundResult.round_number <$> GameState.round_history (submit game_state t)
    = seqZ 1 (Z.of_nat (length (GameState.round_history (submit game_state t))))).
  { rewrite Hh, fmap_app, length_app, Hnum. simpl.
    rewrite Nat.add_1_r, seqZ_S. f_equal. f_equal. lia. }
  destruct Hnext
    as [(Hlast & Hcr & _ & sc & _ & Hcomp)
       |(_ & _ & Hcr & _ & _ & Hsc)].
  - destruct (RoleplayGameEngine._create_scenario_completion _ sc).
    { destruct Hcomp as (Hraised & _). congruence. }
    destruct Hcomp as (_ & _ & Hsc & _).
    split; [done|].
    unfold rounds_resolved. rewrite Hh, length_app, Hcr, Hsc. simpl. lia.
  - split; [done|].
    unfold rounds_resolved. rewrite Hh, length_app, Hcr, Hsc, Hnone. simpl. lia.
Qed.

Lemma submit_history_ordered (game_state : GameState.t) (t : turn) :
  history_ordered game_state → history_ordered (submit game_state t).
Proof.
  intros Hinv.
  destruct (GameState.game_completed game_state) eqn:Hgc.
  { by rewrite submit_completed. }
  destruct Hinv as [Hcur Hsorted Hrange].
  destruct (submit_outcomes game_state t Hgc) as [_ Hcases].
  assert (Hsame :
    GameState.current_round (submit game_state t)
      = GameState.current_round game_state →
    GameState.round_history (submit game_state t)
      = GameState.round_history game_state →
    history_ordered (submit game_state t)).
  { intros Hcr Hh. split; rewrite ?Hh, ?Hcr; done. }
  destruct Hcases
    as [(_ & _ & _ & _ & Hcr & Hh & _)
       |[(_ & _ & _ & _ & _ & Hcr & Hh & _)
        |[(_ & _ & _ & _ & _ & Hcr & Hh & _)
         |(_ & _ & (result & Hh & Hrn & _) & Hnext)]]];
    try by apply Hsame.
  assert (Hle : GameState.current_round game_state
                ≤ GameState.current_round (submit game_state t)).
  { destruct Hnext as [(_ & -> & _)|(_ & _ & -> & _)]; lia. }
  split; rewrite ?Hh, ?fmap_app; simpl.
  - lia.
  - apply StronglySorted_app_2; [|done|repeat constructor].
    intros x y Hx ->%list_elem_of_singleton.
    rewrite Forall_forall in Hrange. apply Hrange in Hx. lia.
  - apply Forall_app. split.
    + eapply Forall_impl; [exact Hrange|]. simpl. intros; lia.
    + repeat constructor; lia.
Qed.

Lemma submit_round_in_range (game_state : GameState.t) (t : turn) :
  GameState.current_round game_state ≤ GameState.max_rounds game_state →
  GameState.current_round (submit game_state t)
  ≤ GameState.max_rounds (submit game_state t).
Proof.
  intros Hle.
  destruct (GameState.game_completed game_state) eqn:Hgc.
  { by rewrite submit_completed. }
  destruct (submit_outcomes game_state t Hgc)
    as [(Hm & Hma & Hmra & Hmr & Hatt) Hcases].
  rewrite Hmr.
  destruct Hcases
    as [(_ & _ & _ & _ & Hcr & _)
       |[(_ & _ & _ & _ & _ & Hcr & _)
        |[(_ & _ & _ & _ & _ & Hcr & _)
         |(_ & _ & _ & [(_ & Hcr & _)|(Hlt & _ & Hcr & _)])]]];
    rewrite Hcr; lia.
Qed.

(** A submission appends one result when it resolves the round, and
    nothing otherwise. *)
Lemma submit_history_grows (game_state : GameState.t) (t : turn) :
  ∃ new,
    GameState.round_history (submit game_state t)
    = (GameState.round_history game_state ++ new)%list
    ∧ length new = if resolves game_state t then 1%nat else 0%nat.
Proof.
  destruct (GameState.game_completed game_state) eqn:Hgc.
  { exists []. rewrite submit_completed by done. unfold resolves.
    rewrite Hgc. by rewrite app_nil_r. }
  destruct (submit_outcomes game_state t Hgc) as [_ Hcases].
  destruct Hcases
    as [(_ & _ & Hres & _ & _ & Hh & _)
       |[(_ & _ & _ & Hres & _ & _ & Hh & _)
        |[(_ & _ & Hres & _ & _ & _ & Hh & _)
         |(_ & Hres & (result & Hh & _) & _)]]];
    rewrite Hres, Hh.
  4: by exists [result].
  all: exists []; by rewrite app_nil_r.
Qed.

Lemma play_attempts_bounded (game_state : GameState.t) (turns : list turn) :
  attempts_bounded game_state →
  rounds_found game_state turns →
  all_returned game_state turns →
  attempts_bounded (play game_state turns).
Proof.
  revert game_state.
  induction turns as [|t turns IH]; intros gs Hb Hf Hr; [done|].
  destruct Hf as [Hf1 Hf2]. destruct Hr as [Hr1 Hr2]. rewrite play_cons.
  apply IH; [by apply submit_attempts_bounded | done | done].
Qed.

Lemma play_summary_recorded (game_state : GameState.t) (turns : list turn) :
  summary_recorded game_state → summary_recorded (play game_state turns).
Proof.
  revert game_state. induction turns as [|t turns IH]; intros gs Hr; [done|].
  rewrite play_cons. by apply IH, submit_summary_recorded.
Qed.

Lemma play_history_recorded (game_state : GameState.t) (turns : list turn) :
  history_recorded game_state →
  summary_recorded game_state →
  all_returned game_state turns →
  history_recorded (play game_state turns).
Proof.
  revert game_state.
  induction turns as [|t turns IH]; intros gs Hh Hs Hr; [done|].
  destruct Hr as [Hr1 Hr2]. rewrite play_cons.
  apply IH; [by apply submit_history_recorded | by apply submit_summary_recorded
            | done].
Qed.

Lemma play_history_ordered (game_state : GameState.t) (turns : list turn) :
  history_ordered game_state → history_ordered (play game_state turns).
Proof.
  revert game_state. induction turns as [|t turns IH]; intros gs Hr; [done|].
  rewrite play_cons. by apply IH, submit_history_ordered.
Qed.

Lemma play_round_in_range (game_state : GameState.t) (turns : list turn) :
  GameState.current_round game_state ≤ GameState.max_rounds game_state →
  GameState.current_round (play game_state turns)
  ≤ GameState.max_rounds (play game_state turns).
Proof.
  revert game_state. induction turns as [|t turns IH]; intros gs Hr; [done|].
  rewrite play_cons. by apply IH, submit_round_in_range.
Qed.

Lemma play_max_rounds (game_state : GameState.t) (turns : list turn) :
  GameState.max_rounds (play game_state turns) = GameState.max_rounds game_state.
Proof.
  revert game_state. induction turns as [|t turns IH]; intros gs; [done|].
  rewrite play_cons, IH.
  destruct (GameState.game_completed gs) eqn:Hgc.
  - by rewrite submit_completed.
  - by destruct (submit_outcomes gs t Hgc) as [(_ & _ & _ & Hmr & _) _].
Qed.

Lemma play_round_capped (game_state : GameState.t) (turns : list turn) (cap : Z) :
  GameState.max_rounds game_state ≤ cap →
  GameState.current_round game_state ≤ cap →
  GameState.current_round (play game_state turns) ≤ cap.
Proof.
  revert game_state. induction turns as [|t turns IH]; intros gs Hmr Hcr; [done|].
  rewrite play_cons.
  destruct (GameState.game_completed gs) eqn:Hgc.
  { rewrite submit_completed by done. by apply IH. }
  destruct (submit_outcomes gs t Hgc) as [(_ & _ & _ & Hmr' & _) Hcases].
  apply IH; [by rewrite Hmr'|].
  destruct Hcases
    as [(_ & _ & _ & _ & -> & _)
       |[(_ & _ & _ & _ & _ & -> & _)
        |[(_ & _ & _ & _ & _ & -> & _)
         |(_ & _ & _ & [(_ & -> & _)|(Hlt & _ & -> & _)])]]];
    lia.
Qed.

Lemma play_history_prefix (game_state : GameState.t) (turns : list turn) :
  GameState.round_history game_state
    `prefix_of` GameState.round_history (play game_state turns).
Proof.
  revert game_state. induction turns as [|t turns IH]; intros gs; [done|].
  rewrite play_cons. etrans; [|apply IH].
  destruct (submit_history_grows gs t) as (new & -> & _).
  by apply prefix_app_r.
Qed.

Lemma play_history_length (game_state : GameState.t) (turns : list turn) :
  length (GameState.round_history (play game_state turns))
  = (length (GameState.round_history game_state)
     + resolved_count game_state turns)%nat.
Proof.
  revert game_state. induction turns as [|t turns IH]; intros gs.
  - simpl. lia.
  - rewrite play_cons, IH. simpl.
    destruct (submit_history_grows gs t) as (new & -> & Hlen).
    rewrite length_app, Hlen. lia.
Qed.

(** Totals within [2 ^ 1023] keep the division of the summary in range, so
    no submission raises. *)
Lemma total_of_bounded (bound : Z) (results : list RoundResult.t) :
  Forall (fun result =>
            Z.abs (MultiRoundEvaluationResult.total_score
                     (RoundResult.evaluation result)) ≤ bound) results →
  Z.abs (total_of results) ≤ bound * Z.of_nat (length results).
Proof.
  induction 1 as [|r results Hr _ IH]; simpl; [lia|].
  fold (total_of results). lia.
Qed.

Lemma submit_modest (bound : Z) (game_state : GameState.t) (t : turn) :
  bound ≤ 2 ^ 1023 →
  Forall (fun result =>
            Z.abs (MultiRoundEvaluationResult.total_score
                     (RoundResult.evaluation result)) ≤ bound)
         (GameState.round_history game_state) →
  modest bound game_state t →
  raised game_state t = None
  ∧ Forall (fun result =>
              Z.abs (MultiRoundEvaluationResult.total_score
                       (RoundResult.evaluation result)) ≤ bound)
           (GameState.round_history (submit game_state t)).
Proof.
  intros Hbound Hsmall Hmodest.
  destruct (GameState.game_completed game_state) eqn:Hgc.
  { by rewrite submit_completed, raised_completed. }
  destruct (submit_outcomes game_state t Hgc) as [(_ & _ & _ & Hmr & _) Hcases].
  destruct Hcases
    as [(_ & Hret & _ & _ & _ & Hh & _)
       |[(_ & Hret & _ & _ & _ & _ & Hh & _)
        |[(_ & Hret & _ & _ & _ & _ & Hh & _)
         |(_ & _ & (result & Hh & _ & _ & sc & rd & Hlook & Hrd & Hev) & Hnext)]]];
    try (by rewrite Hh).
  assert (Hsmall' :
    Forall (fun result =>
              Z.abs (MultiRoundEvaluationResult.total_score
                       (RoundResult.evaluation result)) ≤ bound)
           (GameState.round_history (submit game_state t))).
  { rewrite Hh. apply Forall_app. split; [done|].
    constructor; [|constructor]. rewrite Hev. by apply (Hmodest sc rd). }
  split; [|done].
  destruct Hnext as [(_ & _ & _ & sc' & _ & Hsummary)|(_ & Hret & _)]; [|done].
  destruct (RoleplayGameEngine._create_scenario_completion _ sc')
    as [e|completion] eqn:Hc; [|by destruct Hsummary].
  apply create_scenario_completion_raises in Hc as [_ Hlt]. cbv zeta in Hlt.
  assert (Hpassed :
    Forall (fun result =>
              Z.abs (MultiRoundEvaluationResult.total_score
                       (RoundResult.evaluation result)) ≤ bound)
           (passed_results (GameState.round_history (submit game_state t)))).
  { unfold passed_results. generalize Hsmall'.
    generalize (GameState.round_history (submit game_state t)).
    induction 1 as [|r rs Hr _ IH]; simpl; [constructor|].
    destruct (MultiRoundEvaluationResult.passed (RoundResult.evaluation r));
      [by constructor | done]. }
  apply total_of_bounded in Hpassed. nia.
Qed.

Lemma play_modest (bound : Z) (game_state : GameState.t) (turns : list turn) :
  bound ≤ 2 ^ 1023 →
  Forall (fun result =>
            Z.abs (MultiRoundEvaluationResult.total_score
                     (RoundResult.evaluation result)) ≤ bound)
         (GameState.round_history game_state) →
  all_modest bound game_state turns →
  all_returned game_state turns.
Proof.
  intros Hbound. revert game_state.
  induction turns as [|t turns IH]; intros gs Hsmall Hmodest; [done|].
  destruct Hmodest as [Hm1 Hm2].
  destruct (submit_modest bound gs t Hbound Hsmall Hm1) as [Hret Hsmall'].
  split; [done|]. by apply IH.
Qed.

Lemma created_state (d : ScenarioDir) (scenario_name : option string)
    (language : string) (game_state : GameState.t) :
  RoleplayGameEngine.create_game_state d scenario_name language = Some game_state →
  GameState.attempts game_state = 0
  ∧ GameState.max_attempts game_state = MAX_ATTEMPTS
  ∧ GameState.round_attempts game_state = 0
  ∧ GameState.max_round_attempts game_state = 3
  ∧ GameState.current_round game_state = 1
  ∧ GameState.round_history game_state = []
  ∧ GameState.game_completed game_state = false
  ∧ GameState.final_score game_state = None
  ∧ GameState.scenario_completion game_state = None.
Proof.
  unfold RoleplayGameEngine.create_game_state. intros Hc.
  destruct (match scenario_name with
            | Some name =>
                if PyStr.truthy name then ScenarioLoader.load_scenario d name
                else ScenarioLoader.get_default_scenario d
            | None => ScenarioLoader.get_default_scenario d
            end) as [scenario|]; [|done].
  by injection Hc as <-.
Qed.

Lemma created_history_recorded (d : ScenarioDir) (scenario_name : option string)
    (language : string) (game_state : GameState.t) :
  RoleplayGameEngine.create_game_state d scenario_name language = Some game_state →
  history_recorded game_state.
Proof.
  intros (_ & _ & _ & _ & Hcr & Hh & _ & _ & Hsc)%created_state.
  split; unfold rounds_resolved; rewrite ?Hh, ?Hcr, ?Hsc; try done.
Qed.

Lemma created_history_ordered (d : ScenarioDir) (scenario_name : option string)
    (language : string) (game_state : GameState.t) :
  RoleplayGameEngine.create_game_state d scenario_name language = Some game_state →
  history_ordered game_state.
Proof.
  intros (_ & _ & _ & _ & Hcr & Hh & _ & _ & Hsc)%created_state.
  split; rewrite ?Hh, ?Hcr; simpl; [lia | constructor | constructor].
Qed.

Lemma created_summary_recorded (d : ScenarioDir) (scenario_name : option string)
    (language : string) (game_state : GameState.t) :
  RoleplayGameEngine.create_game_state d scenario_name language = Some game_state →
  summary_recorded game_state.
Proof.
  intros (_ & _ & _ & _ & Hcr & Hh & _ & _ & Hsc)%created_state.
  split; rewrite Hsc; done.
Qed.

Lemma created_attempts_bounded (d : ScenarioDir) (scenario_name : option string)
    (language : string) (game_state : GameState.t) :
  RoleplayGameEngine.create_game_state d scenario_name language = Some game_state →
  1 ≤ MAX_ATTEMPTS →
  attempts_bounded game_state.
Proof.
  intros (Ha & Hma & Hra & Hmra & _)%created_state Hmax.
  split; rewrite ?Ha, ?Hma, ?Hra, ?Hmra; lia.
Qed.

End invariants.

(** ** Playthroughs of a started session *)

(** A submission that ends in an exception is the one the handler answers
    with a 500, keeping in the session map the state as the engine left
    it; any other submission on an open session is answered with the
    updated state. *)
Lemma submit_response_outcome {rt : Runtime}
    (w : World) (game_sessions : gmap string GameState.t)
    (session_id parent_response : string) (game_state : GameState.t) :
  game_sessions !! session_id = Some game_state →
  GameState.game_completed game_state = false →
  let updated := submit game_state (w, parent_response) in
  Api.submit_response w game_sessions session_id parent_response
  = (match raised game_state (w, parent_response) with
     | Some e => HTTPException 500 (exn_str e)
     | None => Return updated
     end,
     <[session_id := updated]> game_sessions).
Proof.
  intros Hs Hopen. cbv zeta.
  unfold Api.submit_response, submit, raised. rewrite Hs, Hopen. simpl.
  by destruct (RoleplayGameEngine.process_parent_response _ _ _) as [? [?|]].
Qed.

(** C2, as amended.  For a session started under a configuration with
    [MAX_ATTEMPTS] at least 1, along submissions that each either find no
    scenario for the session's title or find one with data for the current
    round, and none of which ended in an exception (a 500 answer): after
    every submission [attempts] is at most [max_attempts] and
    [round_attempts] at most [max_round_attempts], both strictly below
    their caps while the session is open.  When a multi-round submission
    brings [round_attempts] to [max_round_attempts], the round is not
    retried: with the scenario found, a result for the current round, with
    [attempts_used] at the cap, is appended to the history; with no
    scenario found, the session is completed on the single-round path and
    the history is left as it is. *)
Theorem attempt_counters_within_caps {rt : Runtime}
    (d : ScenarioDir) (scenario_name : option string) (language : string)
    (game_state : GameState.t) (turns : list turn) :
  RoleplayGameEngine.create_game_state d scenario_name language = Some game_state →
  1 ≤ MAX_ATTEMPTS →
  rounds_found game_state turns →
  all_returned game_state turns →
  let final := play game_state turns in
  GameState.attempts final ≤ GameState.max_attempts final
  ∧ GameState.round_attempts final ≤ GameState.max_round_attempts final
  ∧ (GameState.game_completed final = false →
     GameState.attempts final < GameState.max_attempts final
     ∧ GameState.round_attempts final < GameState.max_round_attempts final)
  ∧ ∀ t : turn,
      GameState.game_completed final = false →
      GameState.is_multi_round final = true →
      GameState.round_attempts final + 1 = GameState.max_round_attempts final →
      round_found final t →
      let updated := submit final t in
      match looked_up final t.1 with
      | Some _ =>
          ∃ result,
            GameState.round_history updated
            = (GameState.round_history final ++ [result])%list
            ∧ RoundResult.round_number result = GameState.current_round final
            ∧ RoundResult.attempts_used result = GameState.max_round_attempts final
      | None =>
          GameState.game_completed updated = true
          ∧ GameState.round_history updated = GameState.round_history final
      end.
Proof.
  intros Hcreated Hmax Hfound Hreturned final.
  pose proof (play_attempts_bounded game_state turns
                (created_attempts_bounded _ _ _ _ Hcreated Hmax) Hfound Hreturned)
    as [Ha Hra Hopen].
  fold final in Ha, Hra, Hopen.
  split_and!; [lia | lia | done |].
  intros t Hgc Hmulti Hcap Hround updated.
  destruct (submit_outcomes final t Hgc) as [_ Hcases].
  fold updated in Hcases. rewrite Hmulti in Hcases.
  destruct Hcases
    as [([Hno|Hlook] & _ & _ & _ & _ & Hh & _ & _ & Hdone)
       |[(_ & _ & (sc & Hlook & Hnone) & _)
        |[(_ & _ & _ & Hlt & _)
         |(_ & Hres & (result & Hh & Hrn & Hau & _) & _)]]].
  - done.
  - rewrite Hlook. split; [apply Hdone; lia | done].
  - by destruct (Hround Hgc Hmulti sc Hlook).
  - lia.
  - destruct (looked_up final t.1) eqn:Hlook.
    + exists result. rewrite Hau, Hcap. done.
    + unfold resolves in Hres. rewrite Hlook, andb_false_r in Hres. done.
Qed.

Lemma attempt_counters_within_caps_witness :
  let failing :=
    (Sample.world Sample.scenarios_dir (inr (Sample.multi_reply 2 true)),
     "Just go in") in
  ∃ game_state,
    RoleplayGameEngine.create_game_state (rt := Sample.runtime)
      Sample.scenarios_dir (Some "school_dropoff_anxiety") "en" = Some game_state
    ∧ all_returned (rt := Sample.runtime) game_state [failing; failing]
    ∧ let final := play (rt := Sample.runtime) game_state [failing; failing] in
      GameState.round_attempts final < GameState.max_round_attempts final
      ∧ ∃ result,
          GameState.round_history (submit (rt := Sample.runtime) final failing)
          = (GameState.round_history final ++ [result])%list
          ∧ RoundResult.round_number result = GameState.current_round final
          ∧ RoundResult.attempts_used result = GameState.max_round_attempts final.
Proof.
  intros failing.
  destruct (RoleplayGameEngine.create_game_state (rt := Sample.runtime)
              Sample.scenarios_dir (Some "school_dropoff_anxiety") "en")
    as [game_state|] eqn:Hcreated; [|by vm_compute in Hcreated].
  exists game_state. split; [reflexivity|].
  assert (Hgs : game_state
                = GameState.new "School Drop-off Anxiety"
                    "Your child clings to you at the school gate."
                    "I don't want to go to school!" 3 true 3 "en").
  { vm_compute in Hcreated. by injection Hcreated as <-. }
  assert (Hfound : rounds_found (rt := Sample.runtime) game_state [failing; failing]).
  { subst game_state. repeat split; intros _ _ sc Hsc;
      vm_compute in Hsc; injection Hsc as <-; by vm_compute. }
  assert (Hreturned :
    all_returned (rt := Sample.runtime) game_state [failing; failing]).
  { subst game_state. repeat split; vm_compute; reflexivity. }
  split; [exact Hreturned|]. intros final.
  destruct (attempt_counters_within_caps (rt := Sample.runtime)
              Sample.scenarios_dir (Some "school_dropoff_anxiety") "en" game_state
              [failing; failing] Hcreated ltac:(by vm_compute) Hfound Hreturned)
    as (_ & _ & Hopen & Hcap).
  fold final in Hopen, Hcap.
  assert (Hfinal : GameState.game_completed final = false
                   ∧ GameState.is_multi_round final = true
                   ∧ GameState.round_attempts final + 1
                     = GameState.max_round_attempts final).
  { subst final game_state. by vm_compute. }
  destruct Hfinal as (Hgc & Hmulti & Hlast).
  split; [by apply Hopen|].
  assert (Hround : round_found final failing).
  { subst final game_state. intros _ _ sc Hsc.
    vm_compute in Hsc. injection Hsc as <-. by vm_compute. }
  specialize (Hcap failing Hgc Hmulti Hlast Hround).
  cbv zeta in Hcap.
  destruct (looked_up final failing.1) eqn:Hlook; [exact Hcap|].
  subst final game_state. by vm_compute in Hlook.
Defined.

(** Where the unamended C2 fails.  First run: a multi-round session in
    Cantonese, whose title maps to no scenario file, so every submission
    takes the single-round fallback; the third failing submission brings
    [round_attempts] to the cap without a pass, the session is completed,
    and nothing is recorded in the history.  Second run: a multi-round
    session whose title contains "messy", which the engine maps to the
    single-round [messy_room]; that scenario has no round data, the attempt
    is only counted, and after four submissions [round_attempts] is above
    the cap.  Third run: with [MAX_ATTEMPTS] set to 0, one submission on a
    single-round session puts [attempts] above [max_attempts].  Fourth
    run: on the last round a reply with a total of [10 ^ 400] makes the
    summary's division raise after the attempt has been counted and the
    result recorded; the session stays open, and three failing submissions
    later [round_attempts] is above the cap. *)
Lemma attempts_cap_reached_without_record :
  (let failing :=
     (Sample.world Sample.scenarios_dir (inr (Sample.single_reply 1 1 1 3 false)),
      "Just go in") in
   ∃ game_state,
     RoleplayGameEngine.create_game_state (rt := Sample.runtime)
       Sample.scenarios_dir (Some "school_dropoff_anxiety") "zh-HK" = Some game_state
     ∧ let before := play (rt := Sample.runtime) game_state [failing; failing] in
       let after := submit (rt := Sample.runtime) before failing in
       GameState.is_multi_round before = true
       ∧ GameState.game_completed before = false
       ∧ GameState.round_attempts after = GameState.max_round_attempts after
       ∧ GameState.is_passed after = false
       ∧ EvaluationResult.passed <$> GameState.evaluation after = Some false
       ∧ GameState.game_completed after = true
       ∧ GameState.round_history after = []
       ∧ resolved_count (rt := Sample.runtime) game_state [failing; failing; failing]
         = 0%nat)
  ∧
  (let failing :=
     (Sample.world Sample.scenarios_dir (inr (Sample.multi_reply 2 false)),
      "Just clean it") in
   ∃ game_state,
     RoleplayGameEngine.create_game_state (rt := Sample.runtime)
       Sample.scenarios_dir (Some "messy_kitchen") "en" = Some game_state
     ∧ let after :=
         play (rt := Sample.runtime) game_state [failing; failing; failing; failing] in
       GameState.round_attempts after = 4
       ∧ GameState.max_round_attempts after = 3
       ∧ GameState.game_completed after = false
       ∧ GameState.round_history after = [])
  ∧
  (let no_attempts : Runtime := {|
     exn_str := exn_str (Runtime := Sample.runtime);
     lax_int_of_str := lax_int_of_str (Runtime := Sample.runtime);
     lax_bool_of_str := lax_bool_of_str (Runtime := Sample.runtime);
     MAX_ATTEMPTS := 0 |} in
   let failing :=
     (Sample.world Sample.scenarios_dir (inr (Sample.single_reply 1 1 1 3 false)),
      "Just clean it") in
   ∃ game_state,
     RoleplayGameEngine.create_game_state (rt := no_attempts)
       Sample.scenarios_dir (Some "messy_room") "en" = Some game_state
     ∧ let after := submit (rt := no_attempts) game_state failing in
       GameState.attempts after = 1 ∧ GameState.max_attempts after = 0)
  ∧
  (let scoring score :=
     (Sample.world Sample.scenarios_dir (inr (Sample.multi_reply score false)),
      "I hear you") in
   let turns :=
     [scoring 8; scoring 10; scoring (10 ^ 400); scoring 2; scoring 2; scoring 2] in
   ∃ game_state,
     RoleplayGameEngine.create_game_state (rt := Sample.runtime)
       Sample.scenarios_dir (Some "school_dropoff_anxiety") "en" = Some game_state
     ∧ let before := play (rt := Sample.runtime) game_state [scoring 8; scoring 10] in
       let after := play (rt := Sample.runtime) game_state turns in
       raised (rt := Sample.runtime) before (scoring (10 ^ 400)) = Some OverflowError
       ∧ GameState.round_attempts after = 4
       ∧ GameState.max_round_attempts after = 3
       ∧ GameState.game_completed after = false).
Proof.
  split_and!.
  - intros failing. eexists. split; [reflexivity|]. by vm_compute.
  - intros failing. eexists. split; [reflexivity|]. by vm_compute.
  - intros no_attempts failing. eexists. split; [reflexivity|]. by vm_compute.
  - intros scoring turns. eexists. split; [reflexivity|].
    cbv zeta. split_and!; vm_compute; reflexivity.
Qed.

(** C3.  A playthrough on which the history records the last round twice.
    Rounds 1 and 2 pass with totals 8 and 10.  The reply to the third
    submission gives round 3 a total of [10 ^ 400], above the threshold:
    the result is appended, and only then the summary is computed, where
    the float division of the total by 3 raises [OverflowError].  The
    handler answers 500; the session is left open on round 3 with the
    result in its history.  The next submission passes with 9: a second
    result numbered 3 is appended and the division raises again.  The
    history then holds four results for three rounds, with a repeated
    round number, on a session that is still open. *)
Theorem round_recorded_twice_after_overflow :
  let passing score :=
    (Sample.world Sample.scenarios_dir (inr (Sample.multi_reply score false)),
     "I hear you") in
  ∃ game_state,
    RoleplayGameEngine.create_game_state (rt := Sample.runtime)
      Sample.scenarios_dir (Some "school_dropoff_anxiety") "en" = Some game_state
    ∧ let before := play (rt := Sample.runtime) game_state [passing 8; passing 10] in
      let after := submit (rt := Sample.runtime) before (passing (10 ^ 400)) in
      let final := submit (rt := Sample.runtime) after (passing 9) in
      RoundResult.round_number <$> GameState.round_history before = [1; 2]
      ∧ raised (rt := Sample.runtime) before (passing (10 ^ 400)) = Some OverflowError
      ∧ RoundResult.round_number <$> GameState.round_history after = [1; 2; 3]
      ∧ GameState.game_completed after = false
      ∧ GameState.scenario_completion after = None
      ∧ GameState.current_round after = 3
      ∧ raised (rt := Sample.runtime) after (passing 9) = Some OverflowError
      ∧ RoundResult.round_number <$> GameState.round_history final = [1; 2; 3; 3]
      ∧ ¬ NoDup (RoundResult.round_number <$> GameState.round_history final)
      ∧ GameState.max_rounds final < Z.of_nat (length (GameState.round_history final))
      ∧ GameState.game_completed final = false.
Proof.
  intros passing. eexists. split; [reflexivity|].
  cbv zeta. split_and!; try (vm_compute; reflexivity).
  intros Hnodup. vm_compute in Hnodup.
  apply NoDup_cons in Hnodup as [_ Hnodup].
  apply NoDup_cons in Hnodup as [_ Hnodup].
  apply NoDup_cons in Hnodup as [Hin _].
  apply Hin, list_elem_of_here.
Qed.

(** C5.  A playthrough whose summary misses the mastery that every round
    earned.  Rounds 1 and 2 pass with totals 8 and 10.  The third
    submission passes round 3 with a total of [3 * 2 ^ 1024]: the result
    is recorded, the float division of the summary raises
    [OverflowError], the handler answers 500 and no summary is stored.
    The next submission passes round 3 again, with 9: a fourth result is
    recorded, the mean of the four totals is within the range of a float,
    and the summary is computed from four results for a scenario of three
    rounds.  Every result of the history passed, yet [rounds_passed] is 4,
    not [total_rounds], so [mastery_achieved] is false and the
    ["scenario_mastery"] badge is not earned. *)
Theorem mastery_missed_after_overflow :
  let passing score :=
    (Sample.world Sample.scenarios_dir (inr (Sample.multi_reply score false)),
     "I hear you") in
  ∃ game_state,
    RoleplayGameEngine.create_game_state (rt := Sample.runtime)
      Sample.scenarios_dir (Some "school_dropoff_anxiety") "en" = Some game_state
    ∧ let before := play (rt := Sample.runtime) game_state [passing 8; passing 10] in
      let after := submit (rt := Sample.runtime) before (passing (3 * 2 ^ 1024)) in
      let final := submit (rt := Sample.runtime) after (passing 9) in
      let summary := GameState.scenario_completion final in
      raised (rt := Sample.runtime) before (passing (3 * 2 ^ 1024))
      = Some OverflowError
      ∧ GameState.game_completed after = false
      ∧ GameState.scenario_completion after = None
      ∧ raised (rt := Sample.runtime) after (passing 9) = None
      ∧ GameState.game_completed final = true
      ∧ (fun result =>
           MultiRoundEvaluationResult.passed (RoundResult.evaluation result))
          <$> GameState.round_history final
        = [true; true; true; true]
      ∧ ScenarioCompletion.rounds_completed <$> summary = Some 4
      ∧ ScenarioCompletion.total_rounds <$> summary = Some 3
      ∧ ScenarioCompletion.rounds_passed <$> summary = Some 4
      ∧ ScenarioCompletion.mastery_achieved <$> summary = Some false
      ∧ ScenarioCompletion.badges_earned <$> summary = Some ["expert_communicator"].
Proof.
  intros passing. eexists. split; [reflexivity|].
  cbv zeta. split_and!; vm_compute; reflexivity.
Qed.

(** ** What holds along every playthrough, and what holds while no
       submission raises *)

(** X18.  Along every playthrough of a started session the round history only
    grows, its round numbers never decrease and lie between 1 and the
    current round.  While no submission has ended in an exception, the
    round numbers are 1, 2, ... in order, so strictly increasing and
    without duplicates; the history has one result for each round before
    the current one, and one more once the summary is stored; and its
    length is at most [max_rounds], or 1 for a scenario without rounds. *)
Theorem round_history_stays_ordered {rt : Runtime}
    (d : ScenarioDir) (scenario_name : option string) (language : string)
    (game_state : GameState.t) (turns : list turn) :
  RoleplayGameEngine.create_game_state d scenario_name language = Some game_state →
  let final := play game_state turns in
  let history := GameState.round_history final in
  let numbers := RoundResult.round_number <$> history in
  (∀ more : list turn, history `prefix_of` GameState.round_history (play final more))
  ∧ StronglySorted Z.le numbers
  ∧ Forall (fun n => 1 ≤ n ≤ GameState.current_round final) numbers
  ∧ (all_returned game_state turns →
     numbers = seqZ 1 (Z.of_nat (length history))
     ∧ StronglySorted Z.lt numbers
     ∧ NoDup numbers
     ∧ Z.of_nat (length history)
       = GameState.current_round final - 1
         + match GameState.scenario_completion final with
           | Some _ => 1
           | None => 0
           end
     ∧ Z.of_nat (length history) ≤ Z.max 1 (GameState.max_rounds final)).
Proof.
  intros Hcreated final history numbers.
  pose proof (created_state _ _ _ _ Hcreated)
    as (_ & _ & _ & _ & Hcr & Hh & _ & _ & _).
  destruct (play_history_ordered game_state turns
              (created_history_ordered _ _ _ _ Hcreated)) as [_ Hsorted Hrange].
  split_and!; [|done|done|].
  { intros more. apply play_history_prefix. }
  intros Hreturned.
  pose proof (play_history_recorded game_state turns
                (created_history_recorded _ _ _ _ Hcreated)
                (created_summary_recorded _ _ _ _ Hcreated) Hreturned)
    as [Hnum Hlen].
  fold final in Hnum, Hlen. fold history in Hnum, Hlen. fold numbers in Hnum.
  assert (Hcount :
    Z.of_nat (length history)
    = GameState.current_round final - 1
      + match GameState.scenario_completion final with
           | Some _ => 1
           | None => 0
           end).
  { rewrite Hlen. unfold rounds_resolved.
    by destruct (GameState.scenario_completion final). }
  split_and!; [done| | |done|].
  - rewrite Hnum. apply seqZ_sorted.
  - rewrite Hnum. apply NoDup_seqZ.
  - assert (Hcap : GameState.current_round final
                   ≤ Z.max 1 (GameState.max_rounds game_state)).
    { apply play_round_capped; lia. }
    assert (Hmr : GameState.max_rounds final = GameState.max_rounds game_state)
      by apply play_max_rounds.
    rewrite Hcount, Hmr.
    destruct (GameState.scenario_completion final); lia.
Qed.

Lemma round_history_stays_ordered_witness :
  let passing score :=
    (Sample.world Sample.scenarios_dir (inr (Sample.multi_reply score false)),
     "I hear you") in
  ∃ game_state,
    RoleplayGameEngine.create_game_state (rt := Sample.runtime)
      Sample.scenarios_dir (Some "school_dropoff_anxiety") "en" = Some game_state
    ∧ all_returned (rt := Sample.runtime) game_state
        [passing 7; passing 2; passing 9]
    ∧ let final :=
        play (rt := Sample.runtime) game_state [passing 7; passing 2; passing 9] in
      RoundResult.round_number <$> GameState.round_history final = [1; 2]
      ∧ Z.of_nat (length (GameState.round_history final)) ≤ 3.
Proof.
  intros passing.
  destruct (RoleplayGameEngine.create_game_state (rt := Sample.runtime)
              Sample.scenarios_dir (Some "school_dropoff_anxiety") "en")
    as [game_state|] eqn:Hcreated; [|by vm_compute in Hcreated].
  exists game_state. split; [reflexivity|].
  assert (Hgs : game_state
                = GameState.new "School Drop-off Anxiety"
                    "Your child clings to you at the school gate."
                    "I don't want to go to school!" 3 true 3 "en").
  { vm_compute in Hcreated. by injection Hcreated as <-. }
  assert (Hreturned :
    all_returned (rt := Sample.runtime) game_state
      [passing 7; passing 2; passing 9]).
  { subst game_state. repeat split; vm_compute; reflexivity. }
  split; [exact Hreturned|]. intros final.
  destruct (round_history_stays_ordered (rt := Sample.runtime)
              Sample.scenarios_dir (Some "school_dropoff_anxiety") "en" game_state
              [passing 7; passing 2; passing 9] Hcreated)
    as (_ & _ & _ & Hrest).
  destruct (Hrest Hreturned) as (Hnum & _ & _ & _ & Hmax).
  fold final in Hnum, Hmax.
  assert (Hfinal : Z.of_nat (length (GameState.round_history final)) = 2
                   ∧ GameState.max_rounds final = 3).
  { subst final game_state. split; vm_compute; reflexivity. }
  destruct Hfinal as (Hlen & Hmr).
  split.
  - rewrite Hnum, Hlen. reflexivity.
  - rewrite Hmr in Hmax. exact Hmax.
Defined.

Lemma Qle_9_quotient (a b : Z) :
  0 < b → (9 <= inject_Z a / inject_Z b)%Q ↔ 9 * b ≤ a.
Proof.
  intros Hb. destruct b as [|p|p]; try lia.
  rewrite <- Qmake_Qdiv. unfold Qle. simpl. lia.
Qed.

(** X19.  Whenever a playthrough of a started session has stored a summary, the
    session is completed on its last round and the summary is the one
    computed from its history: [overall_score] is 0 when no result passed
    and otherwise the float quotient of the sum of the passed totals by
    their number, within one part in [2 ^ 53] of their mean;
    [mastery_achieved] holds exactly when [rounds_passed] equals
    [total_rounds], and the ["scenario_mastery"] badge is earned exactly
    then; the ["expert_communicator"] badge is earned exactly when the
    float is at least 9, which for fewer than [2 ^ 50] passed results is
    when their mean is at least 9.  While no submission has ended in an
    exception, and for a scenario with at least one round, the summary
    counts one result per round, and mastery and its badge mean that every
    round passed. *)
Theorem summary_of_a_completed_playthrough {rt : Runtime}
    (d : ScenarioDir) (scenario_name : option string) (language : string)
    (game_state : GameState.t) (turns : list turn)
    (completion : ScenarioCompletion.t) :
  RoleplayGameEngine.create_game_state d scenario_name language = Some game_state →
  GameState.scenario_completion (play game_state turns) = Some completion →
  let final := play game_state turns in
  let history := GameState.round_history final in
  let passed := passed_results history in
  let every_round_passed :=
    Forall (fun result =>
              MultiRoundEvaluationResult.passed (RoundResult.evaluation result) = true)
           history in
  GameState.game_completed final = true
  ∧ GameState.max_rounds final ≤ GameState.current_round final
  ∧ (∃ scenario,
       RoleplayGameEngine._create_scenario_completion final scenario
       = inr completion)
  ∧ (passed = [] → ScenarioCompletion.overall_score completion = 0%Q)
  ∧ (passed ≠ [] →
     PyFloat.truediv (total_of passed) (Z.of_nat (length passed))
     = inr (ScenarioCompletion.overall_score completion))
  ∧ (passed ≠ [] → Z.of_nat (length passed) < 2 ^ 1022 →
     (Qabs (ScenarioCompletion.overall_score completion - mean_total_score passed)
        * inject_Z (2 ^ 53)
      <= Qabs (mean_total_score passed))%Q)
  ∧ ScenarioCompletion.rounds_passed completion = Z.of_nat (length passed)
  ∧ ScenarioCompletion.rounds_completed completion = Z.of_nat (length history)
  ∧ ScenarioCompletion.total_rounds completion = GameState.max_rounds final
  ∧ (ScenarioCompletion.mastery_achieved completion = true
     ↔ ScenarioCompletion.rounds_passed completion
       = ScenarioCompletion.total_rounds completion)
  ∧ ("scenario_mastery" ∈ ScenarioCompletion.badges_earned completion
     ↔ ScenarioCompletion.mastery_achieved completion = true)
  ∧ ("expert_communicator" ∈ ScenarioCompletion.badges_earned completion
     ↔ (9 <= ScenarioCompletion.overall_score completion)%Q)
  ∧ (Z.of_nat (length passed) < 2 ^ 50 →
     ("expert_communicator" ∈ ScenarioCompletion.badges_earned completion
      ↔ (9 <= mean_total_score passed)%Q))
  ∧ (all_returned game_state turns →
     1 ≤ GameState.max_rounds game_state →
     ScenarioCompletion.rounds_completed completion
     = ScenarioCompletion.total_rounds completion
     ∧ (ScenarioCompletion.mastery_achieved completion = true ↔ every_round_passed)
     ∧ ("scenario_mastery" ∈ ScenarioCompletion.badges_earned completion
        ↔ every_round_passed)).
Proof.
  intros Hcreated Hsummary final history passed every_round_passed.
  pose proof (created_state _ _ _ _ Hcreated)
    as (_ & _ & _ & _ & Hcr & _).
  destruct (play_summary_recorded game_state turns
              (created_summary_recorded _ _ _ _ Hcreated)) as [Hdone Hcomp].
  fold final in Hdone, Hcomp, Hsummary.
  destruct Hdone as [Hgc Hlast]; [by rewrite Hsummary|].
  destruct (Hcomp completion Hsummary) as [[scenario Heq] _].
  pose proof (create_scenario_completion_fields final scenario completion Heq)
    as Hfields.
  cbv zeta in Hfields. fold history in Hfields. fold passed in Hfields.
  destruct Hfields
    as (Hscore & Hpassed & Hcompleted & Htotal & Hmastery & Hbadge
        & Hall & Hexpert).
  assert (Hlen : passed ≠ [] → 0 < Z.of_nat (length passed)).
  { destruct passed; [done | simpl length; lia]. }
  split_and!; try done.
  - by exists scenario.
  - intros Hnone. by destruct (decide (passed = [])).
  - intros Hsome. by destruct (decide (passed = [])).
  - intros Hsome Hfew. destruct (decide (passed = [])) as [|_]; [done|].
    assert (Hmean : mean_total_score passed
                    = (inject_Z (total_of passed)
                       / inject_Z (Z.of_nat (length passed)))%Q).
    { unfold mean_total_score. by destruct passed. }
    rewrite Hmean. apply truediv_close; [by apply Hlen | done | done].
  - by rewrite Hmastery.
  - intros Hfew. rewrite Hexpert, <- Qle_bool_iff.
    destruct (decide (passed = [])) as [Hnone|Hsome].
    + rewrite Hscore, Hnone. done.
    + assert (Hmean : mean_total_score passed
                      = (inject_Z (total_of passed)
                         / inject_Z (Z.of_nat (length passed)))%Q).
      { unfold mean_total_score. by destruct passed. }
      rewrite Hmean, (Qle_9_quotient _ _ (Hlen Hsome)).
      destruct (truediv_ge_9 _ _ _ (Hlen Hsome) Hscore) as [Hup Hdown].
      split; [by apply Hdown | exact Hup].
  - intros Hreturned Hrounds.
    pose proof (play_history_recorded game_state turns
                  (created_history_recorded _ _ _ _ Hcreated)
                  (created_summary_recorded _ _ _ _ Hcreated) Hreturned)
      as [_ Hcount].
    fold final in Hcount. fold history in Hcount.
    assert (Hfull : ScenarioCompletion.rounds_completed completion
                    = ScenarioCompletion.total_rounds completion).
    { assert (Hrange : GameState.current_round final ≤ GameState.max_rounds final).
      { apply play_round_in_range. rewrite Hcr. done. }
      rewrite Hcompleted, Htotal, Hcount. unfold rounds_resolved.
      rewrite Hsummary. lia. }
    split_and!; [done| |by apply Hall].
    rewrite Hmastery, <- Hbadge. by apply Hall.
Qed.

Lemma summary_of_a_completed_playthrough_witness :
  let passing score :=
    (Sample.world Sample.scenarios_dir (inr (Sample.multi_reply score false)),
     "I hear you") in
  let turns := [passing 8; passing 10; passing 7] in
  ∃ game_state completion,
    RoleplayGameEngine.create_game_state (rt := Sample.runtime)
      Sample.scenarios_dir (Some "school_dropoff_anxiety") "en" = Some game_state
    ∧ GameState.scenario_completion (play (rt := Sample.runtime) game_state turns)
      = Some completion
    ∧ all_returned (rt := Sample.runtime) game_state turns
    ∧ PyFloat.truediv 25 3 = inr (ScenarioCompletion.overall_score completion)
    ∧ ScenarioCompletion.overall_score completion
      = (4691249611844267 # 562949953421312)%Q
    ∧ ScenarioCompletion.rounds_passed completion = 3
    ∧ ScenarioCompletion.mastery_achieved completion = true
    ∧ "scenario_mastery" ∈ ScenarioCompletion.badges_earned completion.
Proof.
  intros passing turns.
  destruct (RoleplayGameEngine.create_game_state (rt := Sample.runtime)
              Sample.scenarios_dir (Some "school_dropoff_anxiety") "en")
    as [game_state|] eqn:Hcreated; [|by vm_compute in Hcreated].
  assert (Hgs : game_state
                = GameState.new "School Drop-off Anxiety"
                    "Your child clings to you at the school gate."
                    "I don't want to go to school!" 3 true 3 "en").
  { vm_compute in Hcreated. by injection Hcreated as <-. }
  destruct (GameState.scenario_completion (play (rt := Sample.runtime) game_state turns))
    as [completion|] eqn:Hsummary;
    [|subst game_state; vm_compute in Hsummary; discriminate Hsummary].
  exists game_state, completion. split; [reflexivity|]. split; [exact Hsummary|].
  assert (Hreturned : all_returned (rt := Sample.runtime) game_state turns).
  { subst game_state. repeat split; vm_compute; reflexivity. }
  split; [exact Hreturned|].
  destruct (summary_of_a_completed_playthrough (rt := Sample.runtime)
              Sample.scenarios_dir (Some "school_dropoff_anxiety") "en" game_state
              turns completion Hcreated Hsummary)
    as (_ & _ & _ & _ & Hscore & _ & Hpassed & _ & Htotal & Hmastery & Hbadge & _).
  assert (Hhistory :
    Z.of_nat
      (length
         (passed_results
            (GameState.round_history (play (rt := Sample.runtime) game_state turns))))
    = 3
    ∧ total_of
        (passed_results
           (GameState.round_history (play (rt := Sample.runtime) game_state turns)))
      = 25
    ∧ passed_results
        (GameState.round_history (play (rt := Sample.runtime) game_state turns))
      ≠ []
    ∧ GameState.max_rounds (play (rt := Sample.runtime) game_state turns) = 3).
  { subst game_state. split_and!; try (vm_compute; reflexivity).
    vm_compute. discriminate. }
  destruct Hhistory as (Hlen & Htot & Hsome & Hmax).
  specialize (Hscore Hsome). rewrite Hlen, Htot in Hscore.
  assert (Hvalue : ScenarioCompletion.overall_score completion
                   = (4691249611844267 # 562949953421312)%Q).
  { assert (Hdiv : PyFloat.truediv 25 3
                   = inr (4691249611844267 # 562949953421312)%Q)
      by (vm_compute; reflexivity).
    rewrite Hdiv in Hscore. by injection Hscore as <-. }
  assert (Hthree : ScenarioCompletion.rounds_passed completion = 3)
    by congruence.
  assert (Hm : ScenarioCompletion.mastery_achieved completion = true).
  { apply Hmastery. congruence. }
  split; [exact Hscore|]. split; [exact Hvalue|].
  split; [exact Hthree|]. split; [exact Hm|]. apply Hbadge. exact Hm.
Defined.

(** X20.  A submission is answered with a 500 only in one situation: on the
    last round of a multi-round session, when the round is resolved and
    the total of the passed results is beyond what the float division of
    the summary can hold ([OverflowError]).  The result of the round has
    then been appended and the attempt counted, and the session is left
    open on the same round, without a summary, in the session map; so the
    round can be submitted, and recorded, again. *)
Theorem failed_submission_keeps_the_round {rt : Runtime}
    (w : World) (game_sessions : gmap string GameState.t)
    (session_id parent_response : string) (game_state : GameState.t) (e : exn) :
  game_sessions !! session_id = Some game_state →
  raised game_state (w, parent_response) = Some e →
  let updated := submit game_state (w, parent_response) in
  let passed := passed_results (GameState.round_history updated) in
  Api.submit_response w game_sessions session_id parent_response
  = (HTTPException 500 (exn_str e), <[session_id := updated]> game_sessions)
  ∧ e = OverflowError
  ∧ GameState.is_multi_round game_state = true
  ∧ GameState.max_rounds game_state ≤ GameState.current_round game_state
  ∧ (∃ result,
       GameState.round_history updated
       = (GameState.round_history game_state ++ [result])%list
       ∧ RoundResult.round_number result = GameState.current_round game_state
       ∧ RoundResult.attempts_used result
         = GameState.round_attempts game_state + 1)
  ∧ 2 ^ 1023 * Z.of_nat (length passed) < Z.abs (total_of passed)
  ∧ GameState.game_completed updated = false
  ∧ GameState.scenario_completion updated
    = GameState.scenario_completion game_state
  ∧ GameState.final_score updated = GameState.final_score game_state
  ∧ GameState.current_round updated = GameState.current_round game_state
  ∧ GameState.round_attempts updated = GameState.round_attempts game_state + 1.
Proof.
  intros Hs Hraised updated passed.
  destruct (GameState.game_completed game_state) eqn:Hgc.
  { by rewrite raised_completed in Hraised. }
  pose proof (submit_response_outcome w game_sessions session_id parent_response
                game_state Hs Hgc) as Hanswer.
  cbv zeta in Hanswer. rewrite Hraised in Hanswer. fold updated in Hanswer.
  destruct (submit_outcomes game_state (w, parent_response) Hgc) as [_ Hcases].
  fold updated in Hcases.
  destruct Hcases
    as [(_ & Hret & _)
       |[(_ & Hret & _)
        |[(_ & Hret & _)
         |(Hmulti & _ & (result & Hh & Hrn & Hau & _) & Hnext)]]];
    try congruence.
  destruct Hnext as [(Hlast & Hcr & Hra & sc & _ & Hsummary)|(_ & Hret & _)];
    [|congruence].
  destruct (RoleplayGameEngine._create_scenario_completion updated sc)
    as [e'|completion] eqn:Hc; [|destruct Hsummary; congruence].
  destruct Hsummary as (He & Hopen & Hsc & Hfs).
  assert (e' = e) as -> by congruence.
  apply create_scenario_completion_raises in Hc as [-> Hlt].
  split_and!; try done. by exists result.
Qed.

Lemma failed_submission_keeps_the_round_witness :
  let passing score :=
    (Sample.world Sample.scenarios_dir (inr (Sample.multi_reply score false)),
     "I hear you") in
  let before :=
    play (rt := Sample.runtime)
      (GameState.new "School Drop-off Anxiety"
         "Your child clings to you at the school gate."
         "I don't want to go to school!" 3 true 3 "en")
      [passing 8; passing 10] in
  let game_sessions : gmap string GameState.t := {["session_0" := before]} in
  raised (rt := Sample.runtime) before (passing (10 ^ 400)) = Some OverflowError
  ∧ (Api.submit_response (rt := Sample.runtime) (passing (10 ^ 400)).1
       game_sessions "session_0" "I hear you").1
    = HTTPException 500 "integer division result too large for a float"
  ∧ GameState.game_completed
      (submit (rt := Sample.runtime) before (passing (10 ^ 400))) = false
  ∧ GameState.round_attempts
      (submit (rt := Sample.runtime) before (passing (10 ^ 400))) = 1.
Proof.
  intros passing before game_sessions.
  assert (Hs : game_sessions !! "session_0" = Some before).
  { subst game_sessions. apply lookup_singleton_eq. }
  assert (Hraised :
    raised (rt := Sample.runtime) before
      ((passing (10 ^ 400)).1, "I hear you") = Some OverflowError).
  { vm_compute. reflexivity. }
  assert (Hattempts : GameState.round_attempts before = 0).
  { vm_compute. reflexivity. }
  destruct (failed_submission_keeps_the_round (rt := Sample.runtime)
              (passing (10 ^ 400)).1 game_sessions "session_0" "I hear you"
              before OverflowError Hs Hraised)
    as (Hanswer & _ & _ & _ & _ & _ & Hopen & _ & _ & _ & Hra).
  split; [exact Hraised|].
  split; [rewrite Hanswer; reflexivity|].
  split; [exact Hopen|].
  change (passing (10 ^ 400)) with ((passing (10 ^ 400)).1, "I hear you").
  rewrite Hra, Hattempts. reflexivity.
Defined.

(** X21.  While every total the evaluator reports is at most [2 ^ 1023] in
    magnitude, no submission of a playthrough of a started session ends
    in an exception. *)
Theorem modest_totals_never_raise {rt : Runtime}
    (d : ScenarioDir) (scenario_name : option string) (language : string)
    (game_state : GameState.t) (turns : list turn) :
  RoleplayGameEngine.create_game_state d scenario_name language = Some game_state →
  all_modest (2 ^ 1023) game_state turns →
  all_returned game_state turns.
Proof.
  intros Hcreated Hmodest.
  pose proof (created_state _ _ _ _ Hcreated)
    as (_ & _ & _ & _ & _ & Hh & _).
  apply (play_modest (2 ^ 1023)); [done | by rewrite Hh | done].
Qed.

Lemma modest_totals_never_raise_witness :
  let passing score :=
    (Sample.world Sample.scenarios_dir (inr (Sample.multi_reply score false)),
     "I hear you") in
  ∃ game_state,
    RoleplayGameEngine.create_game_state (rt := Sample.runtime)
      Sample.scenarios_dir (Some "school_dropoff_anxiety") "en" = Some game_state
    ∧ all_returned (rt := Sample.runtime) game_state
        [passing 8; passing (2 ^ 1023); passing 9].
Proof.
  intros passing.
  destruct (RoleplayGameEngine.create_game_state (rt := Sample.runtime)
              Sample.scenarios_dir (Some "school_dropoff_anxiety") "en")
    as [game_state|] eqn:Hcreated; [|by vm_compute in Hcreated].
  exists game_state. split; [reflexivity|].
  assert (Hgs : game_state
                = GameState.new "School Drop-off Anxiety"
                    "Your child clings to you at the school gate."
                    "I don't want to go to school!" 3 true 3 "en").
  { vm_compute in Hcreated. by injection Hcreated as <-. }
  apply (modest_totals_never_raise (rt := Sample.runtime)
           Sample.scenarios_dir (Some "school_dropoff_anxiety") "en");
    [exact Hcreated|].
  subst game_state.
  repeat split; intros sc rd Hsc Hrd;
    vm_compute in Hsc; injection Hsc as <-;
    vm_compute in Hrd; injection Hrd as <-;
    vm_compute; intros Hgt; discriminate Hgt.
Defined.

(** ** Worked examples *)

Example splitext_root_examples :
  PyStr.splitext_root "messy_room.yaml" = "messy_room"
  ∧ PyStr.splitext_root "a.b.yml" = "a.b"
  ∧ PyStr.splitext_root ".yaml" = ".yaml".
Proof. by vm_compute. Qed.

Example scenario_name_of_title_examples :
  RoleplayGameEngine.scenario_name_of_title "School Drop-off Anxiety"
  = "school_dropoff_anxiety"
  ∧ RoleplayGameEngine.scenario_name_of_title "Messy Kitchen Standoff" = "messy_room"
  ∧ RoleplayGameEngine.scenario_name_of_title "Bed-Time Story" = "bed_time_story".
Proof. by vm_compute. Qed.

Example list_scenarios_example :
  ScenarioLoader.list_scenarios Sample.scenarios_dir = ["messy_kitchen"; "messy_room"]
  ∧ ScenarioLoader.get_default_scenario Sample.scenarios_dir
    = Some Sample.messy_kitchen.
Proof. by vm_compute. Qed.

(** A passing response in each of three rounds: the session is completed,
    the history has three entries and mastery is achieved. *)
Example three_rounds_passed :
  let passing :=
    (Sample.world Sample.scenarios_dir (inr (Sample.multi_reply 9 false)),
     "I hear you") in
  ∃ game_state,
    RoleplayGameEngine.create_game_state (rt := Sample.runtime)
      Sample.scenarios_dir (Some "school_dropoff_anxiety") "en" = Some game_state
    ∧ let final := play (rt := Sample.runtime) game_state [passing; passing; passing] in
      GameState.game_completed final = true
      ∧ length (GameState.round_history final) = 3%nat
      ∧ ScenarioCompletion.mastery_achieved <$> GameState.scenario_completion final
        = Some true
      ∧ GameState.final_score final = Some 9.
Proof. intros passing. eexists. split; [reflexivity|]. by vm_compute. Qed.

(** [max_attempts] failing responses in a row on a single-round scenario:
    the session is completed and [final_score] stays unset. *)
Example single_round_attempts_exhausted :
  let failing :=
    (Sample.world Sample.scenarios_dir (inr (Sample.single_reply 1 1 1 3 false)),
     "Clean it now") in
  ∃ game_state,
    RoleplayGameEngine.create_game_state (rt := Sample.runtime)
      Sample.scenarios_dir (Some "messy_room") "en" = Some game_state
    ∧ GameState.game_completed
        (play (rt := Sample.runtime) game_state [failing; failing]) = false
    ∧ let final := play (rt := Sample.runtime) game_state [failing; failing; failing] in
      GameState.attempts final = GameState.max_attempts final
      ∧ GameState.game_completed final = true
      ∧ GameState.final_score final = None.
Proof. intros failing. eexists. split; [reflexivity|]. by vm_compute. Qed.

(** * Further properties of the roleplay code *)

(** ** Rounds of a scenario *)

(** X1.  [get_round_data] finds a round exactly for the round numbers 1 to
    [max_rounds] of a multi-round scenario, where it returns the entry of
    [rounds] at that position; [get_evaluation_criteria] and
    [get_pass_threshold] then read that entry, and outside that range (or on
    a single-round scenario) they fall back to the three legacy criteria and
    the threshold 7. *)
Theorem round_data_within_rounds (sc : Scenario) (round_number : Z) :
  (is_Some (Scenario.get_round_data sc round_number)
   ↔ Scenario.is_multi_round sc = true
     ∧ 1 ≤ round_number ≤ Scenario.max_rounds sc)
  ∧ (∀ round_data,
       Scenario.get_round_data sc round_number = Some round_data →
       (∃ rs, rounds sc = Some rs ∧ rs !! Z.to_nat (round_number - 1) = Some round_data)
       ∧ Scenario.get_evaluation_criteria sc round_number
         = evaluation_criteria round_data
       ∧ Scenario.get_pass_threshold sc round_number = pass_threshold round_data)
  ∧ (Scenario.get_round_data sc round_number = None →
     Scenario.get_evaluation_criteria sc round_number
     = ["tone_score"; "approach_score"; "respect_score"]
     ∧ Scenario.get_pass_threshold sc round_number = 7).
Proof.
  unfold Scenario.get_evaluation_criteria, Scenario.get_pass_threshold.
  split_and!.
  - unfold Scenario.get_round_data, Scenario.max_rounds, Scenario.is_multi_round,
      Scenario.rounds_truthy.
    destruct (multi_round sc); simpl.
    2: { split; [by intros [? ?] | by intros [? _]]. }
    destruct (rounds sc) as [[|r rs]|]; simpl.
    + split; [by intros [? ?] | intros [_ ?]; lia].
    + destruct (0 <=? round_number - 1) eqn:Hlo; simpl.
      * destruct (round_number - 1 <? _) eqn:Hhi.
        -- apply Z.leb_le in Hlo. apply Z.ltb_lt in Hhi. split; [intros _; lia|].
           intros _. apply lookup_lt_is_Some. simpl length. lia.
        -- apply Z.ltb_ge in Hhi. split; [by intros [? ?] | intros [_ ?]; lia].
      * apply Z.leb_gt in Hlo. split; [by intros [? ?] | intros [_ ?]; lia].
    + split; [by intros [? ?] | by intros [? _]].
  - intros round_data Hrd. rewrite Hrd. split; [|done].
    unfold Scenario.get_round_data in Hrd.
    destruct (negb _ || negb _); [done|].
    destruct (rounds sc) as [rs|]; [|done].
    destruct (_ && _); [|done]. by exists rs.
  - by intros ->.
Qed.

Lemma round_data_within_rounds_witness :
  is_Some (Scenario.get_round_data Sample.school_dropoff_anxiety 3)
  ∧ Scenario.get_pass_threshold Sample.school_dropoff_anxiety 1 = 6
  ∧ Scenario.get_pass_threshold Sample.school_dropoff_anxiety 4 = 7.
Proof.
  destruct (round_data_within_rounds Sample.school_dropoff_anxiety 3) as (Hin & _ & _).
  destruct (round_data_within_rounds Sample.school_dropoff_anxiety 1) as (_ & Hread & _).
  destruct (round_data_within_rounds Sample.school_dropoff_anxiety 4) as (_ & _ & Hout).
  split; [apply Hin; by vm_compute|].
  split.
  - destruct (Scenario.get_round_data Sample.school_dropoff_anxiety 1)
      as [round_data|] eqn:Hrd; [|by vm_compute in Hrd].
    destruct (Hread round_data eq_refl) as (_ & _ & ->).
    vm_compute in Hrd. by injection Hrd as <-.
  - apply Hout. by vm_compute.
Defined.

(** ** The scenario store, continued *)

(** X2.  The listing does not depend on the order in which the operating
    system returns the directory entries: two directories whose entries are
    the same up to order list the same scenario names, in the same order. *)
Theorem list_scenarios_ignores_listing_order (d d' : ScenarioDir)
    (files files' : list string) :
  listdir d = Some files →
  listdir d' = Some files' →
  files ≡ₚ files' →
  ScenarioLoader.list_scenarios d = ScenarioLoader.list_scenarios d'.
Proof.
  intros Hd Hd' Hperm. unfold ScenarioLoader.list_scenarios.
  rewrite Hd, Hd'. unfold ScenarioLoader.sorted.
  apply (StronglySorted_unique String.le).
  - apply StronglySorted_merge_sort; apply _.
  - apply StronglySorted_merge_sort; apply _.
  - rewrite !merge_sort_Permutation, !foldl_collect. simpl.
    unfold visible_names. by rewrite Hperm.
Qed.

Lemma list_scenarios_ignores_listing_order_witness :
  ScenarioLoader.list_scenarios
    {| listdir := Some ["b.yaml"; "notes.txt"; "a.yml"]; read_yaml := fun _ => None |}
  = ScenarioLoader.list_scenarios
      {| listdir := Some ["a.yml"; "b.yaml"; "notes.txt"]; read_yaml := fun _ => None |}.
Proof.
  eapply list_scenarios_ignores_listing_order; [reflexivity | reflexivity |].
  change ["b.yaml"; "notes.txt"; "a.yml"] with (["b.yaml"; "notes.txt"] ++ ["a.yml"])%list.
  change ["a.yml"; "b.yaml"; "notes.txt"] with (["a.yml"] ++ ["b.yaml"; "notes.txt"])%list.
  apply Permutation_app_comm.
Defined.

Lemma foldl_load (d : ScenarioDir) (names : list string) (acc : list Scenario) :
  foldl (fun scenarios scenario_name =>
           match ScenarioLoader.load_scenario d scenario_name with
           | Some scenario => (scenarios ++ [scenario])%list
           | None => scenarios
           end) acc names
  = (acc ++ omap (ScenarioLoader.load_scenario d) names)%list.
Proof.
  revert acc. induction names as [|n names IH]; intros acc; simpl.
  - by rewrite app_nil_r.
  - rewrite IH. destruct (ScenarioLoader.load_scenario d n); [|done].
    by rewrite <- app_assoc.
Qed.

(** X3.  [load_all_scenarios] returns, in listing order, the scenarios of
    the listed names that load; a name whose document is missing or broken
    is skipped without affecting the others, and nothing is ever loaded
    under the hidden name ["school_dropoff_anxiety"]. *)
Theorem load_all_scenarios_loads_listed (d : ScenarioDir) :
  ScenarioLoader.load_all_scenarios d
  = omap (ScenarioLoader.load_scenario d) (ScenarioLoader.list_scenarios d)
  ∧ (∀ scenario,
       scenario ∈ ScenarioLoader.load_all_scenarios d
       ↔ ∃ name, name ∈ ScenarioLoader.list_scenarios d
                 ∧ name ≠ "school_dropoff_anxiety"
                 ∧ ScenarioLoader.load_scenario d name = Some scenario)
  ∧ (length (ScenarioLoader.load_all_scenarios d)
     ≤ length (ScenarioLoader.list_scenarios d))%nat.
Proof.
  assert (Hall : ScenarioLoader.load_all_scenarios d
                 = omap (ScenarioLoader.load_scenario d)
                        (ScenarioLoader.list_scenarios d)).
  { unfold ScenarioLoader.load_all_scenarios. by rewrite foldl_load. }
  assert (Hhid : "school_dropoff_anxiety" ∉ ScenarioLoader.list_scenarios d).
  { unfold ScenarioLoader.list_scenarios. destruct (listdir d) as [files|].
    - unfold ScenarioLoader.sorted. rewrite merge_sort_Permutation, foldl_collect.
      apply hidden_not_visible.
    - apply not_elem_of_nil. }
  split_and!; [done| |].
  - intros scenario. rewrite Hall, list_elem_of_omap. split.
    + intros (name & Hin & Hload). exists name. split_and!; [done| |done].
      intros ->. by apply Hhid.
    + intros (name & Hin & _ & Hload). by exists name.
  - rewrite Hall. generalize (ScenarioLoader.list_scenarios d) as names.
    induction names as [|n names IH]; simpl; [lia|].
    unfold omap in IH. destruct (ScenarioLoader.load_scenario d n); simpl; lia.
Qed.

(** ** Cleaning the model output *)

Lemma slice_until_last_app (a suffix : string) :
  PyStr.slice_until_last (String.length suffix) (a ++ suffix) = a.
Proof.
  unfold PyStr.slice_until_last. rewrite string_length_app.
  replace (String.length a + String.length suffix - String.length suffix)%nat
    with (String.length a) by lia.
  apply substring_app_l.
Qed.

Lemma prefix_app_cancel (a p s : string) :
  String.prefix (a ++ p) (a ++ s) = String.prefix p s.
Proof.
  induction a as [|c a IH]; simpl; [done|].
  destruct (ascii_dec c c); [exact IH | contradiction].
Qed.

Lemma prefix_app (p s : string) : String.prefix p (p ++ s) = true.
Proof.
  induction p as [|c p IH]; simpl; [by destruct s|].
  destruct (ascii_dec c c); [exact IH | contradiction].
Qed.

Lemma slice_from_app (a b : string) :
  PyStr.slice_from (String.length a) (a ++ b) = b.
Proof.
  unfold PyStr.slice_from. rewrite string_length_app.
  replace (String.length a + String.length b - String.length a)%nat
    with (String.length b) by lia.
  apply substring_app_r.
Qed.

(** X4.  What [_clean_json_output] removes, for any [strip]: an output
    that, once stripped, is wrapped in a [```json] fence and a closing
    fence is reduced to its stripped body; an output with neither is only
    stripped; and an output whose opening fence carries no [json] tag keeps
    that opening fence, only the closing one being removed. *)
Theorem clean_json_output_removes_json_fence (strip : string → string)
    (output body : string) :
  (strip output = "```json" ++ body ++ "```" →
   EvaluationAgent._clean_json_output strip output = strip body)
  ∧ (PyStr.startswith (strip output) "```json" = false →
     PyStr.endswith (strip output) "```" = false →
     EvaluationAgent._clean_json_output strip output = strip (strip output))
  ∧ (strip output = "```" ++ body ++ "```" →
     PyStr.startswith (body ++ "```") "json" = false →
     EvaluationAgent._clean_json_output strip output = strip ("```" ++ body)).
Proof.
  unfold EvaluationAgent._clean_json_output. split_and!.
  - intros ->.
    unfold PyStr.startswith. rewrite prefix_app.
    pose proof (slice_from_app "```json" (body ++ "```")) as Hopening.
    pose proof (slice_until_last_app body "```") as Hclosing.
    change (String.length "```json") with 7%nat in Hopening.
    change (String.length "```") with 3%nat in Hclosing.
    by rewrite Hopening, endswith_app, Hclosing.
  - intros -> ->. done.
  - intros -> Hplain.
    assert (Hstart : PyStr.startswith ("```" ++ body ++ "```") "```json" = false).
    { unfold PyStr.startswith in *.
      change "```json" with ("```" ++ "json").
      by rewrite (prefix_app_cancel "```" "json" (body ++ "```")). }
    rewrite Hstart.
    change ("```" ++ body ++ "```") with (("```" ++ body) ++ "```").
    pose proof (slice_until_last_app ("```" ++ body) "```") as Hclosing.
    change (String.length "```") with 3%nat in Hclosing.
    by rewrite endswith_app, Hclosing.
Qed.

Lemma clean_json_output_removes_json_fence_witness :
  EvaluationAgent._clean_json_output Sample.strip
    (" ```json" ++ String "010" "{}" ++ String "010" "``` ")
  = "{}"
  ∧ EvaluationAgent._clean_json_output Sample.strip
      ("```" ++ String "010" "{}" ++ String "010" "```")
    = "```" ++ String "010" "{}".
Proof.
  split.
  - destruct (clean_json_output_removes_json_fence Sample.strip
                (" ```json" ++ String "010" "{}" ++ String "010" "``` ")
                (String "010" "{}" ++ String "010" EmptyString))
      as (Hfenced & _ & _).
    rewrite Hfenced; by vm_compute.
  - destruct (clean_json_output_removes_json_fence Sample.strip
                ("```" ++ String "010" "{}" ++ String "010" "```")
                (String "010" "{}" ++ String "010" EmptyString))
      as (_ & _ & Hplain).
    rewrite Hplain; by vm_compute.
Defined.

(** ** Replies that do not fit the result models *)

Section reply_facts.
Context {rt : Runtime}.

Lemma validate_dict_empty {T : Type} (f : json → option T) :
  Pydantic.validate_dict f (JDict ∅) = Some ∅.
Proof.
  unfold Pydantic.validate_dict.
  rewrite decide_True by apply map_Forall_empty. by rewrite omap_empty.
Qed.

Lemma evaluation_from_dict_missing (d : gmap string json) (key : string) :
  key ∈ ["tone_score"; "approach_score"; "respect_score"; "total_score";
         "feedback"; "passed"] →
  d !! key = None →
  ∃ missing, EvaluationResult.from_dict (JDict d) = inl (KeyError missing)
             ∧ d !! missing = None.
Proof.
  intros Hkey Hnone. unfold EvaluationResult.from_dict. simpl.
  destruct (d !! "tone_score") eqn:H1; [|by exists "tone_score"]. simpl.
  destruct (d !! "approach_score") eqn:H2; [|by exists "approach_score"]. simpl.
  destruct (d !! "respect_score") eqn:H3; [|by exists "respect_score"]. simpl.
  destruct (d !! "total_score") eqn:H4; [|by exists "total_score"]. simpl.
  destruct (d !! "feedback") eqn:H5; [|by exists "feedback"]. simpl.
  destruct (d !! "passed") eqn:H6; [|by exists "passed"]. simpl.
  repeat (apply elem_of_cons in Hkey as [->|Hkey]; [congruence|]).
  by apply elem_of_nil in Hkey.
Qed.

End reply_facts.

(** X5.  The single-round [evaluate] answers every reply it cannot use
    with the fallback result: when the model call or the decoding raised,
    when the decoded value is not an object, and when the object lacks any
    of the six fields.  The fallback scores 2, 2 and 2, totals 6, does not
    pass, and its feedback is the error notice of the locale followed by
    the text of the exception; for a missing field that exception is the
    [KeyError] of a field the reply lacks. *)
Theorem evaluate_falls_back_on_unusable_reply {rt : Runtime}
    (reply : exn + json) (parent_response teen_opening language : string) :
  match reply with
  | inl _ => True
  | inr (JDict d) =>
      ∃ key, key ∈ ["tone_score"; "approach_score"; "respect_score"; "total_score";
                    "feedback"; "passed"]
             ∧ d !! key = None
  | inr _ => True
  end →
  let result :=
    EvaluationAgent.evaluate reply parent_response teen_opening language in
  EvaluationResult.tone_score result = 2
  ∧ EvaluationResult.approach_score result = 2
  ∧ EvaluationResult.respect_score result = 2
  ∧ EvaluationResult.total_score result = 6
  ∧ EvaluationResult.passed result = false
  ∧ ∃ e : exn,
      EvaluationResult.feedback result
      = (if String.eqb language "en"
         then "Evaluation system error, please retry. Error: "
         else "評估系統出現錯誤，請重試。錯誤：") ++ exn_str e
      ∧ match reply with
        | inl raised => e = raised
        | inr (JDict d) => ∃ missing, e = KeyError missing ∧ d !! missing = None
        | inr _ => e = TypeError
        end.
Proof.
  intros Hunusable result.
  assert (Htry : ∃ e, EvaluationAgent.evaluate_try reply = inl e
                      ∧ match reply with
                        | inl raised => e = raised
                        | inr (JDict d) =>
                            ∃ missing, e = KeyError missing ∧ d !! missing = None
                        | inr _ => e = TypeError
                        end).
  { unfold EvaluationAgent.evaluate_try.
    destruct reply as [raised|[| | | | |d]]; simpl; eauto.
    destruct Hunusable as (key & Hkey & Hnone).
    destruct (evaluation_from_dict_missing d key Hkey Hnone) as (missing & -> & Hm).
    eauto. }
  destruct Htry as (e & Htry & He).
  subst result. unfold EvaluationAgent.evaluate. rewrite Htry.
  unfold EvaluationAgent._create_fallback_evaluation. simpl.
  split_and!; try done. exists e. split; [|done].
  by destruct (String.eqb language "en").
Qed.

Lemma evaluate_falls_back_on_unusable_reply_witness :
  let result :=
    EvaluationAgent.evaluate (rt := Sample.runtime)
      (inr (JDict {[ "tone_score" := JInt 4; "total_score" := JInt 9 ]}))
      "I hear you" "Leave me alone" "en" in
  EvaluationResult.total_score result = 6
  ∧ EvaluationResult.passed result = false.
Proof.
  intros result.
  destruct (evaluate_falls_back_on_unusable_reply (rt := Sample.runtime)
              (inr (JDict {[ "tone_score" := JInt 4; "total_score" := JInt 9 ]}))
              "I hear you" "Leave me alone" "en")
    as (_ & _ & _ & Htotal & Hpassed & _).
  - exists "feedback". split; [|by vm_compute].
    do 4 right. left.
  - exact (conj Htotal Hpassed).
Defined.

(** X6.  What a multi-round reply must carry.  [total_score] and
    [feedback] suffice: with [criteria_scores] and [detailed_feedback]
    absent both maps of the result are empty, and whatever else the object
    holds, the result has the reply's total and feedback, the table maximum
    and the recomputed [passed].  Without [total_score], or with an integer
    total but without [feedback], the result is the fallback for the
    [KeyError] of that field. *)
Theorem multi_round_reply_needs_total_and_feedback {rt : Runtime}
    (d : gmap string json) (parent_response child_prompt : string)
    (criteria : list string) (threshold round_number : Z) (language : string) :
  let result :=
    EvaluationAgent.evaluate_multi_round (inr (JDict d)) parent_response
      child_prompt criteria threshold round_number language in
  (∀ (total : Z) (feedback : string),
     d !! "total_score" = Some (JInt total) →
     d !! "feedback" = Some (JStr feedback) →
     d !! "criteria_scores" = None →
     d !! "detailed_feedback" = None →
     result
     = MultiRoundEvaluationResult.mk ∅ total
         (Py.sum (EvaluationAgent.max_score <$> criteria)) feedback ∅
         (threshold <=? total) round_number)
  ∧ (d !! "total_score" = None →
     result
     = EvaluationAgent._create_fallback_multi_round_evaluation
         (exn_str (KeyError "total_score")) criteria round_number language)
  ∧ (∀ total : Z,
       d !! "total_score" = Some (JInt total) →
       d !! "feedback" = None →
       result
       = EvaluationAgent._create_fallback_multi_round_evaluation
           (exn_str (KeyError "feedback")) criteria round_number language).
Proof.
  intros result. subst result.
  unfold EvaluationAgent.evaluate_multi_round,
    EvaluationAgent.evaluate_multi_round_try.
  simpl. rewrite lookup_insert_ne by done.
  assert (Hframe : ∀ (passed : bool) (key : string),
            key ≠ "passed" → key ≠ "max_possible_score" →
            <["passed" := JBool passed]>
              (<["max_possible_score" :=
                   JInt (Py.sum (EvaluationAgent.max_score <$> criteria))]> d) !! key
            = d !! key).
  { intros passed key Hp Hm. by rewrite !lookup_insert_ne. }
  split_and!.
  - intros total feedback Ht Hf Hcs Hdf. rewrite Ht. simpl.
    unfold MultiRoundEvaluationResult.from_dict, Py.get, Py.getitem, bind.
    rewrite (Hframe _ "total_score"), (Hframe _ "feedback"),
      (Hframe _ "criteria_scores"), (Hframe _ "detailed_feedback") by done.
    rewrite Hcs, Ht, Hf, Hdf.
    rewrite lookup_insert_eq.
    rewrite (lookup_insert_ne _ "passed" "max_possible_score") by done.
    rewrite lookup_insert_eq. cbv beta iota.
    by rewrite !validate_dict_empty.
  - intros Ht. rewrite Ht. simpl.
    unfold MultiRoundEvaluationResult.from_dict, Py.get, Py.getitem, bind.
    rewrite (Hframe _ "total_score") by done. by rewrite Ht.
  - intros total Ht Hf. rewrite Ht. simpl.
    unfold MultiRoundEvaluationResult.from_dict, Py.get, Py.getitem, bind.
    rewrite (Hframe _ "total_score"), (Hframe _ "feedback") by done.
    by rewrite Ht, Hf.
Qed.

Lemma multi_round_reply_needs_total_and_feedback_witness :
  EvaluationAgent.evaluate_multi_round (rt := Sample.runtime)
    (inr (JDict {[ "total_score" := JInt 8; "feedback" := JStr "warm";
                   "passed" := JStr "no" ]}))
    "I hear you" "I am scared" ["fear_validation"; "child_agency"] 7 2 "en"
  = MultiRoundEvaluationResult.mk ∅ 8 7 "warm" ∅ true 2.
Proof.
  destruct (multi_round_reply_needs_total_and_feedback (rt := Sample.runtime)
              {[ "total_score" := JInt 8; "feedback" := JStr "warm";
                 "passed" := JStr "no" ]}
              "I hear you" "I am scared" ["fear_validation"; "child_agency"] 7 2 "en")
    as (Hminimal & _ & _).
  rewrite (Hminimal 8 "warm"); by vm_compute.
Defined.

(** X7.  [respond] on a reply it cannot use (the call or the decoding
    raised, the value is not an object, [response] is missing or is not a
    string, or [emotion] is present but not a string) returns the stock
    reply chosen by the score alone: cooperative from 7 upwards, defensive
    below, each in English for ["en"] and in Cantonese for any other
    locale. *)
Theorem respond_falls_back_by_score {rt : Runtime}
    (reply : exn + json) (score : Z) (context language : string) :
  match reply with
  | inl _ => True
  | inr (JDict d) =>
      (∀ text, d !! "response" ≠ Some (JStr text))
      ∨ (∃ other, d !! "emotion" = Some other ∧ ∀ text, other ≠ JStr text)
  | inr _ => True
  end →
  let result := TeenResponderAgent.respond reply score context language in
  TeenResponse.emotion result = (if 7 <=? score then "cooperative" else "defensive")
  ∧ TeenResponse.response result
    = if String.eqb language "en"
      then if 7 <=? score then "Okay, I understand what you're saying"
           else "I don't want to talk about this right now"
      else if 7 <=? score then "好啦，我明白你嘅意思"
           else "我而家唔想講呢啲".
Proof.
  intros Hunusable result.
  assert (Hfallback :
    result = TeenResponderAgent._create_fallback_response score language).
  { subst result. unfold TeenResponderAgent.respond.
    destruct reply as [raised|[| | | | |d]]; try done.
    simpl. unfold TeenResponse.from_dict. simpl.
    destruct (d !! "response") as [[| | |text| |]|] eqn:Hr; simpl; try done.
    - destruct Hunusable as [Hno|(other & He & Hother)]; [by destruct (Hno text)|].
      rewrite He. destruct other; simpl; try done. by destruct (Hother s).
  }
  rewrite Hfallback. unfold TeenResponderAgent._create_fallback_response.
  by destruct (String.eqb language "en"), (7 <=? score).
Qed.

Lemma respond_falls_back_by_score_witness :
  TeenResponse.emotion
    (TeenResponderAgent.respond (rt := Sample.runtime)
       (inr (JDict {[ "reply" := JStr "ok" ]})) 8 "kitchen" "en")
  = "cooperative".
Proof.
  destruct (respond_falls_back_by_score (rt := Sample.runtime)
              (inr (JDict {[ "reply" := JStr "ok" ]})) 8 "kitchen" "en")
    as [Hemotion _].
  - left. intros text. by vm_compute.
  - exact Hemotion.
Defined.

(** X8.  [respond] on a reply whose [response] is a string returns that
    text whatever the score, the context and the locale; its [emotion] is
    the reply's when that is a string and ["neutral"] when the reply has
    none. *)
Theorem respond_keeps_the_reply {rt : Runtime}
    (d : gmap string json) (text : string) (score : Z) (context language : string) :
  d !! "response" = Some (JStr text) →
  (d !! "emotion" = None →
   TeenResponderAgent.respond (inr (JDict d)) score context language
   = TeenResponse.mk text "neutral")
  ∧ (∀ emotion,
       d !! "emotion" = Some (JStr emotion) →
       TeenResponderAgent.respond (inr (JDict d)) score context language
       = TeenResponse.mk text emotion).
Proof.
  intros Hr. unfold TeenResponderAgent.respond, TeenResponse.from_dict. simpl.
  rewrite Hr. simpl. split.
  - by intros ->.
  - by intros emotion ->.
Qed.

Lemma respond_keeps_the_reply_witness :
  TeenResponderAgent.respond (rt := Sample.runtime)
    (inr (JDict {[ "response" := JStr "fine"; "emotion" := JStr "reluctant" ]})) 2
    "kitchen" "zh-HK"
  = TeenResponse.mk "fine" "reluctant".
Proof.
  destruct (respond_keeps_the_reply (rt := Sample.runtime)
              {[ "response" := JStr "fine"; "emotion" := JStr "reluctant" ]}
              "fine" 2 "kitchen" "zh-HK") as [_ Hemotion].
  - vm_compute. reflexivity.
  - apply (Hemotion "reluctant"). vm_compute. reflexivity.
Defined.

(** ** What a submission leaves alone *)

Section frame_facts.
Context {rt : Runtime}.

Lemma single_round_frame (w : World) (g : GameState.t) (text : string) :
  let updated := RoleplayGameEngine._process_single_round_response w g text in
  GameState.scenario_title updated = GameState.scenario_title g
  ∧ GameState.scenario_background updated = GameState.scenario_background g
  ∧ GameState.teen_opening updated = GameState.teen_opening g
  ∧ GameState.language updated = GameState.language g
  ∧ GameState.multi_round_evaluation updated = GameState.multi_round_evaluation g.
Proof.
  unfold RoleplayGameEngine._process_single_round_response. cbv zeta.
  destruct (EvaluationResult.passed _); [by destruct g|].
  destruct (negb _); by destruct g.
Qed.

Lemma multi_round_frame (w : World) (g : GameState.t) (text : string)
    (scenario : Scenario) :
  let updated :=
    (RoleplayGameEngine._process_multi_round_response w g text scenario).1 in
  GameState.scenario_title updated = GameState.scenario_title g
  ∧ GameState.scenario_background updated = GameState.scenario_background g
  ∧ GameState.teen_opening updated = GameState.teen_opening g
  ∧ GameState.language updated = GameState.language g
  ∧ GameState.attempts updated = GameState.attempts g
  ∧ GameState.evaluation updated = GameState.evaluation g.
Proof.
  unfold RoleplayGameEngine._process_multi_round_response.
  destruct (Scenario.get_round_data scenario (GameState.current_round g))
    as [round_data|]; [|done].
  cbv zeta.
  destruct (MultiRoundEvaluationResult.passed _ || _); [|by destruct g].
  destruct (_ <=? _).
  - destruct (RoleplayGameEngine._create_scenario_completion _ _); by destruct g.
  - unfold GameState.advance_to_next_round.
    destruct (_ && _); by destruct g.
Qed.

(** The fields a submission never writes. *)
Lemma submit_frame (game_state : GameState.t) (t : turn) :
  let updated := submit game_state t in
  GameState.scenario_title updated = GameState.scenario_title game_state
  ∧ GameState.scenario_background updated = GameState.scenario_background game_state
  ∧ GameState.teen_opening updated = GameState.teen_opening game_state
  ∧ GameState.language updated = GameState.language game_state
  ∧ GameState.is_multi_round updated = GameState.is_multi_round game_state
  ∧ GameState.max_attempts updated = GameState.max_attempts game_state
  ∧ GameState.max_rounds updated = GameState.max_rounds game_state
  ∧ GameState.max_round_attempts updated = GameState.max_round_attempts game_state.
Proof.
  cbv zeta.
  destruct (GameState.game_completed game_state) eqn:Hgc.
  { by rewrite submit_completed. }
  destruct (submit_outcomes game_state t Hgc) as [(Hm & Hma & Hmra & Hmr & _) _].
  rewrite Hm, Hma, Hmra, Hmr. rewrite (submit_open _ _ Hgc).
  destruct (increment_attempt_fields game_state t.2)
    as (_ & _ & _ & _ & _ & _ & _ & _ & _ & _ & Htitle & Hlang).
  destruct (increment_attempt_frame game_state t.2) as (Hbg & Hto & _).
  set (g := GameState.increment_attempt
              (GameState.set_parent_response game_state t.2)) in *.
  destruct (single_round_frame t.1 g t.2) as (Ht1 & Hb1 & Ho1 & Hl1 & _).
  assert (Hsingle :
    let updated := RoleplayGameEngine._process_single_round_response t.1 g t.2 in
    GameState.scenario_title updated = GameState.scenario_title game_state
    ∧ GameState.scenario_background updated = GameState.scenario_background game_state
    ∧ GameState.teen_opening updated = GameState.teen_opening game_state
    ∧ GameState.language updated = GameState.language game_state).
  { cbv zeta. by rewrite Ht1, Hb1, Ho1, Hl1, Htitle, Hbg, Hto, Hlang. }
  destruct (looked_up game_state t.1) as [scenario|].
  2: { destruct Hsingle as (? & ? & ? & ?). done. }
  destruct (GameState.is_multi_round game_state).
  2: { destruct Hsingle as (? & ? & ? & ?). done. }
  destruct (multi_round_frame t.1 g t.2 scenario) as (Ht2 & Hb2 & Ho2 & Hl2 & _).
  by rewrite Ht2, Hb2, Ho2, Hl2, Htitle, Hbg, Hto, Hlang.
Qed.

End frame_facts.

(** X9.  What a session shows of its scenario is fixed when it is
    started: no sequence of submissions changes the title, the background,
    the opening line, the locale, the kind of session or any of the three
    caps.  So every submission looks the scenario up under the same file
    name. *)
Theorem session_snapshot_is_fixed {rt : Runtime}
    (game_state : GameState.t) (turns : list turn) :
  let final := play game_state turns in
  GameState.scenario_title final = GameState.scenario_title game_state
  ∧ GameState.scenario_background final = GameState.scenario_background game_state
  ∧ GameState.teen_opening final = GameState.teen_opening game_state
  ∧ GameState.language final = GameState.language game_state
  ∧ GameState.is_multi_round final = GameState.is_multi_round game_state
  ∧ GameState.max_attempts final = GameState.max_attempts game_state
  ∧ GameState.max_rounds final = GameState.max_rounds game_state
  ∧ GameState.max_round_attempts final = GameState.max_round_attempts game_state
  ∧ ∀ w : World, looked_up final w = looked_up game_state w.
Proof.
  cbv zeta. revert game_state.
  induction turns as [|t turns IH]; intros game_state; [done|].
  rewrite play_cons.
  destruct (IH (submit game_state t))
    as (Ht & Hb & Ho & Hl & Hm & Hma & Hmr & Hmra & Hlook).
  destruct (submit_frame game_state t)
    as (Ht' & Hb' & Ho' & Hl' & Hm' & Hma' & Hmr' & Hmra').
  rewrite Ht, Hb, Ho, Hl, Hm, Hma, Hmr, Hmra.
  split_and!; try done.
  intros w. rewrite Hlook. unfold looked_up. by rewrite Ht'.
Qed.

(** ** Every session ends *)

Section budget_facts.
Context {rt : Runtime}.

Lemma submissions_left_completed (game_state : GameState.t) :
  GameState.game_completed game_state = true → submissions_left game_state = 0.
Proof. intros Hgc. unfold submissions_left. by rewrite Hgc. Qed.

(** An open session within its caps can take at least one submission. *)
Lemma submissions_left_open (game_state : GameState.t) :
  attempts_bounded game_state →
  GameState.current_round game_state ≤ GameState.max_rounds game_state →
  GameState.game_completed game_state = false →
  1 ≤ submissions_left game_state.
Proof.
  intros [Ha Hra Hopen] Hcr Hgc. destruct (Hopen Hgc) as [Ha' Hra'].
  unfold submissions_left. rewrite Hgc.
  destruct (GameState.is_multi_round game_state); nia.
Qed.

Lemma submissions_left_nonneg (game_state : GameState.t) :
  attempts_bounded game_state →
  GameState.current_round game_state ≤ GameState.max_rounds game_state →
  0 ≤ submissions_left game_state.
Proof.
  intros Hb Hcr. destruct (GameState.game_completed game_state) eqn:Hgc.
  - by rewrite submissions_left_completed.
  - pose proof (submissions_left_open _ Hb Hcr Hgc). lia.
Qed.

(** Each accepted submission uses up at least one. *)
Lemma submit_uses_budget (game_state : GameState.t) (t : turn) :
  attempts_bounded game_state →
  round_found game_state t →
  raised game_state t = None →
  GameState.current_round game_state ≤ GameState.max_rounds game_state →
  GameState.game_completed game_state = false →
  submissions_left (submit game_state t) ≤ submissions_left game_state - 1.
Proof.
  intros Hb Hfound Hreturned Hcr Hgc.
  pose proof (submissions_left_open _ Hb Hcr Hgc) as Hone.
  destruct (GameState.game_completed (submit game_state t)) eqn:Hgc'.
  { rewrite (submissions_left_completed _ Hgc'). lia. }
  destruct Hb as [Ha Hra Hopen]. destruct (Hopen Hgc) as [Ha' Hra'].
  destruct (submit_outcomes game_state t Hgc)
    as [(Hm & Hma & Hmra & Hmr & Hatt) Hcases].
  unfold submissions_left in *. rewrite Hgc', Hgc, Hm, Hma, Hmra, Hmr, Hatt in *.
  destruct Hcases
    as [(_ & _ & _ & Hr & Hc & _)
       |[(Hmulti & _ & (sc & Hlook & Hnone) & _)
        |[(Hmulti & _ & _ & _ & Hr & Hc & _)
         |(Hmulti & _ & _ & [(_ & _ & _ & sc & _ & Hsummary)
                            |(_ & _ & Hc & Hr & _)])]]].
  - rewrite Hr, Hc. destruct (GameState.is_multi_round game_state); lia.
  - by destruct (Hfound Hgc Hmulti sc Hlook).
  - rewrite Hr, Hc, Hmulti. lia.
  - destruct (RoleplayGameEngine._create_scenario_completion _ sc);
      destruct Hsummary as (? & ? & _); congruence.
  - rewrite Hr, Hc, Hmulti. nia.
Qed.

Lemma play_completed (game_state : GameState.t) (turns : list turn) :
  GameState.game_completed game_state = true → play game_state turns = game_state.
Proof.
  intros Hgc. induction turns as [|t turns IH]; [done|].
  by rewrite play_cons, submit_completed.
Qed.

Lemma accepted_count_completed (game_state : GameState.t) (turns : list turn) :
  GameState.game_completed game_state = true →
  accepted_count game_state turns = 0%nat.
Proof.
  intros Hgc. induction turns as [|t turns IH]; [done|].
  simpl. by rewrite Hgc, submit_completed.
Qed.

Lemma play_uses_budget (game_state : GameState.t) (turns : list turn) :
  attempts_bounded game_state →
  rounds_found game_state turns →
  all_returned game_state turns →
  GameState.current_round game_state ≤ GameState.max_rounds game_state →
  submissions_left (play game_state turns)
  ≤ Z.max 0 (submissions_left game_state - Z.of_nat (length turns))
  ∧ Z.of_nat (accepted_count game_state turns) ≤ submissions_left game_state.
Proof.
  revert game_state. induction turns as [|t turns IH]; intros gs Hb Hf Hr Hcr.
  { simpl. pose proof (submissions_left_nonneg _ Hb Hcr). lia. }
  destruct Hf as [Hf1 Hf2]. destruct Hr as [Hr1 Hr2]. rewrite play_cons.
  destruct (GameState.game_completed gs) eqn:Hgc.
  - rewrite submit_completed, play_completed by done.
    rewrite accepted_count_completed by done.
    rewrite submissions_left_completed by done. lia.
  - pose proof (submit_uses_budget gs t Hb Hf1 Hr1 Hcr Hgc) as Hstep.
    destruct (IH (submit gs t)) as [Hleft Hacc];
      [by apply submit_attempts_bounded | done | done
      | by apply submit_round_in_range |].
    cbn [accepted_count length]. rewrite Hgc. lia.
Qed.

End budget_facts.

(** X10.  A started session whose submissions all return cannot be played
    forever.  With [MAX_ATTEMPTS] at least 1, a scenario of at least one
    round, and submissions that each find no scenario or find one with the
    current round, none of them ending in an exception: a single-round
    session takes at most [MAX_ATTEMPTS] submissions and a multi-round
    session at most three for each of its rounds; once that many have
    been sent the session is completed, and the engine never accepts more
    than that many. *)
Theorem session_ends_within_budget {rt : Runtime}
    (d : ScenarioDir) (scenario_name : option string) (language : string)
    (game_state : GameState.t) (turns : list turn) :
  RoleplayGameEngine.create_game_state d scenario_name language = Some game_state →
  1 ≤ MAX_ATTEMPTS →
  1 ≤ GameState.max_rounds game_state →
  rounds_found game_state turns →
  all_returned game_state turns →
  let budget :=
    if GameState.is_multi_round game_state
    then 3 * GameState.max_rounds game_state
    else MAX_ATTEMPTS in
  submissions_left game_state = budget
  ∧ Z.of_nat (accepted_count game_state turns) ≤ budget
  ∧ (budget ≤ Z.of_nat (length turns) →
     GameState.game_completed (play game_state turns) = true).
Proof.
  intros Hcreated Hmax Hrounds Hfound Hreturned budget.
  pose proof (created_state _ _ _ _ Hcreated)
    as (Ha & Hma & Hra & Hmra & Hcr & _ & Hgc & _).
  pose proof (created_attempts_bounded _ _ _ _ Hcreated Hmax) as Hb.
  assert (Hrange : GameState.current_round game_state
                   ≤ GameState.max_rounds game_state) by lia.
  assert (Hbudget : submissions_left game_state = budget).
  { subst budget. unfold submissions_left. rewrite Hgc, Ha, Hma, Hra, Hmra, Hcr.
    destruct (GameState.is_multi_round game_state); lia. }
  destruct (play_uses_budget game_state turns Hb Hfound Hreturned Hrange)
    as [Hleft Hacc].
  split_and!; [done | lia |].
  intros Hlong.
  destruct (GameState.game_completed (play game_state turns)) eqn:Hend; [done|].
  pose proof (submissions_left_open (play game_state turns)
                (play_attempts_bounded _ _ Hb Hfound Hreturned)
                (play_round_in_range _ _ Hrange) Hend).
  lia.
Qed.

Lemma session_ends_within_budget_witness :
  let failing :=
    (Sample.world Sample.scenarios_dir (inr (Sample.multi_reply 2 true)),
     "Just go in") in
  let turns :=
    [failing; failing; failing; failing; failing; failing; failing; failing;
     failing] in
  ∃ game_state,
    RoleplayGameEngine.create_game_state (rt := Sample.runtime)
      Sample.scenarios_dir (Some "school_dropoff_anxiety") "en" = Some game_state
    ∧ all_returned (rt := Sample.runtime) game_state turns
    ∧ submissions_left game_state = 9
    ∧ GameState.game_completed (play (rt := Sample.runtime) game_state turns) = true.
Proof.
  intros failing turns.
  destruct (RoleplayGameEngine.create_game_state (rt := Sample.runtime)
              Sample.scenarios_dir (Some "school_dropoff_anxiety") "en")
    as [game_state|] eqn:Hcreated; [|by vm_compute in Hcreated].
  exists game_state. split; [reflexivity|].
  assert (Hgs : game_state
                = GameState.new "School Drop-off Anxiety"
                    "Your child clings to you at the school gate."
                    "I don't want to go to school!" 3 true 3 "en").
  { vm_compute in Hcreated. by injection Hcreated as <-. }
  assert (Hfound : rounds_found (rt := Sample.runtime) game_state turns).
  { subst game_state turns. repeat split; intros _ _ sc Hsc;
      vm_compute in Hsc; first [discriminate Hsc | injection Hsc as <-; by vm_compute]. }
  assert (Hreturned : all_returned (rt := Sample.runtime) game_state turns).
  { subst game_state turns. repeat split; vm_compute; reflexivity. }
  split; [exact Hreturned|].
  assert (Hmulti : GameState.is_multi_round game_state = true
                   ∧ GameState.max_rounds game_state = 3).
  { rewrite Hgs. split; vm_compute; reflexivity. }
  destruct Hmulti as [Hmulti Hthree].
  destruct (session_ends_within_budget (rt := Sample.runtime)
              Sample.scenarios_dir (Some "school_dropoff_anxiety") "en" game_state
              turns Hcreated)
    as (Hbudget & _ & Hends);
    [vm_compute; discriminate | rewrite Hthree; lia | exact Hfound
    | exact Hreturned |].
  rewrite Hmulti, Hthree in Hbudget, Hends.
  split; [exact Hbudget|]. apply Hends. vm_compute. discriminate.
Defined.

(** ** The two kinds of session *)

Section mode_facts.
Context {rt : Runtime}.

(** A submission on a single-round session leaves the multi-round part of
    the state alone and counts the attempt when it is accepted. *)
Lemma submit_single_round (game_state : GameState.t) (t : turn) :
  GameState.is_multi_round game_state = false →
  let updated := submit game_state t in
  GameState.round_attempts updated = GameState.round_attempts game_state
  ∧ GameState.current_round updated = GameState.current_round game_state
  ∧ GameState.round_history updated = GameState.round_history game_state
  ∧ GameState.multi_round_evaluation updated
    = GameState.multi_round_evaluation game_state
  ∧ GameState.scenario_completion updated = GameState.scenario_completion game_state
  ∧ GameState.attempts updated
    = GameState.attempts game_state
      + (if GameState.game_completed game_state then 0 else 1).
Proof.
  intros Hsingle. cbv zeta.
  destruct (GameState.game_completed game_state) eqn:Hgc.
  { rewrite submit_completed by done. split_and!; try done. lia. }
  destruct (submit_outcomes game_state t Hgc) as [(_ & _ & _ & _ & Hatt) Hcases].
  rewrite Hsingle in Hatt, Hcases.
  destruct Hcases
    as [(_ & _ & _ & Hr & Hc & Hh & Hsc & _)|[(?&_)|[(?&_)|(?&_)]]]; try done.
  split_and!; try done.
  rewrite (submit_open _ _ Hgc), Hsingle.
  destruct (increment_attempt_frame game_state t.2) as (_ & _ & _ & Hmre & _).
  set (g := GameState.increment_attempt
              (GameState.set_parent_response game_state t.2)) in *.
  destruct (single_round_frame t.1 g t.2) as (_ & _ & _ & _ & Hmre').
  destruct (looked_up game_state t.1); by rewrite Hmre', Hmre.
Qed.

Lemma submit_multi_round_attempts (game_state : GameState.t) (t : turn) :
  GameState.is_multi_round game_state = true →
  GameState.attempts (submit game_state t) = GameState.attempts game_state.
Proof.
  intros Hmulti.
  destruct (GameState.game_completed game_state) eqn:Hgc.
  { by rewrite submit_completed. }
  destruct (submit_outcomes game_state t Hgc) as [(_ & _ & _ & _ & Hatt) _].
  by rewrite Hmulti in Hatt.
Qed.

Lemma submit_is_multi_round (game_state : GameState.t) (t : turn) :
  GameState.is_multi_round (submit game_state t)
  = GameState.is_multi_round game_state.
Proof.
  destruct (GameState.game_completed game_state) eqn:Hgc.
  { by rewrite submit_completed. }
  by destruct (submit_outcomes game_state t Hgc) as [(Hm & _) _].
Qed.

End mode_facts.

(** X11.  The two attempt counters never mix.  On a single-round session
    no sequence of submissions touches the round counter, the current
    round, the round history, the round evaluation or the completion
    summary, and [attempts] grows by exactly the number of submissions the
    engine accepted.  On a multi-round session [attempts] is never
    changed, also when the engine falls back to the single-round path. *)
Theorem attempt_counters_do_not_mix {rt : Runtime}
    (game_state : GameState.t) (turns : list turn) :
  let final := play game_state turns in
  if GameState.is_multi_round game_state
  then GameState.attempts final = GameState.attempts game_state
  else
    GameState.round_attempts final = GameState.round_attempts game_state
    ∧ GameState.current_round final = GameState.current_round game_state
    ∧ GameState.round_history final = GameState.round_history game_state
    ∧ GameState.multi_round_evaluation final
      = GameState.multi_round_evaluation game_state
    ∧ GameState.scenario_completion final
      = GameState.scenario_completion game_state
    ∧ GameState.attempts final
      = GameState.attempts game_state
        + Z.of_nat (accepted_count game_state turns).
Proof.
  cbv zeta. revert game_state.
  induction turns as [|t turns IH]; intros game_state.
  { simpl. destruct (GameState.is_multi_round game_state); [done|].
    split_and!; try done. lia. }
  rewrite play_cons. specialize (IH (submit game_state t)).
  rewrite submit_is_multi_round in IH.
  destruct (GameState.is_multi_round game_state) eqn:Hmulti.
  - by rewrite IH, submit_multi_round_attempts.
  - destruct IH as (Hr & Hc & Hh & Hmre & Hsc & Hatt).
    destruct (submit_single_round game_state t Hmulti)
      as (Hr' & Hc' & Hh' & Hmre' & Hsc' & Hatt').
    rewrite Hr, Hc, Hh, Hmre, Hsc, Hatt, Hr', Hc', Hh', Hmre', Hsc', Hatt'.
    split_and!; try done.
    cbn [accepted_count]. destruct (GameState.game_completed game_state); lia.
Qed.

(** ** The state queries on a played session *)

Section query_facts.
Context {rt : Runtime}.

Lemma multi_round_no_pending_pass (w : World) (g : GameState.t) (text : string)
    (scenario : Scenario) :
  GameState.is_multi_round g = true →
  no_pending_pass g →
  no_pending_pass
    (RoleplayGameEngine._process_multi_round_response w g text scenario).1.
Proof.
  intros Hmulti Hg. unfold RoleplayGameEngine._process_multi_round_response.
  destruct (Scenario.get_round_data scenario (GameState.current_round g))
    as [round_data|]; [|done].
  cbv zeta.
  set (evaluation := EvaluationAgent.evaluate_multi_round _ _ _ _ _ _ _).
  clear Hg. unfold no_pending_pass.
  destruct g as []. simpl in *. subst is_multi_round.
  destruct (MultiRoundEvaluationResult.passed evaluation) eqn:Hp; simpl.
  - destruct (max_rounds <=? current_round) eqn:Hlast; simpl.
    + destruct (RoleplayGameEngine._create_scenario_completion _ _); simpl;
        intros _ _ _; by apply Z.leb_le.
    + unfold GameState.advance_to_next_round. simpl.
      apply Z.leb_gt in Hlast. rewrite (proj2 (Z.ltb_lt _ _) Hlast). simpl. done.
  - destruct (max_round_attempts <=? round_attempts); simpl.
    + destruct (max_rounds <=? current_round) eqn:Hlast; simpl.
      * destruct (RoleplayGameEngine._create_scenario_completion _ _); simpl;
          intros _ _ _; by apply Z.leb_le.
      * unfold GameState.advance_to_next_round. simpl.
        apply Z.leb_gt in Hlast. rewrite (proj2 (Z.ltb_lt _ _) Hlast). simpl. done.
    + intros e [= <-]. congruence.
Qed.

Lemma submit_no_pending_pass (game_state : GameState.t) (t : turn) :
  no_pending_pass game_state → no_pending_pass (submit game_state t).
Proof.
  intros Hinv.
  destruct (GameState.game_completed game_state) eqn:Hgc.
  { by rewrite submit_completed. }
  rewrite (submit_open _ _ Hgc).
  destruct (increment_attempt_fields game_state t.2)
    as (Hm & _ & _ & _ & _ & Hcr & Hmr & _).
  destruct (increment_attempt_frame game_state t.2) as (_ & _ & _ & Hmre & _).
  set (g := GameState.increment_attempt
              (GameState.set_parent_response game_state t.2)) in *.
  assert (Hg : no_pending_pass g).
  { unfold no_pending_pass. by rewrite Hmre, Hmr, Hcr. }
  assert (Hsingle :
    no_pending_pass (RoleplayGameEngine._process_single_round_response t.1 g t.2)).
  { destruct (single_round_frame t.1 g t.2) as (_ & _ & _ & _ & Hmre').
    destruct (single_round_response t.1 g t.2)
      as (_ & _ & _ & _ & _ & _ & Hcr' & Hmr' & _).
    unfold no_pending_pass. by rewrite Hmre', Hmr', Hcr'. }
  destruct (looked_up game_state t.1) as [scenario|]; [|done].
  destruct (GameState.is_multi_round game_state) eqn:Hmulti; [|done].
  by apply multi_round_no_pending_pass.
Qed.

Lemma play_no_pending_pass (game_state : GameState.t) (turns : list turn) :
  no_pending_pass game_state → no_pending_pass (play game_state turns).
Proof.
  revert game_state. induction turns as [|t turns IH]; intros gs Hinv; [done|].
  rewrite play_cons. by apply IH, submit_no_pending_pass.
Qed.

Lemma created_no_pending_pass (d : ScenarioDir) (scenario_name : option string)
    (language : string) (game_state : GameState.t) :
  RoleplayGameEngine.create_game_state d scenario_name language = Some game_state →
  no_pending_pass game_state.
Proof.
  unfold RoleplayGameEngine.create_game_state. intros Hc.
  destruct (match scenario_name with
            | Some name =>
                if PyStr.truthy name then ScenarioLoader.load_scenario d name
                else ScenarioLoader.get_default_scenario d
            | None => ScenarioLoader.get_default_scenario d
            end) as [scenario|]; [|done].
  injection Hc as <-. by intros e.
Qed.

End query_facts.

(** X12.  What the state's own queries answer after any submissions on a
    started session (with [MAX_ATTEMPTS] at least 1, every submission
    finding no scenario or one with the current round, and none of them
    ending in an exception).  [can_retry] is
    the negation of [game_completed].  [can_advance_round] is false while
    the session is open, on a single-round session, and once the summary
    is there: the engine has already moved on after every resolved round,
    so in these states the manual [advance_to_next_round] of the engine
    returns the state as it is, whatever the directory holds. *)
Theorem queries_on_a_played_session {rt : Runtime}
    (d : ScenarioDir) (scenario_name : option string) (language : string)
    (game_state : GameState.t) (turns : list turn) :
  RoleplayGameEngine.create_game_state d scenario_name language = Some game_state →
  1 ≤ MAX_ATTEMPTS →
  rounds_found game_state turns →
  all_returned game_state turns →
  let final := play game_state turns in
  GameState.can_retry final = negb (GameState.game_completed final)
  ∧ (GameState.game_completed final = false
     ∨ GameState.is_multi_round final = false
     ∨ GameState.scenario_completion final ≠ None →
     GameState.can_advance_round final = false
     ∧ ∀ d' : ScenarioDir,
         RoleplayGameEngine.advance_to_next_round d' final = final).
Proof.
  intros Hcreated Hmax Hfound Hreturned final.
  pose proof (play_attempts_bounded game_state turns
                (created_attempts_bounded _ _ _ _ Hcreated Hmax) Hfound Hreturned)
    as [Ha Hra Hopen].
  pose proof (play_summary_recorded game_state turns
                (created_summary_recorded _ _ _ _ Hcreated))
    as [Hsum _].
  assert (Hpending : no_pending_pass final).
  { eapply play_no_pending_pass, created_no_pending_pass, Hcreated. }
  fold final in Ha, Hra, Hopen, Hsum.
  split.
  - unfold GameState.can_retry.
    destruct (GameState.game_completed final) eqn:Hgc.
    + by rewrite !andb_false_r, Tauto.if_same.
    + destruct (Hopen eq_refl) as [Ha' Hra'].
      rewrite (proj2 (Z.ltb_lt _ _) Ha'), (proj2 (Z.ltb_lt _ _) Hra').
      by destruct (GameState.is_multi_round final).
  - intros Hwhy.
    assert (Hno : GameState.can_advance_round final = false).
    { unfold GameState.can_advance_round.
      destruct (GameState.is_multi_round final) eqn:Hmulti; [|done].
      destruct (GameState.current_round final <? GameState.max_rounds final)
        eqn:Hmore; [|done].
      apply Z.ltb_lt in Hmore. simpl.
      destruct Hwhy as [Hgc|[?|Hsc]]; [|done|destruct (Hsum Hsc); lia].
      destruct (Hopen Hgc) as [_ Hra'].
      rewrite (proj2 (Z.leb_gt _ _) Hra'), orb_false_r.
      unfold GameState.is_passed. rewrite Hmulti.
      destruct (GameState.multi_round_evaluation final) as [e|] eqn:He; [|done].
      destruct (MultiRoundEvaluationResult.passed e) eqn:Hp; [|done].
      specialize (Hpending e He Hp). lia. }
    split; [done|]. intros d'.
    unfold RoleplayGameEngine.advance_to_next_round. by rewrite Hno.
Qed.

Lemma queries_on_a_played_session_witness :
  let failing :=
    (Sample.world Sample.scenarios_dir (inr (Sample.multi_reply 2 true)),
     "Just go in") in
  ∃ game_state,
    RoleplayGameEngine.create_game_state (rt := Sample.runtime)
      Sample.scenarios_dir (Some "school_dropoff_anxiety") "en" = Some game_state
    ∧ all_returned (rt := Sample.runtime) game_state [failing; failing]
    ∧ let final := play (rt := Sample.runtime) game_state [failing; failing] in
      GameState.can_retry final = true
      ∧ RoleplayGameEngine.advance_to_next_round Sample.scenarios_dir final = final.
Proof.
  intros failing.
  destruct (RoleplayGameEngine.create_game_state (rt := Sample.runtime)
              Sample.scenarios_dir (Some "school_dropoff_anxiety") "en")
    as [game_state|] eqn:Hcreated; [|by vm_compute in Hcreated].
  exists game_state. split; [reflexivity|].
  assert (Hgs : game_state
                = GameState.new "School Drop-off Anxiety"
                    "Your child clings to you at the school gate."
                    "I don't want to go to school!" 3 true 3 "en").
  { vm_compute in Hcreated. by injection Hcreated as <-. }
  assert (Hfound : rounds_found (rt := Sample.runtime) game_state [failing; failing]).
  { subst game_state. repeat split; intros _ _ sc Hsc;
      vm_compute in Hsc; injection Hsc as <-; by vm_compute. }
  assert (Hreturned :
    all_returned (rt := Sample.runtime) game_state [failing; failing]).
  { subst game_state. repeat split; vm_compute; reflexivity. }
  split; [exact Hreturned|]. intros final.
  assert (Hopen : GameState.game_completed final = false).
  { subst final. rewrite Hgs. vm_compute. reflexivity. }
  destruct (queries_on_a_played_session (rt := Sample.runtime)
              Sample.scenarios_dir (Some "school_dropoff_anxiety") "en" game_state
              [failing; failing] Hcreated)
    as (Hretry & Hadvance);
    [vm_compute; discriminate | exact Hfound | exact Hreturned |].
  fold final in Hretry, Hadvance.
  split.
  - rewrite Hretry, Hopen. reflexivity.
  - destruct Hadvance as [_ Hsame]; [left; exact Hopen|]. apply Hsame.
Defined.

(** ** A playthrough in which every round passes at once *)

Section mastery_facts.
Context {rt : Runtime}.

Lemma passed_results_id (history : list RoundResult.t) :
  Forall (fun result =>
            MultiRoundEvaluationResult.passed (RoundResult.evaluation result) = true)
         history →
  passed_results history = history.
Proof.
  unfold passed_results. induction 1 as [|r history Hr _ IH]; [done|].
  simpl. by rewrite Hr, IH.
Qed.

(** A passing submission on an open multi-round session at the start of a
    round: the round is recorded as passed on the first attempt, and the
    session moves to the next round or, on the last one, is completed with
    its summary when the summary can be computed. *)
Lemma submit_passes (game_state : GameState.t) (t : turn) :
  GameState.game_completed game_state = false →
  GameState.is_multi_round game_state = true →
  GameState.round_attempts game_state = 0 →
  passes game_state t = true →
  let updated := submit game_state t in
  GameState.is_multi_round updated = true
  ∧ GameState.max_rounds updated = GameState.max_rounds game_state
  ∧ (∃ result,
       GameState.round_history updated
       = (GameState.round_history game_state ++ [result])%list
       ∧ MultiRoundEvaluationResult.passed (RoundResult.evaluation result) = true
       ∧ RoundResult.attempts_used result = 1)
  ∧ if GameState.max_rounds game_state <=? GameState.current_round game_state
    then
      ∃ scenario,
        match RoleplayGameEngine._create_scenario_completion updated scenario with
        | inl e =>
            GameState.game_completed updated = false
            ∧ GameState.scenario_completion updated
              = GameState.scenario_completion game_state
        | inr completion =>
            GameState.game_completed updated = true
            ∧ GameState.scenario_completion updated = Some completion
            ∧ GameState.final_score updated
              = Some (int_of_Q (ScenarioCompletion.overall_score completion))
        end
    else
      GameState.game_completed updated = false
      ∧ GameState.current_round updated = GameState.current_round game_state + 1
      ∧ GameState.round_attempts updated = 0
      ∧ GameState.scenario_completion updated
        = GameState.scenario_completion game_state.
Proof.
  intros Hgc Hmulti Hzero Hpass. cbv zeta.
  unfold passes, round_evaluation in Hpass.
  destruct (looked_up game_state t.1) as [scenario|] eqn:Hlook; [|done].
  destruct (Scenario.get_round_data scenario (GameState.current_round game_state))
    as [round_data|] eqn:Hrd; [|done].
  rewrite (submit_open _ _ Hgc), Hlook, Hmulti.
  destruct (increment_attempt_fields game_state t.2)
    as (Hm & _ & Hra & _ & _ & Hcr & Hmr & Hh & Hgc' & Hsc & _ & Hlang).
  set (g := GameState.increment_attempt
              (GameState.set_parent_response game_state t.2)) in *.
  rewrite Hmulti in Hm, Hra.
  pose proof (multi_round_response t.1 g t.2 scenario Hm) as Hpath.
  cbv zeta in Hpath. rewrite Hcr, Hrd, Hlang, Hpass in Hpath.
  cbn [orb] in Hpath.
  destruct Hpath as (Hm' & _ & _ & _ & Hmr' & (result & Hh' & _ & Hau & Hev) & Hnext).
  rewrite Hmr in Hnext, Hmr'.
  split_and!; [done | done | |].
  - exists result. rewrite Hh', Hh, Hev, Hau, Hra, Hzero. done.
  - destruct (GameState.max_rounds game_state <=? GameState.current_round game_state).
    + destruct Hnext as (_ & _ & Hsummary). exists scenario.
      destruct (RoleplayGameEngine._create_scenario_completion _ scenario).
      * destruct Hsummary as (_ & Hopen & Hsc' & _).
        by rewrite Hopen, Hgc', Hsc', Hsc.
      * by destruct Hsummary as (_ & Hdone & Hsc' & Hfs).
    + destruct Hnext as (_ & Hcr' & Hra' & Hopen & Hsc').
      by rewrite Hopen, Hgc', Hsc', Hsc.
Qed.

Lemma all_pass_run (turns : list turn) (game_state : GameState.t) :
  GameState.game_completed game_state = false →
  GameState.is_multi_round game_state = true →
  GameState.round_attempts game_state = 0 →
  GameState.scenario_completion game_state = None →
  Z.of_nat (length turns)
  = GameState.max_rounds game_state - GameState.current_round game_state + 1 →
  (1 ≤ length turns)%nat →
  all_pass game_state turns = true →
  let final := play game_state turns in
  (∀ k : nat, (k < length turns)%nat →
     GameState.game_completed (play game_state (take k turns)) = false)
  ∧ (∃ new,
       GameState.round_history final
       = (GameState.round_history game_state ++ new)%list
       ∧ length new = length turns
       ∧ Forall (fun result =>
                   MultiRoundEvaluationResult.passed (RoundResult.evaluation result)
                   = true
                   ∧ RoundResult.attempts_used result = 1) new)
  ∧ ∃ scenario,
      match RoleplayGameEngine._create_scenario_completion final scenario with
      | inl e =>
          GameState.game_completed final = false
          ∧ GameState.scenario_completion final = None
      | inr completion =>
          GameState.game_completed final = true
          ∧ GameState.scenario_completion final = Some completion
          ∧ GameState.final_score final
            = Some (int_of_Q (ScenarioCompletion.overall_score completion))
      end.
Proof.
  revert game_state. induction turns as [|t turns IH];
    intros gs Hgc Hmulti Hzero Hnone Hlen Hone Hall; [simpl in Hone; lia|].
  cbn [all_pass] in Hall. apply andb_true_iff in Hall as [Hpass Hall].
  destruct (submit_passes gs t Hgc Hmulti Hzero Hpass)
    as (Hm' & Hmr' & (result & Hh & Hp & Hau) & Hnext).
  cbv zeta. rewrite play_cons. cbn [length] in Hlen.
  destruct (GameState.max_rounds gs <=? GameState.current_round gs) eqn:Hlast.
  - apply Z.leb_le in Hlast.
    assert (turns = []) as -> by (destruct turns; [done | simpl in Hlen; lia]).
    destruct Hnext as (scenario & Hsummary).
    split_and!.
    + intros k Hk. simpl in Hk. by replace k with 0%nat by lia.
    + exists [result]. simpl. split_and!; [done | done |].
      by repeat constructor.
    + exists scenario. simpl.
      destruct (RoleplayGameEngine._create_scenario_completion _ scenario);
        [|done].
      destruct Hsummary as (Hopen & Hsc). by rewrite Hsc.
  - apply Z.leb_gt in Hlast. destruct Hnext as (Hopen & Hcr' & Hra' & Hsc').
    destruct (IH (submit gs t)) as (Hprefix & (new & Hh' & Hnew & Hall') & Hsummary);
      [done | done | done | by rewrite Hsc' | rewrite Hmr', Hcr'; lia | lia | done |].
    split_and!; [ | | done].
    + intros [|k] Hk; [done|]. simpl in Hk. cbn [take]. rewrite play_cons.
      apply Hprefix. lia.
    + exists (result :: new). rewrite Hh', Hh, <- app_assoc. simpl.
      split_and!; [done | by rewrite Hnew |]. by constructor.
Qed.

End mastery_facts.

(** X13.  A multi-round session in which every submission finds its round
    and passes takes exactly one submission per round: it is open before
    the last of them, and after it the history holds one result per
    round, each passed on the first attempt.  Whether the last submission
    completes the session is decided by the float division of the sum of
    the totals by the number of rounds.  When the division gives a float,
    the session is completed; the summary counts every round as passed,
    reports mastery with the ["scenario_mastery"] badge, its
    [overall_score] is that float, within one part in [2 ^ 53] of the
    mean total of all rounds, and the integer part of the float is the
    session's [final_score].  When the division overflows, the session is
    left open without a summary. *)
Theorem every_round_passed_at_once {rt : Runtime}
    (d : ScenarioDir) (scenario_name : option string) (language : string)
    (game_state : GameState.t) (turns : list turn) :
  RoleplayGameEngine.create_game_state d scenario_name language = Some game_state →
  GameState.is_multi_round game_state = true →
  1 ≤ GameState.max_rounds game_state →
  Z.of_nat (length turns) = GameState.max_rounds game_state →
  all_pass game_state turns = true →
  let final := play game_state turns in
  let history := GameState.round_history final in
  (∀ k : nat, (k < length turns)%nat →
     GameState.game_completed (play game_state (take k turns)) = false)
  ∧ Z.of_nat (length history) = GameState.max_rounds game_state
  ∧ Forall (fun result =>
              MultiRoundEvaluationResult.passed (RoundResult.evaluation result) = true
              ∧ RoundResult.attempts_used result = 1) history
  ∧ match PyFloat.truediv (total_of history) (GameState.max_rounds game_state) with
    | inr mean =>
        GameState.game_completed final = true
        ∧ (GameState.max_rounds game_state < 2 ^ 1022 →
           (Qabs (mean - mean_total_score history) * inject_Z (2 ^ 53)
            <= Qabs (mean_total_score history))%Q)
        ∧ GameState.final_score final = Some (int_of_Q mean)
        ∧ ∃ completion,
            GameState.scenario_completion final = Some completion
            ∧ ScenarioCompletion.rounds_passed completion
              = GameState.max_rounds game_state
            ∧ ScenarioCompletion.mastery_achieved completion = true
            ∧ "scenario_mastery" ∈ ScenarioCompletion.badges_earned completion
            ∧ ScenarioCompletion.overall_score completion = mean
    | inl e =>
        e = OverflowError
        ∧ GameState.game_completed final = false
        ∧ GameState.scenario_completion final = None
    end.
Proof.
  intros Hcreated Hmulti Hrounds Hlen Hall final history.
  pose proof (created_state _ _ _ _ Hcreated)
    as (_ & _ & Hra & _ & Hcr & Hh & Hgc & _ & Hnone).
  destruct (all_pass_run turns game_state Hgc Hmulti Hra Hnone)
    as (Hprefix & (new & Hnew & Hcount & Hpassed) & scenario & Hend);
    [lia | lia | done |].
  fold final in Hnew, Hend.
  rewrite Hh in Hnew. simpl in Hnew. fold history in Hnew. subst new.
  assert (Hevery :
    Forall (fun result =>
              MultiRoundEvaluationResult.passed (RoundResult.evaluation result) = true)
           history).
  { eapply Forall_impl; [exact Hpassed|]. by intros r [Hp _]. }
  assert (Hmr : GameState.max_rounds final = GameState.max_rounds game_state)
    by apply play_max_rounds.
  assert (Hn : Z.of_nat (length history) = GameState.max_rounds game_state)
    by lia.
  split_and!; [done | done | done |].
  destruct (RoleplayGameEngine._create_scenario_completion final scenario)
    as [e|completion] eqn:Hc.
  - destruct Hend as (Hopen & Hsc).
    pose proof Hc as Hunfold.
    rewrite create_scenario_completion_unfold in Hunfold. cbv zeta in Hunfold.
    fold history in Hunfold.
    rewrite (passed_results_id history Hevery), Hn in Hunfold.
    rewrite (proj2 (Z.ltb_lt 0 _)) in Hunfold by lia.
    destruct (PyFloat.truediv _ _) as [e'|mean] eqn:Hdiv; [|done].
    apply truediv_raises in Hdiv as [-> _]; [done | lia].
  - destruct Hend as (Hdone & Hsc & Hfs).
    pose proof (create_scenario_completion_fields final scenario completion Hc)
      as Hfields.
    cbv zeta in Hfields. fold history in Hfields.
    rewrite (passed_results_id history Hevery), Hn in Hfields.
    destruct Hfields as (Hscore & Hrp & Hrc & Htotal & Hmastery & Hbadge & _).
    destruct (decide (history = [])) as [Hempty|_].
    { rewrite Hempty in Hn. simpl in Hn. lia. }
    rewrite Hscore.
    assert (Hfull : ScenarioCompletion.rounds_passed completion
                    = ScenarioCompletion.total_rounds completion).
    { rewrite Hrp, Htotal, Hmr. done. }
    split_and!; [done | | done |].
    + intros Hfew.
      assert (Hmean : mean_total_score history
                      = (inject_Z (total_of history)
                         / inject_Z (GameState.max_rounds game_state))%Q).
      { unfold mean_total_score. rewrite Hn. destruct history; [|done].
        simpl in Hn. lia. }
      rewrite Hmean. apply truediv_close; [lia | done | done].
    + exists completion. split_and!; try done.
      * by apply Hmastery.
      * by apply Hbadge.
Qed.

Lemma every_round_passed_at_once_witness :
  let passing score :=
    (Sample.world Sample.scenarios_dir (inr (Sample.multi_reply score false)),
     "I hear you") in
  let turns := [passing 8; passing 10; passing 10] in
  ∃ game_state,
    RoleplayGameEngine.create_game_state (rt := Sample.runtime)
      Sample.scenarios_dir (Some "school_dropoff_anxiety") "en" = Some game_state
    ∧ let final := play (rt := Sample.runtime) game_state turns in
      GameState.game_completed final = true
      ∧ Z.of_nat (length (GameState.round_history final)) = 3
      ∧ GameState.final_score final = Some 9.
Proof.
  intros passing turns.
  destruct (RoleplayGameEngine.create_game_state (rt := Sample.runtime)
              Sample.scenarios_dir (Some "school_dropoff_anxiety") "en")
    as [game_state|] eqn:Hcreated; [|by vm_compute in Hcreated].
  exists game_state. split; [reflexivity|]. intros final.
  assert (Hgs : game_state
                = GameState.new "School Drop-off Anxiety"
                    "Your child clings to you at the school gate."
                    "I don't want to go to school!" 3 true 3 "en").
  { vm_compute in Hcreated. by injection Hcreated as <-. }
  assert (Hmulti : GameState.is_multi_round game_state = true
                   ∧ GameState.max_rounds game_state = 3).
  { rewrite Hgs. split; vm_compute; reflexivity. }
  destruct Hmulti as [Hmulti Hthree].
  assert (Hall : all_pass (rt := Sample.runtime) game_state turns = true).
  { rewrite Hgs. vm_compute. reflexivity. }
  assert (Htotal : total_of (GameState.round_history final) = 28).
  { subst final. rewrite Hgs. vm_compute. reflexivity. }
  destruct (every_round_passed_at_once (rt := Sample.runtime)
              Sample.scenarios_dir (Some "school_dropoff_anxiety") "en" game_state
              turns Hcreated Hmulti)
    as (_ & Hlen & _ & Hend);
    [rewrite Hthree; lia | by rewrite Hthree | exact Hall |].
  fold final in Hlen, Hend. rewrite Hthree in Hlen. rewrite Hthree, Htotal in Hend.
  destruct (PyFloat.truediv 28 3) as [e|mean] eqn:Hdiv;
    [vm_compute in Hdiv; discriminate Hdiv|].
  destruct Hend as (Hdone & _ & Hfs & _).
  vm_compute in Hdiv. injection Hdiv as <-.
  split; [exact Hdone|]. split; [exact Hlen|]. exact Hfs.
Defined.
(** ** The session map *)

Section session_facts.
Context {rt : Runtime}.

Lemma after_call_other (game_sessions : gmap string GameState.t) (c : call)
    (session_id : string) :
  addressed c ≠ session_id →
  after_call game_sessions c !! session_id = game_sessions !! session_id.
Proof.
  intros Hother. destruct c as [w id text|id]; simpl in *.
  - unfold Api.submit_response.
    destruct (game_sessions !! id) as [gs|]; [|done].
    destruct (GameState.game_completed gs); [done|].
    destruct (RoleplayGameEngine.process_parent_response _ _ _) as [? [?|]];
      simpl; by rewrite lookup_insert_ne.
  - unfold Api.end_game.
    destruct (game_sessions !! id) as [gs|]; [|done].
    simpl. by rewrite lookup_delete_ne.
Qed.

Lemma after_call_respond (game_sessions : gmap string GameState.t) (w : World)
    (session_id text : string) (game_state : GameState.t) :
  game_sessions !! session_id = Some game_state →
  after_call game_sessions (Respond w session_id text) !! session_id
  = Some (submit game_state (w, text)).
Proof.
  intros Hs. simpl. rewrite (submit_response_state _ _ _ _ _ Hs).
  by rewrite lookup_insert_eq.
Qed.

End session_facts.

(** X14.  Sessions do not interfere through [/game/respond] and
    [/game/end].  After any interleaving of such calls in which the
    session itself is not ended, the state stored under its id is the
    playthrough of the submissions addressed to it, in their order: calls
    addressed to other ids, whether they succeed or are refused, leave it
    as it is. *)
Theorem sessions_are_isolated {rt : Runtime}
    (game_sessions : gmap string GameState.t) (session_id : string)
    (game_state : GameState.t) (calls : list call) :
  game_sessions !! session_id = Some game_state →
  End_game session_id ∉ calls →
  after_calls game_sessions calls !! session_id
  = Some (play game_state (turns_for session_id calls)).
Proof.
  revert game_sessions game_state.
  induction calls as [|c calls IH]; intros game_sessions game_state Hs Hlive; [done|].
  apply not_elem_of_cons in Hlive as [Hc Hlive].
  unfold after_calls. cbn [foldl]. fold (after_calls (after_call game_sessions c) calls).
  destruct (decide (addressed c = session_id)) as [Hmine|Hother].
  - destruct c as [w id text|id]; simpl in Hmine; subst id; [|done].
    rewrite (IH _ (submit game_state (w, text))); [|by apply after_call_respond|done].
    unfold turns_for. cbn [omap list_omap]. by rewrite decide_True.
  - rewrite (IH _ game_state); [|by rewrite after_call_other|done].
    unfold turns_for. cbn [omap list_omap].
    destruct c as [w id text|id]; simpl in Hother; [|done].
    by rewrite decide_False.
Qed.

Lemma sessions_are_isolated_witness :
  let w := Sample.world Sample.scenarios_dir (inr (Sample.single_reply 1 1 1 3 false)) in
  let s1 :=
    (Api.start_game (rt := Sample.runtime) Sample.scenarios_dir ∅
       (Some "messy_room") "en").2 in
  let s2 :=
    (Api.start_game (rt := Sample.runtime) Sample.scenarios_dir s1
       (Some "messy_kitchen") "en").2 in
  ∃ game_state,
    s2 !! "session_0" = Some game_state
    ∧ after_calls (rt := Sample.runtime) s2
        [Respond w "session_1" "Clean it"; Respond w "session_0" "Now";
         End_game "session_1"; Respond w "session_7" "Hello"] !! "session_0"
      = Some (play (rt := Sample.runtime) game_state [(w, "Now")]).
Proof.
  intros w s1 s2.
  destruct (s2 !! "session_0") as [game_state|] eqn:Hs;
    [|vm_compute in Hs; discriminate Hs].
  exists game_state. split; [reflexivity|].
  apply (sessions_are_isolated (rt := Sample.runtime) s2 "session_0" game_state
           [Respond w "session_1" "Clean it"; Respond w "session_0" "Now";
            End_game "session_1"; Respond w "session_7" "Hello"] Hs).
  intros Hin. repeat (apply elem_of_cons in Hin as [Hin|Hin]; [discriminate Hin|]).
  by apply elem_of_nil in Hin.
Defined.

(** ** Session ids *)

Lemma to_uint_nonnil (n : nat) : Nat.to_uint n ≠ Decimal.Nil.
Proof.
  intros Hnil. assert (n = 0%nat) as ->.
  { rewrite <- (DecimalNat.Unsigned.of_to n), Hnil. reflexivity. }
  discriminate Hnil.
Qed.

Lemma of_nat_inj (n m : nat) : PyStr.of_nat n = PyStr.of_nat m → n = m.
Proof.
  unfold PyStr.of_nat. intros Heq.
  apply (f_equal NilZero.uint_of_string) in Heq.
  rewrite !NilZero.usu in Heq by apply to_uint_nonnil.
  injection Heq as Heq. by apply DecimalNat.Unsigned.to_uint_inj.
Qed.

Lemma session_id_inj (n m : nat) :
  "session_" ++ PyStr.of_nat n = "session_" ++ PyStr.of_nat m → n = m.
Proof. simpl. intros [= Heq]. by apply of_nat_inj. Qed.

Section start_facts.
Context {rt : Runtime}.

(** The ids in use are ["session_0"] to ["session_<n-1>"] for a map of
    [n] sessions. *)
Lemma start_game_dense (d : ScenarioDir) (game_sessions : gmap string GameState.t)
    (scenario_name : option string) (language : string) :
  (∀ id, is_Some (game_sessions !! id)
         ↔ ∃ i : nat, (i < size game_sessions)%nat
                      ∧ id = "session_" ++ PyStr.of_nat i) →
  let started := (Api.start_game d game_sessions scenario_name language).2 in
  (∀ id, is_Some (started !! id)
         ↔ ∃ i : nat, (i < size started)%nat ∧ id = "session_" ++ PyStr.of_nat i)
  ∧ size started
    = (size game_sessions
       + length (option_list
                   (RoleplayGameEngine.create_game_state d scenario_name language)))%nat
  ∧ game_sessions ⊆ started.
Proof.
  intros Hdense. cbv zeta. unfold Api.start_game.
  destruct (RoleplayGameEngine.create_game_state d scenario_name language)
    as [game_state|]; simpl.
  2: { split_and!; [done | lia | done]. }
  assert (Hfresh : game_sessions !! ("session_" ++ PyStr.of_nat (size game_sessions))
                   = None).
  { apply eq_None_not_Some. intros (i & Hi & Heq)%Hdense.
    apply session_id_inj in Heq. lia. }
  rewrite (map_size_insert_None _ _ _ Hfresh).
  split_and!; [|lia|by apply insert_subseteq].
  intros id. rewrite lookup_insert_is_Some, Hdense. split.
  - intros [<-|(_ & i & Hi & ->)].
    + exists (size game_sessions). split; [lia|done].
    + exists i. split; [lia|done].
  - intros (i & Hi & ->).
    destruct (decide (i = size game_sessions)) as [->|Hne]; [by left|].
    right. split.
    + intros Heq. by apply session_id_inj in Heq.
    + exists i. split; [lia|done].
Qed.

Lemma start_all_dense (d : ScenarioDir) (requests : list start_request)
    (game_sessions : gmap string GameState.t) :
  (∀ id, is_Some (game_sessions !! id)
         ↔ ∃ i : nat, (i < size game_sessions)%nat
                      ∧ id = "session_" ++ PyStr.of_nat i) →
  let started := start_all d game_sessions requests in
  (∀ id, is_Some (started !! id)
         ↔ ∃ i : nat, (i < size started)%nat ∧ id = "session_" ++ PyStr.of_nat i)
  ∧ size started
    = (size game_sessions
       + length (omap (fun request =>
                         RoleplayGameEngine.create_game_state d request.1 request.2)
                      requests))%nat
  ∧ game_sessions ⊆ started.
Proof.
  revert game_sessions. induction requests as [|r requests IH];
    intros game_sessions Hdense; cbv zeta.
  { simpl. split_and!; [done | lia | done]. }
  destruct (start_game_dense d game_sessions r.1 r.2 Hdense) as (Hd1 & Hs1 & Hsub1).
  destruct (IH _ Hd1) as (Hd2 & Hs2 & Hsub2).
  unfold start_all in *. cbn [foldl].
  split_and!; [done | | by etrans].
  rewrite Hs2, Hs1. cbn [omap list_omap].
  destruct (RoleplayGameEngine.create_game_state d r.1 r.2); simpl; lia.
Qed.

End start_facts.

(** X15.  As long as no session is ended, [/game/start] never reuses an
    id.  After any sequence of start requests on an empty map the ids in
    use are exactly ["session_0"] to ["session_<n-1>"], [n] being the
    number of requests that found their scenario; the id of the next
    start is free, so that start keeps every stored session as it is. *)
Theorem start_game_ids_are_fresh {rt : Runtime}
    (d : ScenarioDir) (requests : list start_request) :
  let game_sessions := start_all d ∅ requests in
  (∀ id, is_Some (game_sessions !! id)
         ↔ ∃ i : nat, (i < size game_sessions)%nat
                      ∧ id = "session_" ++ PyStr.of_nat i)
  ∧ size game_sessions
    = length (omap (fun request =>
                      RoleplayGameEngine.create_game_state d request.1 request.2)
                   requests)
  ∧ game_sessions !! ("session_" ++ PyStr.of_nat (size game_sessions)) = None
  ∧ ∀ (scenario_name : option string) (language : string),
      game_sessions ⊆ (Api.start_game d game_sessions scenario_name language).2.
Proof.
  intros game_sessions.
  assert (Hempty : ∀ id, is_Some ((∅ : gmap string GameState.t) !! id)
                         ↔ ∃ i : nat, (i < size (∅ : gmap string GameState.t))%nat
                                      ∧ id = "session_" ++ PyStr.of_nat i).
  { intros id. rewrite lookup_empty, map_size_empty. split.
    - by intros [? ?].
    - intros (i & Hi & _). lia. }
  destruct (start_all_dense d requests ∅ Hempty) as (Hdense & Hsize & _).
  fold game_sessions in Hdense, Hsize. rewrite map_size_empty in Hsize.
  split_and!; [done | done | |].
  - apply eq_None_not_Some. intros (i & Hi & Heq)%Hdense.
    apply session_id_inj in Heq. lia.
  - intros scenario_name language.
    by destruct (start_game_dense d game_sessions scenario_name language Hdense)
      as (_ & _ & Hsub).
Qed.

(** ** The final score of a multi-round session *)

(** X16.  Whenever a played session carries a completion summary, its
    [final_score] is the integer part of the summary's [overall_score]:
    the score the status endpoint reads from the state is the one the
    respond endpoint computes from the summary.  With no passed round it
    is 0, not absent. *)
Theorem final_score_is_truncated_overall_score {rt : Runtime}
    (d : ScenarioDir) (scenario_name : option string) (language : string)
    (game_state : GameState.t) (turns : list turn)
    (completion : ScenarioCompletion.t) :
  RoleplayGameEngine.create_game_state d scenario_name language = Some game_state →
  GameState.scenario_completion (play game_state turns) = Some completion →
  let final := play game_state turns in
  GameState.final_score final
  = Some (int_of_Q (ScenarioCompletion.overall_score completion))
  ∧ (passed_results (GameState.round_history final) = [] →
     GameState.final_score final = Some 0).
Proof.
  intros Hcreated Hsummary final.
  destruct (play_summary_recorded game_state turns
              (created_summary_recorded _ _ _ _ Hcreated)) as [_ Hcomp].
  fold final in Hcomp, Hsummary.
  destruct (Hcomp completion Hsummary) as [[scenario Heq] Hfs].
  split; [done|]. intros Hnopass.
  destruct (create_scenario_completion_fields final scenario completion Heq)
    as (Hscore & _).
  rewrite Hnopass in Hscore. simpl in Hscore.
  by rewrite Hfs, Hscore.
Qed.

Lemma final_score_is_truncated_overall_score_witness :
  let turn_scoring score :=
    (Sample.world Sample.scenarios_dir (inr (Sample.multi_reply score false)),
     "I hear you") in
  let turns := [turn_scoring 8; turn_scoring 10; turn_scoring 9] in
  ∃ game_state completion,
    RoleplayGameEngine.create_game_state (rt := Sample.runtime)
      Sample.scenarios_dir (Some "school_dropoff_anxiety") "en" = Some game_state
    ∧ GameState.scenario_completion (play (rt := Sample.runtime) game_state turns)
      = Some completion
    ∧ GameState.final_score (play (rt := Sample.runtime) game_state turns)
      = Some (int_of_Q (ScenarioCompletion.overall_score completion)).
Proof.
  intros turn_scoring turns.
  destruct (RoleplayGameEngine.create_game_state (rt := Sample.runtime)
              Sample.scenarios_dir (Some "school_dropoff_anxiety") "en")
    as [game_state|] eqn:Hcreated; [|by vm_compute in Hcreated].
  assert (Hgs : game_state
                = GameState.new "School Drop-off Anxiety"
                    "Your child clings to you at the school gate."
                    "I don't want to go to school!" 3 true 3 "en").
  { vm_compute in Hcreated. by injection Hcreated as <-. }
  destruct (GameState.scenario_completion (play (rt := Sample.runtime) game_state turns))
    as [completion|] eqn:Hsummary;
    [|rewrite Hgs in Hsummary; vm_compute in Hsummary; discriminate Hsummary].
  exists game_state, completion. split; [reflexivity|]. split; [exact Hsummary|].
  exact (proj1 (final_score_is_truncated_overall_score (rt := Sample.runtime)
                  Sample.scenarios_dir (Some "school_dropoff_anxiety") "en"
                  game_state turns completion Hcreated Hsummary)).
Defined.

(** ** The file name a session looks up *)

Lemma lower_ascii_not_capital (c : ascii) :
  PyStr.lower_ascii (PyStr.lower_ascii c) = PyStr.lower_ascii c
  ∧ (PyStr.lower_ascii c = "-"%char → c = "-"%char)
  ∧ (PyStr.lower_ascii c = " "%char → c = " "%char).
Proof.
  destruct c as [[] [] [] [] [] [] [] []]; vm_compute; split_and!; done.
Qed.

Lemma contains_char_cons (a c : ascii) (s : string) :
  PyStr.contains (String a EmptyString) (String c s)
  = Ascii.eqb a c || PyStr.contains (String a EmptyString) s.
Proof.
  simpl. destruct (ascii_dec a c) as [->|Hne].
  - rewrite Ascii.eqb_refl. by destruct s.
  - by rewrite (proj2 (Ascii.eqb_neq a c) Hne).
Qed.

Lemma replace_lower_clean (s : string) :
  let name := PyStr.replace "-" "_" (PyStr.lower (PyStr.replace " " "_" s)) in
  PyStr.contains " " name = false
  ∧ PyStr.contains "-" name = false
  ∧ PyStr.lower name = name.
Proof.
  cbv zeta. induction s as [|c s (IHs & IHh & IHl)]; [done|].
  cbn [PyStr.replace PyStr.lower].
  rewrite !contains_char_cons, IHs, IHh, IHl, !orb_false_r.
  destruct (lower_ascii_not_capital (if Ascii.eqb c " " then "_"%char else c))
    as (Hidem & Hhyphen & Hspace).
  destruct (Ascii.eqb (PyStr.lower_ascii (if Ascii.eqb c " " then "_"%char else c)) "-")
    eqn:Hh.
  { split_and!; done. }
  split_and!; [|done|by rewrite Hidem].
  apply Ascii.eqb_neq. intros Heq. symmetry in Heq. apply Hspace in Heq.
  destruct (Ascii.eqb c " ") eqn:Hc; [done|].
  apply Ascii.eqb_neq in Hc. done.
Qed.

(** X17.  The file name the engine derives from a session's title never
    holds a space, a hyphen or an upper-case ASCII letter.  So a scenario
    stored under a name with one of these is never found by a submission,
    whatever its title, and a title containing ["school drop"] or
    ["messy"] in any case is looked up under the fixed names
    ["school_dropoff_anxiety"] and ["messy_room"]. *)
Theorem scenario_name_of_title_is_normalised (scenario_title : string) :
  let name := RoleplayGameEngine.scenario_name_of_title scenario_title in
  PyStr.contains " " name = false
  ∧ PyStr.contains "-" name = false
  ∧ PyStr.lower name = name
  ∧ (PyStr.contains "school drop" (PyStr.lower scenario_title) = true →
     name = "school_dropoff_anxiety")
  ∧ (PyStr.contains "school drop" (PyStr.lower scenario_title) = false →
     PyStr.contains "messy" (PyStr.lower scenario_title) = true →
     name = "messy_room")
  ∧ ∀ stored : string,
      PyStr.contains " " stored || PyStr.contains "-" stored
      || negb (String.eqb (PyStr.lower stored) stored) = true →
      name ≠ stored.
Proof.
  cbv zeta. unfold RoleplayGameEngine.scenario_name_of_title.
  destruct (replace_lower_clean scenario_title) as (Hs & Hh & Hl).
  assert (Hclean :
    PyStr.contains " " (RoleplayGameEngine.scenario_name_of_title scenario_title) = false
    ∧ PyStr.contains "-" (RoleplayGameEngine.scenario_name_of_title scenario_title)
      = false
    ∧ PyStr.lower (RoleplayGameEngine.scenario_name_of_title scenario_title)
      = RoleplayGameEngine.scenario_name_of_title scenario_title).
  { unfold RoleplayGameEngine.scenario_name_of_title.
    destruct (PyStr.contains "school drop" (PyStr.lower scenario_title));
      [by vm_compute|].
    destruct (PyStr.contains "messy" (PyStr.lower scenario_title)); [by vm_compute|].
    done. }
  unfold RoleplayGameEngine.scenario_name_of_title in Hclean.
  destruct Hclean as (Hs' & Hh' & Hl').
  split_and!; [done | done | done | by intros -> | by intros -> -> |].
  intros stored Hbad <-.
  rewrite Hs', Hh', Hl', String.eqb_refl in Hbad. done.
Qed.

